(** * Mcucpp::Fs::File — the buffered file reader of [mcucpp/filesystem/src/file.cpp]

    A shallow embedding of [File] (constructors, [Open], [Flush], the two
    [Read]s, [Write], [Seek], [EndOfFile], the destructor) over an abstract
    block driver, followed by the properties of the reader. *)

From Stdlib Require Import ZArith List Bool Lia String.
Import ListNotations.
Local Open Scope Z_scope.

(** ** Machine integers *)

(** An unsigned [bits]-wide integer is a [Z] reduced modulo [2 ^ bits]. *)
Definition wrap (bits z : Z) : Z := z mod 2 ^ bits.

(** Modelled from the spec: the typedefs [FsNode] and [TFileSize] and the
    member declarations of [File] live in fscommon.h and file.h, which are not
    among the sources.  The spec gives file offsets 64 bits ([u64]); node
    handles, the three small cursor fields and [size_t] are taken as 32-bit
    unsigned ([u32]), as is [uint32_t totalBytesAvailable] in the source. *)
Definition u32 : Z -> Z := wrap 32.
Definition u64 : Z -> Z := wrap 64.

(** ** File flags *)

(** Modelled from the spec: the enumerators of [FileFlags] are declared in
    file.h; the spec describes a bit set, so each is a distinct single bit. *)
Definition FileFlagsNone : Z := 0.
Definition FileFlagEof : Z := 1.
Definition FileNotExists : Z := 2.
Definition FileOutOufMem : Z := 4.
Definition FileFlagBufferDirty : Z := 8.
Definition FileFlagWritable : Z := 16.

(** [flags & k] used as a condition. *)
Definition has_flag (flags k : Z) : bool := negb (Z.land flags k =? 0).

(** ** The block driver *)

(** Every call the file makes on its driver, in the order made. *)
Inductive DriverCall : Type :=
| CallGetParameter
| CallEndOfFile (node : Z)
| CallGetBlocksPerNode (node : Z)
| CallGetNextChunk (node : Z)
| CallReadBlock (node : Z)
| CallWriteBlock (node : Z) (data : list Z).

Module IFsDriver.

(** The queries of [IFsDriver] the file consumes.  The chain topology is the
    driver's; the file only asks. *)
Record t : Type := mk {
  BlockSize : Z;                 (* GetParameter(BlockSize) *)
  EndOfFile : Z -> bool;
  GetBlocksPerNode : Z -> Z;
  GetNextChunk : Z -> Z
}.

End IFsDriver.

(** Storage as the driver presents it (byte [i] of the block at address
    [node]) together with the record of driver calls. *)
Record World : Type := mkWorld {
  disk : Z -> Z -> Z;
  calls : list DriverCall
}.

Definition log (w : World) (c : DriverCall) : World :=
  mkWorld (disk w) (calls w ++ [c]).

(** The [n] bytes of the block at [node]. *)
Definition read_block (d : Z -> Z -> Z) (node n : Z) : list Z :=
  map (fun i => d node (Z.of_nat i)) (seq 0 (Z.to_nat n)).

(** Storage after the first [n] bytes of [data] went to the block at [node]. *)
Definition write_block (d : Z -> Z -> Z) (node n : Z) (data : list Z)
  : Z -> Z -> Z :=
  fun a i =>
    if (a =? node) && (0 <=? i) && (i <? n)
    then nth (Z.to_nat i) data 0 else d a i.

(** [new (std::nothrow) uint8_t[n]]: the allocator either fails ([None]) or
    hands out [n] bytes of indeterminate content. *)
Definition new_array (alloc : option (Z -> Z)) (n : Z) : option (list Z) :=
  option_map (fun g => map (fun i => g (Z.of_nat i)) (seq 0 (Z.to_nat n))) alloc.

Definition zlength (l : list Z) : Z := Z.of_nat (List.length l).

Module File.

Record t : Type := mk {
  _firstNode : Z;
  _current : Z;
  _blockBuffer : option (list Z);      (* [None] is the null pointer *)
  _flags : Z;
  _positionInFile : Z;
  _size : Z;
  _blockInChunk : Z;
  _blockSize : Z;
  _positionInBuffer : Z
}.

Definition set_firstNode (v : Z) (f : t) : t :=
  mk v (_current f) (_blockBuffer f) (_flags f) (_positionInFile f)
     (_size f) (_blockInChunk f) (_blockSize f) (_positionInBuffer f).
Definition set_current (v : Z) (f : t) : t :=
  mk (_firstNode f) v (_blockBuffer f) (_flags f) (_positionInFile f)
     (_size f) (_blockInChunk f) (_blockSize f) (_positionInBuffer f).
Definition set_blockBuffer (v : option (list Z)) (f : t) : t :=
  mk (_firstNode f) (_current f) v (_flags f) (_positionInFile f)
     (_size f) (_blockInChunk f) (_blockSize f) (_positionInBuffer f).
Definition set_flags (v : Z) (f : t) : t :=
  mk (_firstNode f) (_current f) (_blockBuffer f) v (_positionInFile f)
     (_size f) (_blockInChunk f) (_blockSize f) (_positionInBuffer f).
Definition set_positionInFile (v : Z) (f : t) : t :=
  mk (_firstNode f) (_current f) (_blockBuffer f) (_flags f) v
     (_size f) (_blockInChunk f) (_blockSize f) (_positionInBuffer f).
Definition set_size (v : Z) (f : t) : t :=
  mk (_firstNode f) (_current f) (_blockBuffer f) (_flags f)
     (_positionInFile f) v (_blockInChunk f) (_blockSize f)
     (_positionInBuffer f).
Definition set_blockInChunk (v : Z) (f : t) : t :=
  mk (_firstNode f) (_current f) (_blockBuffer f) (_flags f)
     (_positionInFile f) (_size f) v (_blockSize f) (_positionInBuffer f).
Definition set_blockSize (v : Z) (f : t) : t :=
  mk (_firstNode f) (_current f) (_blockBuffer f) (_flags f)
     (_positionInFile f) (_size f) (_blockInChunk f) v (_positionInBuffer f).
Definition set_positionInBuffer (v : Z) (f : t) : t :=
  mk (_firstNode f) (_current f) (_blockBuffer f) (_flags f)
     (_positionInFile f) (_size f) (_blockInChunk f) (_blockSize f) v.

(** [_flags |= k] and [_flags &= ~k]. *)
Definition or_flags (k : Z) (f : t) : t := set_flags (Z.lor (_flags f) k) f.
Definition clear_flags (k : Z) (f : t) : t :=
  set_flags (Z.land (_flags f) (Z.lnot k)) f.

(** *** The monad of member functions

    A member function runs on [*this] and the world.  It finishes with a
    value, or touches the block buffer outside its bounds (or through a null
    pointer), or — for the two loops — runs out of fuel. *)
Inductive Outcome (A : Type) : Type :=
| Done (a : A) (f : t) (w : World)
| OutOfBounds
| OutOfFuel.
Arguments Done {A} a f w.
Arguments OutOfBounds {A}.
Arguments OutOfFuel {A}.

Definition M (A : Type) : Type := t -> World -> Outcome A.

Definition ret {A} (a : A) : M A := fun f w => Done a f w.

Definition bind {A B} (m : M A) (k : A -> M B) : M B :=
  fun f w =>
    match m f w with
    | Done a f' w' => k a f' w'
    | OutOfBounds => OutOfBounds
    | OutOfFuel => OutOfFuel
    end.

Declare Scope file_scope.
Delimit Scope file_scope with file.
Notation "x <- m ;; k" := (bind m (fun x => k))
  (at level 61, m at next level, right associativity) : file_scope.
Notation "m ;; k" := (bind m (fun _ => k))
  (at level 61, right associativity) : file_scope.
Local Open Scope file_scope.

Definition get : M t := fun f w => Done f f w.
Definition modify (g : t -> t) : M unit := fun f w => Done tt (g f) w.
Definition call (c : DriverCall) : M unit := fun f w => Done tt f (log w c).
Definition out_of_bounds {A} : M A := fun _ _ => OutOfBounds.

(** [_blockBuffer[i]] *)
Definition buffer_at (i : Z) : M Z :=
  f <- get ;;
  match _blockBuffer f with
  | Some buf =>
      if (0 <=? i) && (i <? zlength buf)
      then ret (nth (Z.to_nat i) buf 0) else out_of_bounds
  | None => out_of_bounds
  end.

(** [memcpy(dest, &_blockBuffer[off], n)]: the bytes copied out. *)
Definition buffer_copy (off n : Z) : M (list Z) :=
  f <- get ;;
  match _blockBuffer f with
  | Some buf =>
      if (0 <=? off) && (0 <=? n) && (off + n <=? zlength buf)
      then ret (firstn (Z.to_nat n) (skipn (Z.to_nat off) buf))
      else out_of_bounds
  | None => out_of_bounds
  end.

Section Methods.

Variable driver : IFsDriver.t.

(** Modelled from the spec: [FindNodeLister::Find] (findnodelister.h, not
    among the sources) is the path resolver: it maps a path to a
    (node, size) pair, with a null node when the path is not found. *)
Variable Find : string -> Z * Z.

(** [_driver.GetParameter(BlockSize)], as stored into [_blockSize]. *)
Definition drv_GetParameter : M Z :=
  call CallGetParameter ;; ret (u32 (IFsDriver.BlockSize driver)).

Definition drv_EndOfFile (node : Z) : M bool :=
  call (CallEndOfFile node) ;; ret (IFsDriver.EndOfFile driver node).

Definition drv_GetBlocksPerNode (node : Z) : M Z :=
  call (CallGetBlocksPerNode node) ;;
  ret (IFsDriver.GetBlocksPerNode driver node).

Definition drv_GetNextChunk (node : Z) : M Z :=
  call (CallGetNextChunk node) ;;
  ret (IFsDriver.GetNextChunk driver node).

(** [_driver.ReadBlock(node, _blockBuffer)]: the driver stores one block,
    [BlockSize] bytes, from index 0 of the buffer on. *)
Definition drv_ReadBlock (node : Z) : M unit :=
  fun f w =>
    let n := u32 (IFsDriver.BlockSize driver) in
    match _blockBuffer f with
    | Some buf =>
        if n <=? zlength buf
        then Done tt
               (set_blockBuffer
                  (Some (read_block (disk w) node n
                           ++ skipn (Z.to_nat n) buf)) f)
               (log w (CallReadBlock node))
        else OutOfBounds
    | None => OutOfBounds
    end.

(** [_driver.WriteBlock(node, _blockBuffer)]: the driver takes one block
    from index 0 of the buffer on. *)
Definition drv_WriteBlock (node : Z) : M unit :=
  fun f w =>
    let n := u32 (IFsDriver.BlockSize driver) in
    match _blockBuffer f with
    | Some buf =>
        if n <=? zlength buf
        then Done tt f
               (mkWorld (write_block (disk w) node n buf)
                        (calls w ++ [CallWriteBlock node (firstn (Z.to_nat n) buf)]))
        else OutOfBounds
    | None => OutOfBounds
    end.

(** [File::File(IFsDriver &driver)] *)
Definition File_unbound (w : World) : Outcome unit :=
  (bs <- drv_GetParameter ;;
   modify (set_blockSize bs) ;;
   modify (set_positionInBuffer bs))
    (mk 0 0 None (Z.lor FileFlagEof FileNotExists) (u64 (-1)) 0 0 0 0) w.

(** [File::File(IFsDriver &driver, FsNode node, TFileSize size)] *)
Definition File_node (node size : Z) (alloc : option (Z -> Z)) (w : World)
  : Outcome unit :=
  (bs <- drv_GetParameter ;;
   modify (set_blockSize bs) ;;
   modify (set_blockBuffer (new_array alloc bs)) ;;
   modify (set_positionInBuffer bs) ;;
   f <- get ;;
   match _blockBuffer f with
   | Some _ => ret tt
   | None => modify (or_flags (Z.lor FileOutOufMem FileFlagEof))
   end ;;
   f <- get ;;
   (if _firstNode f =? 0
    then modify (or_flags (Z.lor FileFlagEof FileNotExists))
    else ret tt))
    (mk (u32 node) 0 None FileFlagsNone (u64 (-1)) (u64 size) 0 0 0) w.

(** [bool File::Open(const char *filePath)] *)
Definition Open (filePath : string) (alloc : option (Z -> Z)) : M bool :=
  bs <- drv_GetParameter ;;
  modify (set_blockSize bs) ;;
  f <- get ;;
  match _blockBuffer f with
  | Some _ => ret tt
  | None => modify (set_blockBuffer (new_array alloc bs))
  end ;;
  modify (set_positionInBuffer bs) ;;
  f <- get ;;
  match _blockBuffer f with
  | None => modify (or_flags (Z.lor FileOutOufMem FileFlagEof)) ;; ret false
  | Some _ =>
      let fileEntry := Find filePath in
      modify (set_firstNode (u32 (fst fileEntry))) ;;
      modify (set_size (u64 (snd fileEntry))) ;;
      f <- get ;;
      if _firstNode f =? 0
      then modify (or_flags (Z.lor FileFlagEof FileNotExists)) ;; ret false
      else ret true
  end.

(** [File::File(IFsDriver &driver, const char *filePath)].  The
    initializer list leaves [_firstNode], [_blockBuffer], [_blockSize] and
    [_positionInBuffer] out; [Open] assigns the last two.  The other two
    start from whatever the memory of the object holds: [_firstNode] from
    an arbitrary [junk] value, and the buffer pointer from [wild], which is
    [None] where that memory reads as a null pointer and [Some mem] where
    it does not, [mem] being the bytes that can be accessed through the
    pointer ([[]] when none can).  [Open] allocates in the first case
    only. *)
Definition File_path (filePath : string) (alloc : option (Z -> Z))
           (junk : Z) (wild : option (list Z)) (w : World) : Outcome unit :=
  (Open filePath alloc ;; ret tt)
    (mk (u32 junk) 0 wild FileNotExists (u64 (-1)) 0 0 0 0) w.

(** [void File::Flush()] *)
Definition Flush : M unit :=
  f <- get ;;
  match _blockBuffer f with
  | None => ret tt
  | Some _ =>
      c <- (if _current f =? 0 then ret false
            else
              e <- drv_EndOfFile (_current f) ;;
              ret (e && has_flag (_flags f) FileFlagBufferDirty
                     && has_flag (_flags f) FileFlagWritable)) ;;
      if c : bool
      then drv_WriteBlock (u32 (_current f + _blockInChunk f))
      else ret tt
  end.

(** [File::~File()].  [delete[]] is modelled as the release of a buffer
    that [new] returned; with a non-null pointer that
    [File(driver, path)] left uninitialised it has no defined behaviour,
    and nothing is stated of the destructor there beyond its [Flush] and
    its driver calls. *)
Definition destroy : M unit :=
  Flush ;;
  f <- get ;;
  match _blockBuffer f with
  | Some _ => modify (set_blockBuffer None)
  | None => ret tt
  end.

(** The statements both [Read]s share once the current node is known not
    to end the chain (lines 160-174 and 226-240):
    [Flush(); _blockInChunk++; if (...) { ... } _positionInFile += _blockSize;].
    The result is [false] when the next chunk ends the chain, where the
    single-byte [Read] returns and the bulk [Read] breaks. *)
Definition next_block : M bool :=
  Flush ;;
  modify (fun f => set_blockInChunk (u32 (_blockInChunk f + 1)) f) ;;
  f <- get ;;
  n <- drv_GetBlocksPerNode (_current f) ;;
  go <- (if _blockInChunk f >=? n then
           next <- drv_GetNextChunk (_current f) ;;
           modify (set_blockInChunk 0) ;;
           e <- drv_EndOfFile next ;;
           if e : bool
           then modify (or_flags FileFlagEof) ;; ret false
           else modify (clear_flags FileFlagEof) ;;
                modify (set_current next) ;; ret true
         else ret true) ;;
  if go : bool
  then modify (fun f => set_positionInFile
                          (u64 (_positionInFile f + _blockSize f)) f) ;;
       ret true
  else ret false.

(** [_driver.ReadBlock(_current + _blockInChunk, _blockBuffer)] *)
Definition load_block : M unit :=
  f <- get ;; drv_ReadBlock (u32 (_current f + _blockInChunk f)).

(** The tail of the single-byte [Read] (lines 180-185). *)
Definition take_byte : M Z :=
  f <- get ;;
  res <- buffer_at (_positionInBuffer f) ;;
  modify (set_positionInBuffer (u32 (_positionInBuffer f + 1))) ;;
  f <- get ;;
  (if u64 (_positionInBuffer f + _positionInFile f) >=? _size f
   then modify (or_flags FileFlagEof) else ret tt) ;;
  ret res.

(** [uint8_t File::Read()] *)
Definition Read : M Z :=
  f <- get ;;
  if _positionInBuffer f >=? _blockSize f then
    match _blockBuffer f with
    | None => ret 0
    | Some _ =>
        go <- (if _current f =? 0 then
                 modify (set_current (_firstNode f)) ;;
                 modify (set_positionInFile 0) ;;
                 ret true
               else
                 e <- drv_EndOfFile (_current f) ;;
                 if e : bool then ret false else next_block) ;;
        if go : bool then
          load_block ;;
          modify (set_positionInBuffer 0) ;;
          take_byte
        else ret 0
    end
  else take_byte.

(** The [while] loop of the bulk [Read] (lines 211-258); [dest] holds the
    [bytesRead] bytes delivered so far. *)
Fixpoint Read_loop (fuel : nat) (bytesToRead bytesRead : Z)
         (dest : list Z) : M (Z * list Z) :=
  f <- get ;;
  if (bytesRead <? bytesToRead)
     && (u64 (_positionInBuffer f + _positionInFile f) <? _size f)
  then
    match fuel with
    | O => fun _ _ => OutOfFuel
    | S fuel' =>
        go <- (if _current f =? 0 then
                 modify (set_current (_firstNode f)) ;;
                 modify (set_positionInFile 0) ;;
                 ret true
               else
                 e <- drv_EndOfFile (_current f) ;;
                 if e : bool
                 then modify (or_flags FileFlagEof) ;; ret false
                 else next_block) ;;
        if go : bool then
          load_block ;;
          f <- get ;;
          let totalBytesAvailable :=
            if _positionInFile f <? _size f
            then u32 (_size f - _positionInFile f) else 0 in
          let chunkSize := Z.min (bytesToRead - bytesRead) (_blockSize f) in
          chunkSize <-
            (if chunkSize >? totalBytesAvailable
             then modify (or_flags FileFlagEof) ;; ret totalBytesAvailable
             else ret chunkSize) ;;
          modify (set_positionInBuffer chunkSize) ;;
          bytes <- buffer_copy 0 chunkSize ;;
          Read_loop fuel' bytesToRead (u32 (bytesRead + chunkSize))
                    (dest ++ bytes)
        else ret (bytesRead, dest)
    end
  else ret (bytesRead, dest).

(** [size_t File::Read(void *buffer, size_t bytesToRead)]: the count
    returned and the bytes stored at [buffer]. *)
Definition Read_bulk (fuel : nat) (bytesToRead : Z) : M (Z * list Z) :=
  let bytesToRead := u32 bytesToRead in
  f <- get ;;
  match _blockBuffer f with
  | None => ret (0, [])
  | Some _ =>
      let totalBytesAvailable :=
        if u64 (_positionInBuffer f + _positionInFile f) <? _size f
        then u32 (_size f - u64 (_positionInBuffer f + _positionInFile f))
        else 0 in
      let bytesInBuffer := u32 (_blockSize f - _positionInBuffer f) in
      let bytesRead := Z.min bytesToRead bytesInBuffer in
      let bytesRead :=
        if bytesRead >? totalBytesAvailable
        then totalBytesAvailable else bytesRead in
      bytes <- buffer_copy (_positionInBuffer f) bytesRead ;;
      modify (set_positionInBuffer (u32 (_positionInBuffer f + bytesRead))) ;;
      r <- Read_loop fuel bytesToRead bytesRead bytes ;;
      f <- get ;;
      (if u64 (_positionInBuffer f + _positionInFile f) >=? _size f
       then modify (or_flags FileFlagEof) else ret tt) ;;
      ret r
  end.

(** [bool File::Write(uint8_t value)] *)
Definition Write (value : Z) : M bool :=
  f <- get ;;
  (if has_flag (_flags f) FileFlagWritable then ret tt else ret tt) ;;
  ret false.

(** The [while] loop of [Seek] (lines 291-307); [false] stands for the
    [return false] inside it. *)
Fixpoint Seek_loop (fuel : nat) (pos : Z) : M bool :=
  f <- get ;;
  if pos >? u64 (_positionInFile f + _blockSize f) then
    match fuel with
    | O => fun _ _ => OutOfFuel
    | S fuel' =>
        e <- drv_EndOfFile (_current f) ;;
        if e : bool then ret false
        else
          n <- drv_GetBlocksPerNode (_current f) ;;
          (if _blockInChunk f >=? n then
             next <- drv_GetNextChunk (_current f) ;;
             modify (set_current next) ;;
             modify (set_blockInChunk 0)
           else ret tt) ;;
          f <- get ;;
          e <- drv_EndOfFile (_current f) ;;
          if e : bool then ret false
          else
            modify (fun f => set_positionInFile
                               (u64 (_positionInFile f + _blockSize f)) f) ;;
            Seek_loop fuel' pos
    end
  else ret true.

(** [bool File::Seek(TFileSize pos)] *)
Definition Seek (fuel : nat) (pos : Z) : M bool :=
  let pos := u64 pos in
  f <- get ;;
  match _blockBuffer f with
  | None => ret false
  | Some _ =>
      go <- (if (pos >=? u64 (_positionInFile f + _blockSize f))
                || (pos <? _positionInFile f)
             then
               (if pos <? _positionInFile f
                then modify (set_current (_firstNode f)) ;;
                     modify (set_positionInFile 0)
                else ret tt) ;;
               Flush ;;
               go <- Seek_loop fuel pos ;;
               if go : bool then load_block ;; ret true else ret false
             else ret true) ;;
      if go : bool then
        modify (fun f => set_positionInBuffer
                           (u32 (u64 (pos - _positionInFile f))) f) ;;
        modify (clear_flags FileFlagEof) ;;
        ret false
      else ret false
  end.

(** [bool File::EndOfFile()] *)
Definition EndOfFile (f : t) : bool := has_flag (_flags f) FileFlagEof.

(** *** Sequences of calls on one object *)

Inductive Op : Type :=
| OpOpen (filePath : string) (alloc : option (Z -> Z))
| OpRead
| OpReadBulk (fuel : nat) (bytesToRead : Z)
| OpWrite (value : Z)
| OpSeek (fuel : nat) (pos : Z)
| OpFlush.

Definition run_op (o : Op) : M unit :=
  match o with
  | OpOpen filePath alloc => Open filePath alloc ;; ret tt
  | OpRead => Read ;; ret tt
  | OpReadBulk fuel n => Read_bulk fuel n ;; ret tt
  | OpWrite value => Write value ;; ret tt
  | OpSeek fuel pos => Seek fuel pos ;; ret tt
  | OpFlush => Flush
  end.

Fixpoint run_ops (ops : list Op) : M unit :=
  match ops with
  | [] => ret tt
  | o :: ops' => run_op o ;; run_ops ops'
  end.

Definition is_open (o : Op) : bool :=
  match o with OpOpen _ _ => true | _ => false end.

(** [n] successive single-byte [Read]s and the bytes they return. *)
Fixpoint reads (n : nat) : M (list Z) :=
  match n with
  | O => ret []
  | S n' => b <- Read ;; l <- reads n' ;; ret (b :: l)
  end.

(** The three constructors. *)
Inductive Ctor : Type :=
| NewUnbound
| NewNode (node size : Z) (alloc : option (Z -> Z))
| NewPath (filePath : string) (alloc : option (Z -> Z)) (junk : Z)
          (wild : option (list Z)).

Definition construct (c : Ctor) (w : World) : Outcome unit :=
  match c with
  | NewUnbound => File_unbound w
  | NewNode node size alloc => File_node node size alloc w
  | NewPath filePath alloc junk wild => File_path filePath alloc junk wild w
  end.

(** The constructor gives [_blockBuffer] a value of its own, or finds a
    null pointer in its place: every construction but [File(driver, path)]
    over memory that does not read as a null pointer. *)
Definition pointer_initialised (c : Ctor) : bool :=
  match c with
  | NewPath _ _ _ (Some _) => false
  | _ => true
  end.

(** A member function called on the object an earlier call left. *)
Definition and_then {A B} (o : Outcome A) (m : M B) : Outcome B :=
  match o with
  | Done _ f w => m f w
  | OutOfBounds => OutOfBounds
  | OutOfFuel => OutOfFuel
  end.

End Methods.

End File.

(** ** Observations on the record of driver calls *)

Definition is_write (c : DriverCall) : bool :=
  match c with CallWriteBlock _ _ => true | _ => false end.

(** The [WriteBlock] calls among [l]. *)
Definition writes_of (l : list DriverCall) : list DriverCall :=
  filter is_write l.

(** ** A small volume

    The driver stub of the chunk-boundary test: blocks of 4 bytes, 2 blocks
    per node, the chain 10 -> 20 -> 30 -> end; byte [k] of the file is
    [k + 1]. *)
Module Demo.

Definition EndOfChain : Z := 65535.

Definition driver : IFsDriver.t :=
  IFsDriver.mk 4 (fun n => n =? EndOfChain) (fun _ => 2)
    (fun n => if n =? 10 then 20 else if n =? 20 then 30 else EndOfChain).

Definition block_index (a : Z) : Z :=
  if a =? 10 then 0 else if a =? 11 then 1
  else if a =? 20 then 2 else if a =? 21 then 3
  else if a =? 30 then 4 else if a =? 31 then 5 else 60.

Definition storage : Z -> Z -> Z := fun a i => 4 * block_index a + i + 1.

(** The same chain behind a driver that reports a block size of zero. *)
Definition blockless : IFsDriver.t :=
  IFsDriver.mk 0 (fun n => n =? EndOfChain) (fun _ => 2)
    (fun n => if n =? 10 then 20 else if n =? 20 then 30 else EndOfChain).

Definition world : World := mkWorld storage [].

Definition Find (filePath : string) : Z * Z :=
  if String.eqb filePath "data.bin" then (10, 20) else (0, 0).

(** What a fresh allocation happens to hold. *)
Definition garbage : Z -> Z := fun _ => 170.

(** A 20-byte file bound to the chain, and a 2-byte one. *)
Definition file20 : File.Outcome unit :=
  File.File_node driver 10 20 (Some garbage) world.
Definition file2 : File.Outcome unit :=
  File.File_node driver 10 2 (Some garbage) world.

(** The object [File(driver)] builds: nothing bound, no buffer. *)
Definition unbound : File.t :=
  File.mk 0 0 None 3 18446744073709551615 0 0 4 4.

(** The 20-byte file after its first 6 bytes were read: block 1 of node 10
    is buffered, the cursor stands at its third byte. *)
Definition mid_block : File.t :=
  File.mk 10 10 (Some [5; 6; 7; 8]) 0 4 20 1 4 2.

(** The same object with a dirty buffer on a writable file whose current
    node the driver reports as the end of the chain. *)
Definition dirty_tail : File.t :=
  File.mk 10 EndOfChain (Some [5; 6; 7; 8]) 24 4 20 1 4 2.

End Demo.

(** ** Predicates used by the statements *)

Import File.

(** What a call leaves behind, when it finishes. *)
Definition result {A} (o : Outcome A) : option A :=
  match o with Done a _ _ => Some a | _ => None end.
Definition final_file {A} (o : Outcome A) : option File.t :=
  match o with Done _ f _ => Some f | _ => None end.
Definition final_calls {A} (o : Outcome A) : option (list DriverCall) :=
  match o with Done _ _ w => Some (calls w) | _ => None end.

(** [m] keeps [P]: from a state in [P], [m] can only finish in [P]. *)
Definition keeps {A} (P : File.t -> World -> Prop) (m : M A) : Prop :=
  forall f w, P f w ->
    match m f w with Done _ f' w' => P f' w' | _ => True end.

(** Nothing was written since [w0] and the file is not writable. *)
Definition quiet (w0 : World) (f : File.t) (w : World) : Prop :=
  has_flag (_flags f) FileFlagWritable = false /\
  disk w = disk w0 /\ writes_of (calls w) = writes_of (calls w0).


(** A file without a buffer whose cursor sits at the end of the (absent)
    block: the state every failed allocation leaves. *)
Definition dead (f : File.t) : Prop :=
  _blockBuffer f = None /\ _blockSize f <= _positionInBuffer f.

(** ** Pure counterparts of the reading steps *)

(** The invariant of the cursor and the buffer. *)
Definition sound (driver : IFsDriver.t) (f : File.t) : Prop :=
  _blockSize f = u32 (IFsDriver.BlockSize driver)
  /\ 0 < _blockSize f
  /\ 0 <= _positionInBuffer f <= _blockSize f
  /\ 0 <= _positionInFile f < 2 ^ 64
  /\ match _blockBuffer f with
     | Some buf => zlength buf = _blockSize f
     | None => _positionInBuffer f = _blockSize f
     end.

(** The object after the tail of the single-byte [Read]. *)
Definition after_take (f : File.t) : File.t :=
  let f1 := set_positionInBuffer (u32 (_positionInBuffer f + 1)) f in
  if u64 (_positionInBuffer f1 + _positionInFile f1) >=? _size f1
  then or_flags FileFlagEof f1 else f1.

(** The object after [load_block] on storage [d]. *)
Definition after_load (d : Z -> Z -> Z) (f : File.t) : File.t :=
  set_blockBuffer
    (Some (read_block d (u32 (_current f + _blockInChunk f)) (_blockSize f))) f.

(** What [next_block] answers and leaves when [Flush] has nothing to write. *)
Definition hop (driver : IFsDriver.t) (f : File.t) : bool * File.t :=
  let f1 := set_blockInChunk (u32 (_blockInChunk f + 1)) f in
  if _blockInChunk f1 >=? IFsDriver.GetBlocksPerNode driver (_current f) then
    let next := IFsDriver.GetNextChunk driver (_current f) in
    let f2 := set_blockInChunk 0 f1 in
    if IFsDriver.EndOfFile driver next
    then (false, or_flags FileFlagEof f2)
    else (true,
          set_positionInFile (u64 (_positionInFile f + _blockSize f))
            (set_current next (clear_flags FileFlagEof f2)))
  else (true, set_positionInFile (u64 (_positionInFile f + _blockSize f)) f1).

Definition hop_calls (driver : IFsDriver.t) (f : File.t) : list DriverCall :=
  [CallEndOfFile (_current f); CallGetBlocksPerNode (_current f)]
  ++ (if u32 (_blockInChunk f + 1)
         >=? IFsDriver.GetBlocksPerNode driver (_current f)
      then [CallGetNextChunk (_current f);
            CallEndOfFile (IFsDriver.GetNextChunk driver (_current f))]
      else []).

Definition more (w : World) (l : list DriverCall) : World :=
  mkWorld (disk w) (calls w ++ l).

(** ** The file as the chain lays it out *)

(** The block after block [bic] of [node], as [next_block] finds it; [None]
    when the chain ends there (or leads to the null node). *)
Definition next_position (driver : IFsDriver.t) (p : Z * Z) : option (Z * Z) :=
  let '(node, bic) := p in
  if IFsDriver.EndOfFile driver node then None
  else if u32 (bic + 1) >=? IFsDriver.GetBlocksPerNode driver node then
    let next := IFsDriver.GetNextChunk driver node in
    if IFsDriver.EndOfFile driver next || (next =? 0) then None
    else Some (next, 0)
  else Some (node, u32 (bic + 1)).

(** Node and block-in-chunk of the [j]-th block of the file starting at
    [first]. *)
Fixpoint block_position (driver : IFsDriver.t) (first : Z) (j : nat)
  : option (Z * Z) :=
  match j with
  | O => Some (first, 0)
  | S j' =>
      match block_position driver first j' with
      | Some p => next_position driver p
      | None => None
      end
  end.

(** Byte [k] of the file. *)
Definition file_byte (driver : IFsDriver.t) (d : Z -> Z -> Z) (first k : Z)
  : Z :=
  let bs := u32 (IFsDriver.BlockSize driver) in
  match block_position driver first (Z.to_nat (k / bs)) with
  | Some (node, bic) => d (u32 (node + bic)) (k mod bs)
  | None => 0
  end.

(** Bytes [k], ..., [k + m - 1] of the file. *)
Definition file_bytes (driver : IFsDriver.t) (d : Z -> Z -> Z) (first k : Z)
           (m : nat) : list Z :=
  map (fun i => file_byte driver d first (k + Z.of_nat i)) (seq 0 m).

(** The chain has a block for every offset below [size]. *)
Definition covers (driver : IFsDriver.t) (first size : Z) : Prop :=
  forall j : nat,
    u32 (IFsDriver.BlockSize driver) * Z.of_nat j < size ->
    block_position driver first j <> None.

(** The object [File(driver, first, size)] builds when the allocation
    succeeds and [first] is not null. *)
Definition fresh (driver : IFsDriver.t) (first size : Z) (g : Z -> Z)
  : File.t :=
  let bs := u32 (IFsDriver.BlockSize driver) in
  File.mk first 0 (new_array (Some g) bs) FileFlagsNone (u64 (-1)) size 0 bs bs.

(** The object with block [j] of the file, at ([node], [bic]), in its buffer
    and the cursor on offset [k] of the file. *)
Definition reading (driver : IFsDriver.t) (d : Z -> Z -> Z) (first size : Z)
           (flags k : Z) (j : nat) (node bic : Z) : File.t :=
  let bs := u32 (IFsDriver.BlockSize driver) in
  File.mk first node (Some (read_block d (u32 (node + bic)) bs)) flags
          (bs * Z.of_nat j) size bic bs (k - bs * Z.of_nat j).

(** [f] is the object after [k >= 1] bytes were read in sequence. *)
Definition at_position (driver : IFsDriver.t) (d : Z -> Z -> Z)
           (first size k : Z) (f : File.t) : Prop :=
  let bs := u32 (IFsDriver.BlockSize driver) in
  exists (j : nat) (node bic : Z),
    block_position driver first j = Some (node, bic)
    /\ bs * Z.of_nat j < k <= bs * Z.of_nat j + bs
    /\ f = reading driver d first size
             (if size <=? k then FileFlagEof else FileFlagsNone) k j node bic.

(** The bytes one turn of the loop delivers and the object it leaves, once
    the next block [f1] is known. *)
Definition chunk_size (N br : Z) (f1 : File.t) : Z :=
  let avail := if _positionInFile f1 <? _size f1
               then u32 (_size f1 - _positionInFile f1) else 0 in
  let chunk := Z.min (N - br) (_blockSize f1) in
  if chunk >? avail then avail else chunk.

Definition chunk_flags (N br : Z) (f1 : File.t) : File.t :=
  let avail := if _positionInFile f1 <? _size f1
               then u32 (_size f1 - _positionInFile f1) else 0 in
  let chunk := Z.min (N - br) (_blockSize f1) in
  if chunk >? avail then or_flags FileFlagEof f1 else f1.

(** [m] keeps [P] and never leaves the buffer's bounds. *)
Definition safe {A} (P : File.t -> Prop) (m : M A) : Prop :=
  forall f w, P f ->
    match m f w with
    | Done _ f' _ => P f'
    | OutOfBounds => False
    | OutOfFuel => True
    end.

(** ** Further observations *)

(** Storage and the [WriteBlock] calls are what they were in [w0]. *)
Definition unwritten (w0 : World) (f : File.t) (w : World) : Prop :=
  disk w = disk w0 /\ writes_of (calls w) = writes_of (calls w0).

(** The addresses of the [ReadBlock] calls among [l], in order. *)
Definition loads_of (l : list DriverCall) : list Z :=
  flat_map (fun c => match c with CallReadBlock node => [node] | _ => [] end) l.

(** The address the file passes to the driver for its [j]-th block. *)
Definition block_address (driver : IFsDriver.t) (first : Z) (j : nat) : Z :=
  match block_position driver first j with
  | Some (node, bic) => u32 (node + bic)
  | None => 0
  end.

(** [f] is bound to the file [f0] is bound to, with the same block size,
    and has a buffer exactly if [f0] has one. *)
Definition bound_like (f0 f : File.t) (w : World) : Prop :=
  _firstNode f = _firstNode f0 /\ _size f = _size f0
  /\ _blockSize f = _blockSize f0
  /\ (_blockBuffer f = None <-> _blockBuffer f0 = None).

(** A request for one byte with [Read()] or for [n] bytes with the bulk
    [Read]. *)
Inductive Req : Type :=
| One
| Many (n : nat).

Definition wanted (r : Req) : nat :=
  match r with One => 1%nat | Many n => n end.

(** The bytes a sequence of requests delivers, in order. *)
Fixpoint serve (driver : IFsDriver.t) (fuel : nat) (rs : list Req)
  : M (list Z) :=
  match rs with
  | [] => ret []
  | One :: rs' =>
      bind (Read driver) (fun b =>
      bind (serve driver fuel rs') (fun l => ret (b :: l)))
  | Many n :: rs' =>
      bind (Read_bulk driver fuel (Z.of_nat n)) (fun r =>
      bind (serve driver fuel rs') (fun l => ret (snd r ++ l)))
  end.

Definition total (rs : list Req) : nat := list_sum (map wanted rs).

(** The driver calls made when the cursor enters block [j] of the file: the
    load of block 0 on the first access; later the questions about the block
    before it, the hop to the next chunk where its chunk is exhausted, and
    the load. *)
Definition enter_calls (driver : IFsDriver.t) (first : Z) (j : nat)
  : list DriverCall :=
  match j with
  | O => [CallReadBlock (block_address driver first O)]
  | S j' =>
      match block_position driver first j' with
      | Some (node, bic) =>
          [CallEndOfFile node; CallEndOfFile node; CallGetBlocksPerNode node]
          ++ (if u32 (bic + 1) >=? IFsDriver.GetBlocksPerNode driver node
              then [CallGetNextChunk node;
                    CallEndOfFile (IFsDriver.GetNextChunk driver node)]
              else [])
          ++ [CallReadBlock (block_address driver first j)]
      | None => []
      end
  end.

(** The object with its flags blanked, and an outcome with the flags of the
    object it leaves blanked. *)
Definition flagless (f : File.t) : File.t := set_flags FileFlagsNone f.

Definition forget_flags {A} (o : Outcome A) : Outcome A :=
  match o with
  | Done a f w => Done a (flagless f) w
  | OutOfBounds => OutOfBounds
  | OutOfFuel => OutOfFuel
  end.

(** [m1] on an object and [m2] on the same object with other flags do the
    same, flags apart. *)
Definition sim {A} (m1 m2 : M A) : Prop :=
  forall f fl w,
    forget_flags (m1 (set_flags fl f) w) = forget_flags (m2 f w).

(** ** Proof tools *)

Ltac mred :=
  cbv beta iota zeta delta
      [bind ret get modify call out_of_bounds buffer_at buffer_copy
       drv_GetParameter drv_EndOfFile drv_GetBlocksPerNode drv_GetNextChunk
       drv_ReadBlock drv_WriteBlock load_block and_then].

Ltac case_if :=
  match goal with
  | |- context [if ?c then _ else _] => destruct c eqn:?
  | |- context [match _blockBuffer ?f with _ => _ end] =>
      destruct (_blockBuffer f) eqn:?
  | |- context [match new_array ?a ?n with _ => _ end] =>
      destruct (new_array a n) eqn:?
  end.

(** Unfold the setters and compute the projections, nothing else. *)
Ltac fsimpl :=
  unfold or_flags, clear_flags,
    set_firstNode, set_current, set_blockBuffer, set_flags,
    set_positionInFile, set_size, set_blockInChunk, set_blockSize,
    set_positionInBuffer;
  cbn [_firstNode _current _blockBuffer _flags _positionInFile _size
       _blockInChunk _blockSize _positionInBuffer fst snd].

Ltac fsimpl_in H :=
  unfold or_flags, clear_flags,
    set_firstNode, set_current, set_blockBuffer, set_flags,
    set_positionInFile, set_size, set_blockInChunk, set_blockSize,
    set_positionInBuffer in H;
  cbn [_firstNode _current _blockBuffer _flags _positionInFile _size
       _blockInChunk _blockSize _positionInBuffer fst snd] in H.

(** ** Machine integers and flags *)

Lemma wrap_small bits z : 0 <= z < 2 ^ bits -> wrap bits z = z.
Proof. intros H. unfold wrap. now apply Z.mod_small. Qed.

Lemma wrap_range bits z : 0 <= bits -> 0 <= wrap bits z < 2 ^ bits.
Proof. intros H. unfold wrap. apply Z.mod_pos_bound. now apply Z.pow_pos_nonneg. Qed.

Lemma u32_range z : 0 <= u32 z < 2 ^ 32.
Proof. apply wrap_range. lia. Qed.

Lemma u64_range z : 0 <= u64 z < 2 ^ 64.
Proof. apply wrap_range. lia. Qed.

Lemma u32_small z : 0 <= z < 2 ^ 32 -> u32 z = z.
Proof. apply wrap_small. Qed.

Lemma u64_small z : 0 <= z < 2 ^ 64 -> u64 z = z.
Proof. apply wrap_small. Qed.

Ltac unwrap :=
  repeat match goal with
    | |- context [u32 ?x] => rewrite (u32_small x) by lia
    | |- context [u64 ?x] => rewrite (u64_small x) by lia
    end.

Lemma div_mod_block bs j r :
  0 < bs -> 0 <= r < bs -> 0 <= j ->
  (bs * j + r) / bs = j /\ (bs * j + r) mod bs = r.
Proof.
  intros Hbs Hr Hj. split.
  - symmetry. apply (Z.div_unique (bs * j + r) bs j r); lia.
  - symmetry. apply (Z.mod_unique (bs * j + r) bs j r); lia.
Qed.

Lemma has_flag_lor x k j :
  Z.land k j = 0 -> has_flag (Z.lor x k) j = has_flag x j.
Proof.
  intros H. unfold has_flag.
  now rewrite Z.land_lor_distr_l, H, Z.lor_0_r.
Qed.

Lemma has_flag_lor_set x k j :
  Z.land k j <> 0 -> has_flag (Z.lor x k) j = true.
Proof.
  intros H. unfold has_flag. rewrite Z.land_lor_distr_l.
  apply negb_true_iff, Z.eqb_neq. rewrite Z.lor_eq_0_iff. tauto.
Qed.

Lemma has_flag_clear_eof x j :
  Z.land (Z.lnot FileFlagEof) j = j ->
  has_flag (Z.land x (Z.lnot FileFlagEof)) j = has_flag x j.
Proof.
  intros H. unfold has_flag. now rewrite <- Z.land_assoc, H.
Qed.

(** ** Lists and blocks *)

Lemma zlength_app (l1 l2 : list Z) : zlength (l1 ++ l2) = zlength l1 + zlength l2.
Proof. unfold zlength. rewrite length_app. lia. Qed.

Lemma zlength_read_block d node n : 0 <= n -> zlength (read_block d node n) = n.
Proof. intros H. unfold zlength, read_block. rewrite length_map, length_seq. lia. Qed.

Lemma skipn_all_z n (l : list Z) : zlength l <= n -> skipn (Z.to_nat n) l = [].
Proof. unfold zlength. intros H. apply skipn_all2. lia. Qed.

Lemma nth_read_block d node n i :
  0 <= i < n -> nth (Z.to_nat i) (read_block d node n) 0 = d node i.
Proof.
  intros H. unfold read_block.
  set (F := fun i : nat => d node (Z.of_nat i)).
  transitivity (nth (Z.to_nat i) (map F (seq 0 (Z.to_nat n))) (F O)).
  - apply nth_indep. rewrite length_map, length_seq. lia.
  - rewrite map_nth, seq_nth by lia. unfold F. f_equal. lia.
Qed.

Lemma map_seq_from {A} (F : nat -> A) a n :
  map F (seq a n) = map (fun i => F (a + i)%nat) (seq 0 n).
Proof.
  revert a. induction n as [|n IH]; intros a; [reflexivity|].
  simpl. rewrite Nat.add_0_r. f_equal.
  rewrite IH, <- seq_shift, map_map. apply map_ext. intros i.
  f_equal. lia.
Qed.

Lemma firstn_seq_le n : forall a m,
  (n <= m)%nat -> firstn n (seq a m) = seq a n.
Proof.
  induction n as [|n IH]; intros a m H; [reflexivity|].
  destruct m as [|m]; [lia|]. simpl. f_equal. apply IH. lia.
Qed.

Lemma firstn_skipn_read_block d a n off m :
  0 <= off -> 0 <= m -> off + m <= n ->
  firstn (Z.to_nat m) (skipn (Z.to_nat off) (read_block d a n))
  = map (fun i => d a (off + Z.of_nat i)) (seq 0 (Z.to_nat m)).
Proof.
  intros Ho Hm Hn. unfold read_block.
  rewrite skipn_map, firstn_map, skipn_seq, firstn_seq_le by lia.
  rewrite map_seq_from.
  apply map_ext. intros i. f_equal. lia.
Qed.

Lemma new_array_some g n :
  0 <= n ->
  exists buf, new_array (Some g) n = Some buf /\ zlength buf = n.
Proof.
  intros H. eexists. split; [reflexivity|].
  unfold zlength. rewrite length_map, length_seq. lia.
Qed.

Lemma new_array_length a n buf :
  0 <= n -> new_array a n = Some buf -> zlength buf = n.
Proof.
  intros Hn H. destruct a as [g|]; [|discriminate].
  injection H as <-. unfold zlength. rewrite length_map, length_seq. lia.
Qed.

(** ** The record of driver calls *)

Lemma writes_of_snoc l c :
  is_write c = false -> writes_of (l ++ [c]) = writes_of l.
Proof.
  intros H. unfold writes_of. rewrite filter_app. simpl. rewrite H.
  apply app_nil_r.
Qed.

Lemma more_more w l1 l2 : more (more w l1) l2 = more w (l1 ++ l2).
Proof. unfold more. simpl. now rewrite app_assoc. Qed.

Lemma log_more w c : log w c = more w [c].
Proof. reflexivity. Qed.

(** ** Rules of the monad *)

Lemma bind_get {B} (k : File.t -> M B) f w : bind get k f w = k f f w.
Proof. reflexivity. Qed.

Lemma bind_ret {A B} (a : A) (k : A -> M B) f w : bind (ret a) k f w = k a f w.
Proof. reflexivity. Qed.

Lemma bind_modify {B} g (k : unit -> M B) f w :
  bind (modify g) k f w = k tt (g f) w.
Proof. reflexivity. Qed.

Lemma bind_call {B} c (k : unit -> M B) f w :
  bind (call c) k f w = k tt f (more w [c]).
Proof. reflexivity. Qed.

Lemma bind_assoc {A B C} (m : M A) (k1 : A -> M B) (k2 : B -> M C) f w :
  bind (bind m k1) k2 f w = bind m (fun a => bind (k1 a) k2) f w.
Proof. unfold bind. now destruct (m f w). Qed.

Lemma bind_Done {A B} (m : M A) (k : A -> M B) f w a f' w' :
  m f w = Done a f' w' -> bind m k f w = k a f' w'.
Proof. intros H. unfold bind. now rewrite H. Qed.

Ltac mstep :=
  repeat (rewrite bind_assoc || rewrite bind_get || rewrite bind_ret
          || rewrite bind_modify || rewrite bind_call);
  cbv beta.

Lemma keeps_ret {A} P (a : A) : keeps P (ret a).
Proof. intros f w H. exact H. Qed.

Lemma keeps_get P : keeps P get.
Proof. intros f w H. exact H. Qed.

Lemma keeps_bind {A B} P (m : M A) (k : A -> M B) :
  keeps P m -> (forall a, keeps P (k a)) -> keeps P (bind m k).
Proof.
  intros Hm Hk f w H. unfold bind. specialize (Hm f w H).
  destruct (m f w); auto. now apply Hk.
Qed.

Lemma keeps_from {A} P (m : M A) f w :
  keeps P m -> P f w ->
  match m f w with Done _ f' w' => P f' w' | _ => True end.
Proof. intros K H. now apply K. Qed.

Lemma Write_nothing v f w : Write v f w = Done false f w.
Proof. unfold Write. mred. now destruct (has_flag _ _). Qed.

Lemma buffer_copy_eq off n f w buf :
  _blockBuffer f = Some buf ->
  0 <= off -> 0 <= n -> off + n <= zlength buf ->
  buffer_copy off n f w
  = Done (firstn (Z.to_nat n) (skipn (Z.to_nat off) buf)) f w.
Proof.
  intros Hb Ho Hn Hl. unfold buffer_copy. mred. rewrite Hb.
  destruct (Z.leb_spec 0 off); [|lia].
  destruct (Z.leb_spec 0 n); [|lia].
  destruct (Z.leb_spec (off + n) (zlength buf)); [|lia].
  reflexivity.
Qed.

(** ** The reading steps as functions *)

Section Steps.
Variable driver : IFsDriver.t.

Lemma take_byte_eq f w buf :
  _blockBuffer f = Some buf ->
  0 <= _positionInBuffer f < zlength buf ->
  take_byte f w
  = Done (nth (Z.to_nat (_positionInBuffer f)) buf 0) (after_take f) w.
Proof.
  intros Hb Hp. unfold take_byte, after_take. mred. rewrite Hb.
  destruct (Z.leb_spec 0 (_positionInBuffer f)); [|lia].
  destruct (Z.ltb_spec (_positionInBuffer f) (zlength buf)); [|lia].
  simpl. now destruct (_ >=? _).
Qed.

Lemma load_block_eq f w buf :
  _blockBuffer f = Some buf ->
  zlength buf = _blockSize f ->
  _blockSize f = u32 (IFsDriver.BlockSize driver) ->
  load_block driver f w
  = Done tt (after_load (disk w) f)
      (more w [CallReadBlock (u32 (_current f + _blockInChunk f))]).
Proof.
  intros Hb Hl Hs. mred. rewrite Hb, <- Hs.
  destruct (Z.leb_spec (_blockSize f) (zlength buf)); [|lia].
  unfold after_load. rewrite skipn_all_z by lia. now rewrite app_nil_r.
Qed.

Lemma Flush_not_at_end f w :
  _current f <> 0 ->
  IFsDriver.EndOfFile driver (_current f) = false ->
  _blockBuffer f <> None ->
  Flush driver f w = Done tt f (more w [CallEndOfFile (_current f)]).
Proof.
  intros Hc He Hb. unfold Flush. mred.
  destruct (_blockBuffer f); [|congruence].
  destruct (Z.eqb_spec (_current f) 0); [congruence|].
  now rewrite He.
Qed.

Lemma next_block_eq f w :
  _current f <> 0 ->
  IFsDriver.EndOfFile driver (_current f) = false ->
  _blockBuffer f <> None ->
  next_block driver f w
  = Done (fst (hop driver f)) (snd (hop driver f))
      (more w (hop_calls driver f)).
Proof.
  intros Hc He Hb. unfold next_block. unfold bind at 1.
  rewrite Flush_not_at_end by assumption.
  unfold hop, hop_calls. mred. simpl.
  destruct (_ >=? _); simpl;
    [destruct (IFsDriver.EndOfFile driver
                 (IFsDriver.GetNextChunk driver (_current f)))|];
    unfold log, more; simpl; rewrite <- ?app_assoc; reflexivity.
Qed.

(** The four ways of the single-byte [Read]. *)
Lemma Read_buffered f w buf :
  _blockBuffer f = Some buf ->
  0 <= _positionInBuffer f < _blockSize f ->
  zlength buf = _blockSize f ->
  Read driver f w
  = Done (nth (Z.to_nat (_positionInBuffer f)) buf 0) (after_take f) w.
Proof.
  intros Hb Hp Hl. unfold Read. unfold bind at 1, get at 1.
  rewrite Z.geb_leb.
  destruct (Z.leb_spec (_blockSize f) (_positionInBuffer f)); [lia|].
  apply take_byte_eq; [assumption|lia].
Qed.

Lemma Read_first f w buf :
  _blockBuffer f = Some buf ->
  _positionInBuffer f = _blockSize f ->
  zlength buf = _blockSize f ->
  _blockSize f = u32 (IFsDriver.BlockSize driver) ->
  0 < _blockSize f ->
  _current f = 0 ->
  let f1 := set_positionInFile 0 (set_current (_firstNode f) f) in
  let f2 := set_positionInBuffer 0 (after_load (disk w) f1) in
  Read driver f w
  = Done (disk w (u32 (_firstNode f + _blockInChunk f)) 0) (after_take f2)
      (more w [CallReadBlock (u32 (_firstNode f + _blockInChunk f))]).
Proof.
  intros Hb Hp Hl Hs Hpos Hc f1 f2. unfold Read.
  cbv beta iota zeta delta [bind ret get modify].
  rewrite Z.geb_leb.
  destruct (Z.leb_spec (_blockSize f) (_positionInBuffer f)); [|lia].
  rewrite Hb, Hc. simpl (0 =? 0). cbv beta iota.
  fold f1.
  rewrite (load_block_eq f1 _ buf) by assumption.
  fold f2.
  rewrite (take_byte_eq f2 _ (read_block (disk w) (u32 (_firstNode f + _blockInChunk f)) (_blockSize f))).
  - simpl. f_equal. unfold read_block.
    destruct (Z.to_nat (_blockSize f)) eqn:E; [lia|]. reflexivity.
  - reflexivity.
  - simpl. rewrite zlength_read_block; lia.
Qed.

Lemma Read_at_end f w :
  _blockBuffer f <> None ->
  _blockSize f <= _positionInBuffer f ->
  _current f <> 0 ->
  IFsDriver.EndOfFile driver (_current f) = true ->
  Read driver f w = Done 0 f (more w [CallEndOfFile (_current f)]).
Proof.
  intros Hb Hp Hc He. unfold Read.
  cbv beta iota zeta delta [bind ret get modify call drv_EndOfFile].
  rewrite Z.geb_leb.
  destruct (Z.leb_spec (_blockSize f) (_positionInBuffer f)); [|lia].
  destruct (_blockBuffer f); [|congruence].
  destruct (Z.eqb_spec (_current f) 0); [congruence|].
  now rewrite He.
Qed.

Lemma hop_frame f :
  let f1 := snd (hop driver f) in
  _blockBuffer f1 = _blockBuffer f /\ _blockSize f1 = _blockSize f
  /\ _size f1 = _size f /\ _positionInBuffer f1 = _positionInBuffer f
  /\ _firstNode f1 = _firstNode f.
Proof.
  unfold hop. cbv zeta.
  destruct (_ >=? _); [destruct (IFsDriver.EndOfFile driver _)|];
    simpl; repeat split.
Qed.

Lemma Read_next f w buf :
  _blockBuffer f = Some buf ->
  _positionInBuffer f = _blockSize f ->
  zlength buf = _blockSize f ->
  _blockSize f = u32 (IFsDriver.BlockSize driver) ->
  0 < _blockSize f ->
  _current f <> 0 ->
  IFsDriver.EndOfFile driver (_current f) = false ->
  Read driver f w
  = (let f1 := snd (hop driver f) in
     let seen := CallEndOfFile (_current f) :: hop_calls driver f in
     if fst (hop driver f) then
       let node := u32 (_current f1 + _blockInChunk f1) in
       Done (disk w node 0)
            (after_take (set_positionInBuffer 0 (after_load (disk w) f1)))
            (more w (seen ++ [CallReadBlock node]))
     else Done 0 f1 (more w seen)).
Proof.
  intros Hb Hp Hl Hs Hpos Hc He. unfold Read.
  cbv beta iota zeta delta [bind ret get modify call drv_EndOfFile].
  rewrite Z.geb_leb.
  destruct (Z.leb_spec (_blockSize f) (_positionInBuffer f)); [|lia].
  rewrite Hb.
  destruct (Z.eqb_spec (_current f) 0); [congruence|].
  rewrite He.
  rewrite next_block_eq by congruence.
  destruct (hop_frame f) as (Fb & Fs & _).
  destruct (fst (hop driver f)).
  - rewrite (load_block_eq _ _ buf) by congruence.
    set (f2 := set_positionInBuffer 0 _).
    rewrite (take_byte_eq f2 _
               (read_block (disk w)
                  (u32 (_current (snd (hop driver f))
                        + _blockInChunk (snd (hop driver f))))
                  (_blockSize (snd (hop driver f))))).
    + simpl. f_equal.
      * unfold read_block. rewrite Fs.
        destruct (Z.to_nat (_blockSize f)) eqn:E; [lia|]. reflexivity.
      * unfold log, more. simpl. now rewrite <- !app_assoc.
    + reflexivity.
    + simpl. rewrite zlength_read_block; lia.
  - unfold log, more. simpl. now rewrite <- !app_assoc.
Qed.

End Steps.

(** ** The bulk loop, one iteration at a time *)

Section Loop.
Variable driver : IFsDriver.t.

Lemma Read_loop_stop fuel N br dest f w :
  (br <? N) && (u64 (_positionInBuffer f + _positionInFile f) <? _size f)
  = false ->
  Read_loop driver fuel N br dest f w = Done (br, dest) f w.
Proof.
  intros H. destruct fuel; simpl; unfold bind at 1, get at 1; now rewrite H.
Qed.

Lemma Read_loop_body fuel N br dest f1 w1 buf :
  _blockBuffer f1 = Some buf ->
  zlength buf = _blockSize f1 ->
  _blockSize f1 = u32 (IFsDriver.BlockSize driver) ->
  0 <= chunk_size N br f1 <= _blockSize f1 ->
  let node := u32 (_current f1 + _blockInChunk f1) in
  let n := chunk_size N br f1 in
  (load_block driver ;;
   f <- get ;;
   let totalBytesAvailable :=
     if _positionInFile f <? _size f
     then u32 (_size f - _positionInFile f) else 0 in
   let chunkSize := Z.min (N - br) (_blockSize f) in
   chunkSize <-
     (if chunkSize >? totalBytesAvailable
      then modify (or_flags FileFlagEof) ;; ret totalBytesAvailable
      else ret chunkSize) ;;
   modify (set_positionInBuffer chunkSize) ;;
   bytes <- buffer_copy 0 chunkSize ;;
   Read_loop driver fuel N (u32 (br + chunkSize)) (dest ++ bytes))%file f1 w1
  = Read_loop driver fuel N (u32 (br + n))
      (dest ++ firstn (Z.to_nat n)
                 (read_block (disk w1) node (_blockSize f1)))
      (set_positionInBuffer n (after_load (disk w1) (chunk_flags N br f1)))
      (more w1 [CallReadBlock node]).
Proof.
  intros Hb Hl Hs Hn node n.
  unfold bind at 1. rewrite (load_block_eq driver f1 w1 buf) by assumption.
  cbv beta iota zeta delta [bind ret get modify].
  unfold after_load. fsimpl.
  unfold n, chunk_size, chunk_flags in *. cbv zeta in *.
  destruct (Z.min (N - br) (_blockSize f1) >? _) eqn:E;
    cbv beta iota zeta delta [bind ret get modify]; fsimpl.
  - erewrite buffer_copy_eq; [reflexivity|reflexivity|lia|lia|].
    rewrite zlength_read_block; lia.
  - erewrite buffer_copy_eq; [reflexivity|reflexivity|lia|lia|].
    rewrite zlength_read_block; lia.
Qed.

Lemma Read_loop_next fuel N br dest f w buf :
  _blockBuffer f = Some buf ->
  zlength buf = _blockSize f ->
  _blockSize f = u32 (IFsDriver.BlockSize driver) ->
  (br <? N) && (u64 (_positionInBuffer f + _positionInFile f) <? _size f)
  = true ->
  _current f <> 0 ->
  IFsDriver.EndOfFile driver (_current f) = false ->
  fst (hop driver f) = true ->
  let f1 := snd (hop driver f) in
  let node := u32 (_current f1 + _blockInChunk f1) in
  let n := chunk_size N br f1 in
  0 <= n <= _blockSize f1 ->
  Read_loop driver (S fuel) N br dest f w
  = Read_loop driver fuel N (u32 (br + n))
      (dest ++ firstn (Z.to_nat n)
                 (read_block (disk w) node (_blockSize f1)))
      (set_positionInBuffer n (after_load (disk w) (chunk_flags N br f1)))
      (more w (CallEndOfFile (_current f) :: hop_calls driver f
               ++ [CallReadBlock node])).
Proof.
  intros Hb Hl Hs Hcond Hc He Hgo f1 node n Hn.
  destruct (hop_frame driver f) as (Fb & Fs & _).
  cbn [Read_loop]. rewrite bind_get. cbv beta. rewrite Hcond.
  destruct (Z.eqb_spec (_current f) 0); [congruence|].
  unfold drv_EndOfFile. mstep. rewrite He.
  rewrite (bind_Done _ _ _ _ _ _ _ (next_block_eq driver f _ Hc He ltac:(congruence))).
  rewrite Hgo.
  subst f1 node n.
  etransitivity.
  { apply (Read_loop_body fuel N br dest (snd (hop driver f)) _ buf);
      congruence || exact Hn. }
  f_equal. unfold more. simpl. now rewrite <- !app_assoc.
Qed.

Lemma Read_loop_first fuel N br dest f w buf :
  _blockBuffer f = Some buf ->
  zlength buf = _blockSize f ->
  _blockSize f = u32 (IFsDriver.BlockSize driver) ->
  (br <? N) && (u64 (_positionInBuffer f + _positionInFile f) <? _size f)
  = true ->
  _current f = 0 ->
  let f1 := set_positionInFile 0 (set_current (_firstNode f) f) in
  let node := u32 (_current f1 + _blockInChunk f1) in
  let n := chunk_size N br f1 in
  0 <= n <= _blockSize f1 ->
  Read_loop driver (S fuel) N br dest f w
  = Read_loop driver fuel N (u32 (br + n))
      (dest ++ firstn (Z.to_nat n)
                 (read_block (disk w) node (_blockSize f1)))
      (set_positionInBuffer n (after_load (disk w) (chunk_flags N br f1)))
      (more w [CallReadBlock node]).
Proof.
  intros Hb Hl Hs Hcond Hc f1 node n Hn.
  cbn [Read_loop]. rewrite bind_get. cbv beta. rewrite Hcond, Hc.
  simpl (0 =? 0). mstep. fold f1.
  apply (Read_loop_body fuel N br dest f1 _ buf); try assumption.
Qed.

End Loop.

(** ** Reading along a chain *)

Section Chain.
Variable driver : IFsDriver.t.
Variable d : Z -> Z -> Z.
Variables first size : Z.
Local Abbreviation bs := (u32 (IFsDriver.BlockSize driver)).
Hypothesis bs_pos : 0 < bs.
Hypothesis first_nonnull : first <> 0.
Hypothesis size_range : 0 <= size < 2 ^ 64.
Hypothesis chain : covers driver first size.

Lemma next_position_nonnull p node bic :
  fst p <> 0 -> next_position driver p = Some (node, bic) -> node <> 0.
Proof.
  destruct p as [n b]. unfold next_position. simpl. intros Hn H.
  destruct (IFsDriver.EndOfFile driver n); [discriminate|].
  destruct (_ >=? _).
  - destruct (IFsDriver.EndOfFile driver _); [discriminate|]. simpl in H.
    destruct (Z.eqb_spec (IFsDriver.GetNextChunk driver n) 0); [discriminate|].
    congruence.
  - congruence.
Qed.

Lemma block_position_nonnull j node bic :
  block_position driver first j = Some (node, bic) -> node <> 0.
Proof.
  revert node bic. induction j as [|j IH]; simpl; intros node bic H.
  - congruence.
  - destruct (block_position driver first j) as [[n b]|]; [|discriminate].
    eapply next_position_nonnull; [|exact H]. simpl. eapply IH. reflexivity.
Qed.

Lemma file_byte_at j node bic r :
  block_position driver first j = Some (node, bic) ->
  0 <= r < bs ->
  file_byte driver d first (bs * Z.of_nat j + r) = d (u32 (node + bic)) r.
Proof.
  intros Hj Hr. unfold file_byte.
  destruct (div_mod_block bs (Z.of_nat j) r) as [-> ->]; try lia.
  now rewrite Nat2Z.id, Hj.
Qed.

(** [hop] on a reading object follows [next_position]. *)
Lemma hop_reading k j node bic node' bic' :
  next_position driver (node, bic) = Some (node', bic') ->
  IFsDriver.EndOfFile driver node = false
  /\ hop driver (reading driver d first size FileFlagsNone k j node bic)
     = (true,
        set_positionInFile (u64 (bs * Z.of_nat j + bs))
          (set_blockInChunk bic'
             (set_current node'
                (reading driver d first size FileFlagsNone k j node bic)))).
Proof.
  unfold next_position, hop. simpl. intros H.
  destruct (IFsDriver.EndOfFile driver node); [discriminate|].
  split; [reflexivity|].
  destruct (_ >=? _).
  - destruct (IFsDriver.EndOfFile driver _); [discriminate|]. simpl in H.
    destruct (_ =? 0); [discriminate|]. injection H as <- <-. reflexivity.
  - injection H as <- <-. reflexivity.
Qed.

(** One [Read] at offset [k < size]. *)
Lemma Read_step k f w :
  at_position driver d first size k f -> k < size -> disk w = d ->
  exists f' w',
    Read driver f w = Done (file_byte driver d first k) f' w'
    /\ at_position driver d first size (k + 1) f'
    /\ disk w' = d.
Proof.
  intros (j & node & bic & Hj & Hk & ->) Hlt Hd.
  pose proof (u32_range (IFsDriver.BlockSize driver)) as Hbs.
  destruct (Z.leb_spec size k); [lia|].
  destruct (Z.eq_dec k (bs * Z.of_nat j + bs)) as [Hfull|Hpart].
  - (* the buffered block is used up *)
    assert (Hn : block_position driver first (S j) <> None)
      by (apply chain; lia).
    simpl in Hn. rewrite Hj in Hn.
    destruct (next_position driver (node, bic)) as [[node' bic']|] eqn:Hnext;
      [|congruence].
    destruct (hop_reading k j node bic node' bic' Hnext) as [He Hhop].
    rewrite (Read_next driver _ _ (read_block d (u32 (node + bic)) bs));
      try reflexivity; try assumption.
    + rewrite Hhop. cbv zeta. fsimpl.
      eexists _, _. split; [|split].
      * f_equal. unfold reading. fsimpl. rewrite Hd.
        replace k with (bs * Z.of_nat (S j) + 0) by lia.
        rewrite (file_byte_at (S j) node' bic'); [reflexivity| |lia].
        simpl. now rewrite Hj.
      * exists (S j), node', bic'. split; [simpl; now rewrite Hj|].
        split; [lia|].
        unfold after_take, after_load, reading. fsimpl.
        unwrap. rewrite Hd.
        replace (0 + 1 + (bs * Z.of_nat j + bs)) with (k + 1) by lia.
        rewrite Z.geb_leb.
        destruct (Z.leb_spec size (k + 1)); fsimpl; f_equal; lia.
      * exact Hd.
    + unfold reading. fsimpl. lia.
    + unfold reading. fsimpl. apply zlength_read_block. lia.
    + eapply block_position_nonnull; eassumption.
  - (* inside the buffered block *)
    rewrite (Read_buffered driver _ _ (read_block d (u32 (node + bic)) bs));
      try reflexivity.
    + eexists _, _. split; [|split]; [| |exact Hd].
      * f_equal. unfold reading. fsimpl. rewrite nth_read_block by lia.
        replace k with (bs * Z.of_nat j + (k - bs * Z.of_nat j)) at 2 by lia.
        symmetry. apply file_byte_at; [assumption|lia].
      * exists j, node, bic. split; [assumption|]. split; [lia|].
        unfold after_take, reading. fsimpl. unwrap.
        replace (k - bs * Z.of_nat j + 1 + bs * Z.of_nat j) with (k + 1)
          by lia.
        rewrite Z.geb_leb.
        destruct (Z.leb_spec size (k + 1)); fsimpl; f_equal; lia.
    + unfold reading. fsimpl. lia.
    + unfold reading. fsimpl. apply zlength_read_block. lia.
Qed.

Lemma file_bytes_S k m :
  file_bytes driver d first k (S m)
  = file_byte driver d first k :: file_bytes driver d first (k + 1) m.
Proof.
  unfold file_bytes. simpl. rewrite Z.add_0_r. f_equal.
  rewrite <- seq_shift, map_map. apply map_ext. intros i. f_equal. lia.
Qed.

Lemma reads_seq m : forall k f w,
  at_position driver d first size k f ->
  k + Z.of_nat m <= size -> disk w = d ->
  exists f' w',
    reads driver m f w = Done (file_bytes driver d first k m) f' w'
    /\ at_position driver d first size (k + Z.of_nat m) f'
    /\ disk w' = d.
Proof.
  induction m as [|m IH]; intros k f w Hat Hk Hd.
  - exists f, w. simpl. rewrite Z.add_0_r. auto.
  - destruct (Read_step k f w Hat) as (f1 & w1 & E1 & Hat1 & Hd1);
      [lia|assumption|].
    destruct (IH (k + 1) f1 w1 Hat1) as (f2 & w2 & E2 & Hat2 & Hd2);
      [lia|assumption|].
    exists f2, w2. split; [|split]; [| |assumption].
    + simpl. unfold bind. rewrite E1, E2. unfold ret.
      now rewrite file_bytes_S.
    + replace (k + Z.of_nat (S m)) with (k + 1 + Z.of_nat m) by lia.
      assumption.
Qed.

(** The first [Read] after construction. *)
Lemma Read_fresh g w :
  0 < size -> disk w = d ->
  exists f' w',
    Read driver (fresh driver first size g) w
    = Done (file_byte driver d first 0) f' w'
    /\ at_position driver d first size 1 f'
    /\ disk w' = d.
Proof.
  intros Hs Hd.
  pose proof (u32_range (IFsDriver.BlockSize driver)) as Hbs.
  destruct (new_array_some g bs) as (buf & Hb & Hl); [lia|].
  rewrite (Read_first driver _ _ buf); try assumption; try reflexivity.
  eexists _, _. split; [|split].
  - f_equal. unfold fresh. fsimpl. rewrite Hd.
    pose proof (file_byte_at O first 0 0 eq_refl) as E.
    rewrite Z.mul_0_r in E. simpl (0 + 0) in E. rewrite E by lia.
    reflexivity.
  - exists O, first, 0. split; [reflexivity|]. split; [lia|].
    unfold after_take, after_load, reading, fresh. fsimpl. unwrap.
    rewrite Hd, Z.geb_leb.
    replace (0 + 1 + 0) with 1 by lia.
    destruct (Z.leb_spec size 1); fsimpl; f_equal; lia.
  - exact Hd.
Qed.

Lemma reads_fresh m g w :
  (0 < m)%nat -> Z.of_nat m <= size -> disk w = d ->
  exists f' w',
    reads driver m (fresh driver first size g) w
    = Done (file_bytes driver d first 0 m) f' w'
    /\ at_position driver d first size (Z.of_nat m) f'
    /\ disk w' = d.
Proof.
  intros Hm Hs Hd. destruct m as [|m]; [lia|].
  destruct (Read_fresh g w) as (f1 & w1 & E1 & Hat1 & Hd1); [lia|assumption|].
  destruct (reads_seq m 1 f1 w1 Hat1) as (f2 & w2 & E2 & Hat2 & Hd2);
    [lia|assumption|].
  exists f2, w2. split; [|split]; [| |assumption].
  - simpl. unfold bind. rewrite E1, E2. unfold ret.
    now rewrite file_bytes_S.
  - replace (Z.of_nat (S m)) with (1 + Z.of_nat m) by lia. assumption.
Qed.

Hypothesis size_small : size < 2 ^ 32.

Lemma file_bytes_app k m1 m2 :
  file_bytes driver d first k (m1 + m2)
  = file_bytes driver d first k m1
    ++ file_bytes driver d first (k + Z.of_nat m1) m2.
Proof.
  revert k. induction m1 as [|m1 IH]; intros k.
  - simpl. now rewrite Z.add_0_r.
  - change (S m1 + m2)%nat with (S (m1 + m2)).
    rewrite !file_bytes_S, IH. simpl. do 3 f_equal. lia.
Qed.

Lemma file_bytes_block j node bic off m :
  block_position driver first j = Some (node, bic) ->
  0 <= off -> 0 <= m -> off + m <= bs ->
  firstn (Z.to_nat m) (skipn (Z.to_nat off)
                         (read_block d (u32 (node + bic)) bs))
  = file_bytes driver d first (bs * Z.of_nat j + off) (Z.to_nat m).
Proof.
  intros Hj Ho Hm Hl. rewrite firstn_skipn_read_block by lia.
  unfold file_bytes. apply map_ext_in. intros i Hi. apply in_seq in Hi.
  replace (bs * Z.of_nat j + off + Z.of_nat i)
    with (bs * Z.of_nat j + (off + Z.of_nat i)) by lia.
  symmetry. apply file_byte_at; [assumption|lia].
Qed.

Lemma Read_loop_seq fuel : forall N br dest k j node bic w,
  block_position driver first j = Some (node, bic) ->
  bs * Z.of_nat j < k <= bs * Z.of_nat j + bs ->
  0 <= br <= N -> N < 2 ^ 32 -> k + (N - br) <= size ->
  (br < N -> k = bs * Z.of_nat j + bs) ->
  (Z.to_nat (N - br) <= fuel)%nat ->
  disk w = d ->
  exists j' node' bic' w',
    Read_loop driver fuel N br dest
      (reading driver d first size FileFlagsNone k j node bic) w
    = Done (N, dest ++ file_bytes driver d first k (Z.to_nat (N - br)))
        (reading driver d first size FileFlagsNone (k + (N - br))
           j' node' bic') w'
    /\ block_position driver first j' = Some (node', bic')
    /\ bs * Z.of_nat j' < k + (N - br) <= bs * Z.of_nat j' + bs
    /\ disk w' = d.
Proof.
  pose proof (u32_range (IFsDriver.BlockSize driver)) as Hbs.
  induction fuel as [|fuel IH];
    intros N br dest k j node bic w Hj Hk Hbr HN Hsz Hfull Hfuel Hd.
  - assert (br = N) by lia. subst br.
    rewrite Read_loop_stop by (rewrite Z.ltb_irrefl; reflexivity).
    exists j, node, bic, w. rewrite Z.sub_diag, Z.add_0_r.
    simpl. rewrite app_nil_r. auto.
  - destruct (Z.eq_dec br N) as [->|Hne].
    { rewrite Read_loop_stop by (rewrite Z.ltb_irrefl; reflexivity).
      exists j, node, bic, w. rewrite Z.sub_diag, Z.add_0_r.
      simpl. rewrite app_nil_r. auto. }
    assert (Hlt : br < N) by lia. specialize (Hfull Hlt).
    assert (Hn : block_position driver first (S j) <> None)
      by (apply chain; lia).
    simpl in Hn. rewrite Hj in Hn.
    destruct (next_position driver (node, bic)) as [[node' bic']|] eqn:Hnext;
      [|congruence].
    destruct (hop_reading k j node bic node' bic' Hnext)
      as [He Hhop].
    set (c := Z.min (N - br) bs).
    set (f1 := set_positionInFile (u64 (bs * Z.of_nat j + bs))
                 (set_blockInChunk bic'
                    (set_current node'
                       (reading driver d first size FileFlagsNone k j node bic)))).
    assert (Hcs : chunk_size N br f1 = c /\ chunk_flags N br f1 = f1).
    { unfold chunk_size, chunk_flags, f1, reading. fsimpl. unwrap.
      destruct (Z.ltb_spec (bs * Z.of_nat j + bs) size); [|lia].
      unwrap. rewrite Z.gtb_ltb.
      destruct (Z.ltb_spec (size - (bs * Z.of_nat j + bs))
                  (Z.min (N - br) bs)); [lia|]. auto. }
    destruct Hcs as [Hc1 Hc2].
    rewrite (Read_loop_next driver fuel N br dest _ w
               (read_block d (u32 (node + bic)) bs)).
    + rewrite Hhop. cbn [fst snd]. fold f1. rewrite Hc1, Hc2.
      assert (Hc : 1 <= c <= bs) by (unfold c; lia).
      assert (Ef : set_positionInBuffer c (after_load (disk w) f1)
                   = reading driver d first size FileFlagsNone (k + c) (S j)
                       node' bic').
      { unfold after_load, f1, reading. fsimpl. unwrap. rewrite Hd.
        f_equal; lia. }
      assert (Eb : firstn (Z.to_nat c)
                     (read_block (disk w)
                        (u32 (_current f1 + _blockInChunk f1)) (_blockSize f1))
                   = file_bytes driver d first k (Z.to_nat c)).
      { unfold f1, reading. fsimpl. rewrite Hd.
        change (read_block d (u32 (node' + bic')) bs)
          with (skipn (Z.to_nat 0) (read_block d (u32 (node' + bic')) bs)).
        rewrite (file_bytes_block (S j) node' bic' 0 c);
          [f_equal; lia|simpl; now rewrite Hj|lia|lia|lia]. }
      rewrite Ef, Eb, (u32_small (br + c)) by lia.
      match goal with
      | |- context [Read_loop _ _ _ _ _ _ ?w1] =>
          destruct (IH N (br + c)
                      (dest ++ file_bytes driver d first k (Z.to_nat c))
                      (k + c) (S j) node' bic' w1)
            as (j2 & node2 & bic2 & w2 & E & Hj2 & Hk2 & Hd2)
      end; try lia; try exact Hd.
      * simpl. now rewrite Hj.
      * exists j2, node2, bic2, w2. rewrite E.
        replace (k + c + (N - (br + c))) with (k + (N - br)) in * by lia.
        split; [|auto]. f_equal. f_equal. rewrite <- app_assoc. f_equal.
        replace (Z.to_nat (N - br))
          with (Z.to_nat c + Z.to_nat (N - (br + c)))%nat by lia.
        rewrite file_bytes_app. f_equal. f_equal. lia.
    + reflexivity.
    + unfold reading. fsimpl. apply zlength_read_block. lia.
    + reflexivity.
    + unfold reading. fsimpl. unwrap.
      destruct (Z.ltb_spec br N); [|lia].
      destruct (Z.ltb_spec (k - bs * Z.of_nat j + bs * Z.of_nat j) size);
        [reflexivity|lia].
    + unfold reading. fsimpl. eapply block_position_nonnull; eassumption.
    + exact He.
    + now rewrite Hhop.
    + rewrite Hhop. cbn [fst snd]. fold f1. rewrite Hc1.
      unfold f1, reading. fsimpl. lia.
Qed.

Lemma at_position_unique k f f' :
  at_position driver d first size k f ->
  at_position driver d first size k f' -> f = f'.
Proof.
  intros (j & node & bic & Hj & Hk & ->) (j' & node' & bic' & Hj' & Hk' & ->).
  assert (j = j') by nia. subst j'.
  rewrite Hj in Hj'. injection Hj' as <- <-. reflexivity.
Qed.

(** The bulk [Read] of [N] bytes at offset [k], when [N] bytes remain. *)
Lemma Read_bulk_seq fuel N k f w :
  at_position driver d first size k f ->
  0 <= N -> k + N <= size -> (Z.to_nat N <= fuel)%nat -> disk w = d ->
  exists f' w',
    Read_bulk driver fuel N f w
    = Done (N, file_bytes driver d first k (Z.to_nat N)) f' w'
    /\ at_position driver d first size (k + N) f'
    /\ disk w' = d.
Proof.
  intros (j & node & bic & Hj & Hk & ->) HN Hsz Hfuel Hd.
  pose proof (u32_range (IFsDriver.BlockSize driver)) as Hbs.
  set (fl := if size <=? k then FileFlagEof else FileFlagsNone).
  set (r := k - bs * Z.of_nat j).
  set (n0 := Z.min N (bs - r)).
  assert (Hn0 : 0 <= n0 <= bs - r) by (unfold n0, r; lia).
  set (f0 := reading driver d first size fl k j node bic).
  assert (Hbuf : _blockBuffer f0 = Some (read_block d (u32 (node + bic)) bs))
    by reflexivity.
  assert (Hpib : _positionInBuffer f0 = r) by reflexivity.
  assert (Hpif : _positionInFile f0 = bs * Z.of_nat j) by reflexivity.
  assert (Hsize : _size f0 = size) by reflexivity.
  assert (Hbsz : _blockSize f0 = bs) by reflexivity.
  unfold Read_bulk. cbv zeta. rewrite bind_get. cbv beta.
  rewrite Hbuf, !Hpib, !Hpif, !Hsize, !Hbsz.
  rewrite (u32_small N) by lia.
  replace (u64 (r + bs * Z.of_nat j)) with k by (unfold r; unwrap; lia).
  replace (if k <? size then u32 (size - k) else 0) with (size - k).
  2:{ destruct (Z.ltb_spec k size); unwrap; lia. }
  rewrite (u32_small (bs - r)) by (unfold r; lia). fold n0.
  rewrite Z.gtb_ltb. destruct (Z.ltb_spec (size - k) n0); [lia|].
  erewrite bind_Done; cycle 1.
  { apply (buffer_copy_eq r n0 f0 w (read_block d (u32 (node + bic)) bs));
      [reflexivity|unfold r; lia|lia|].
    rewrite zlength_read_block; unfold r; lia. }
  rewrite bind_modify.
  rewrite (u32_small (r + n0)) by (unfold r; lia).
  replace (set_positionInBuffer (r + n0) f0)
    with (reading driver d first size fl (k + n0) j node bic)
    by (unfold f0, reading; fsimpl; f_equal; unfold r; lia).
  rewrite (file_bytes_block j node bic r n0 Hj)
    by (unfold r; lia).
  replace (bs * Z.of_nat j + r) with k by (unfold r; lia).
  destruct (Z.eq_dec n0 N) as [Hfull|Hpart].
  - (* everything came out of the buffered block *)
    rewrite Hfull.
    rewrite (bind_Done _ _ _ _ _ _ _
               (Read_loop_stop driver fuel N N _ _ _
                  ltac:(rewrite Z.ltb_irrefl; reflexivity))).
    rewrite bind_get. cbv beta. unfold reading at 1 2 3. fsimpl.
    replace (u64 (k + N - bs * Z.of_nat j + bs * Z.of_nat j)) with (k + N)
      by (unwrap; lia).
    rewrite Z.geb_leb.
    destruct (Z.leb_spec size (k + N)) as [Hend|Hend]; mstep;
      (eexists _, _; split; [reflexivity|split; [|exact Hd]]);
      exists j, node, bic; (split; [assumption|]);
      (split; [unfold r in *; lia|]);
      unfold fl; destruct (Z.leb_spec size (k + N)), (Z.leb_spec size k);
      try lia; reflexivity.
  - (* the loop fetches the rest *)
    assert (Hfl : fl = FileFlagsNone).
    { unfold fl. destruct (Z.leb_spec size k); [lia|reflexivity]. }
    rewrite Hfl.
    destruct (Read_loop_seq fuel N n0
                (file_bytes driver d first k (Z.to_nat n0))
                (k + n0) j node bic w Hj)
      as (j2 & node2 & bic2 & w2 & E & Hj2 & Hk2 & Hd2);
      try (unfold n0, r in *; lia); try exact Hd.
    rewrite (bind_Done _ _ _ _ _ _ _ E).
    rewrite bind_get. cbv beta. unfold reading at 1 2 3. fsimpl.
    replace (k + n0 + (N - n0)) with (k + N) in * by lia.
    replace (u64 (k + N - bs * Z.of_nat j2 + bs * Z.of_nat j2)) with (k + N)
      by (unwrap; lia).
    rewrite Z.geb_leb.
    replace (file_bytes driver d first k (Z.to_nat n0)
             ++ file_bytes driver d first (k + n0) (Z.to_nat (N - n0)))
      with (file_bytes driver d first k (Z.to_nat N)).
    2:{ replace (Z.to_nat N) with (Z.to_nat n0 + Z.to_nat (N - n0))%nat
          by lia.
        rewrite file_bytes_app. do 2 f_equal. lia. }
    destruct (Z.leb_spec size (k + N)) as [Hend|Hend]; mstep;
      (eexists _, _; split; [reflexivity|split; [|exact Hd2]]);
      exists j2, node2, bic2; (split; [assumption|]); (split; [lia|]);
      destruct (Z.leb_spec size (k + N)); try lia; reflexivity.
Qed.

Lemma u64_minus_one_plus z : 1 <= z <= 2 ^ 32 -> u64 (z + u64 (-1)) = z - 1.
Proof.
  intros H. change (u64 (-1)) with (2 ^ 64 - 1). unfold u64, wrap.
  replace (z + (2 ^ 64 - 1)) with (z - 1 + 1 * 2 ^ 64) by lia.
  rewrite Z.mod_add by lia. apply Z.mod_small. lia.
Qed.

(** The bulk [Read] on the freshly constructed file, which needs a file of
    at least one block. *)
Lemma Read_bulk_fresh fuel N g w :
  0 <= N -> N <= size -> bs <= size -> (Z.to_nat N <= fuel)%nat ->
  disk w = d ->
  exists f' w',
    Read_bulk driver fuel N (fresh driver first size g) w
    = Done (N, file_bytes driver d first 0 (Z.to_nat N)) f' w'
    /\ (if N =? 0 then f' = fresh driver first size g
        else at_position driver d first size N f')
    /\ disk w' = d.
Proof.
  intros HN Hsz Hblock Hfuel Hd.
  pose proof (u32_range (IFsDriver.BlockSize driver)) as Hbs.
  set (f0 := fresh driver first size g).
  set (buf0 := map (fun i => g (Z.of_nat i)) (seq 0 (Z.to_nat bs))).
  assert (Hbuf : _blockBuffer f0 = Some buf0) by reflexivity.
  assert (Hlen : zlength buf0 = bs).
  { unfold zlength, buf0. rewrite length_map, length_seq. lia. }
  assert (Hpib : _positionInBuffer f0 = bs) by reflexivity.
  assert (Hpif : _positionInFile f0 = u64 (-1)) by reflexivity.
  assert (Hsize : _size f0 = size) by reflexivity.
  assert (Hbsz : _blockSize f0 = bs) by reflexivity.
  assert (Hcur : _current f0 = 0) by reflexivity.
  assert (Hpos : u64 (bs + u64 (-1)) = bs - 1)
    by (apply u64_minus_one_plus; lia).
  unfold Read_bulk. cbv zeta. rewrite bind_get. cbv beta.
  rewrite Hbuf, !Hpib, !Hpif, !Hsize, !Hbsz, Hpos.
  rewrite (u32_small N) by lia.
  destruct (Z.ltb_spec (bs - 1) size); [|lia].
  rewrite Z.sub_diag, (u32_small 0) by lia.
  rewrite (Z.min_r N 0) by lia.
  rewrite Z.gtb_ltb.
  destruct (Z.ltb_spec (u32 (size - (bs - 1))) 0);
    [pose proof (u32_range (size - (bs - 1))); lia|].
  erewrite bind_Done; cycle 1.
  { apply (buffer_copy_eq bs 0 f0 w buf0); [assumption|lia|lia|lia]. }
  rewrite bind_modify. rewrite Z.add_0_r, (u32_small bs) by lia.
  change (firstn (Z.to_nat 0) (skipn (Z.to_nat bs) buf0)) with (@nil Z).
  replace (set_positionInBuffer bs f0) with f0 by reflexivity.
  destruct (Z.eq_dec N 0) as [->|Hne].
  - rewrite (bind_Done _ _ _ _ _ _ _
               (Read_loop_stop driver fuel 0 0 [] f0 w eq_refl)).
    rewrite bind_get. cbv beta. rewrite Hpib, Hpif, Hsize, Hpos, Z.geb_leb.
    destruct (Z.leb_spec size (bs - 1)); [lia|]. mstep.
    exists f0, w. simpl. auto.
  - destruct fuel as [|fuel]; [lia|].
    set (c := Z.min N bs).
    set (f1 := set_positionInFile 0 (set_current (_firstNode f0) f0)).
    assert (Hcs : chunk_size N 0 f1 = c /\ chunk_flags N 0 f1 = f1).
    { unfold chunk_size, chunk_flags, f1, f0, fresh. fsimpl.
      destruct (Z.ltb_spec 0 size); [|lia].
      rewrite !Z.sub_0_r, (u32_small size) by lia.
      rewrite Z.gtb_ltb. fold c.
      destruct (Z.ltb_spec size c); [unfold c in *; lia|]. auto. }
    destruct Hcs as [Hc1 Hc2].
    assert (Hc : 1 <= c <= bs) by (unfold c; lia).
    assert (Hloop : exists j2 node2 bic2 w2,
               Read_loop driver (S fuel) N 0 [] f0 w
               = Done (N, file_bytes driver d first 0 (Z.to_nat N))
                   (reading driver d first size FileFlagsNone N j2 node2 bic2)
                   w2
               /\ block_position driver first j2 = Some (node2, bic2)
               /\ bs * Z.of_nat j2 < N <= bs * Z.of_nat j2 + bs
               /\ disk w2 = d).
    { rewrite (Read_loop_first driver fuel N 0 [] f0 w buf0); try assumption;
        try reflexivity.
      - fold f1. rewrite Hc1, Hc2.
        assert (Ef : set_positionInBuffer c (after_load (disk w) f1)
                     = reading driver d first size FileFlagsNone c O first 0).
        { unfold after_load, f1, f0, fresh, reading. fsimpl. rewrite Hd.
          f_equal; lia. }
        assert (Eb : firstn (Z.to_nat c)
                       (read_block (disk w)
                          (u32 (_current f1 + _blockInChunk f1))
                          (_blockSize f1))
                     = file_bytes driver d first 0 (Z.to_nat c)).
        { unfold f1, f0, fresh. fsimpl. rewrite Hd.
          change (read_block d (u32 (first + 0)) bs)
            with (skipn (Z.to_nat 0) (read_block d (u32 (first + 0)) bs)).
          rewrite (file_bytes_block O first 0 0 c);
            [f_equal; lia|reflexivity|lia|lia|lia]. }
        rewrite Ef, Eb, Z.add_0_l, (u32_small c) by lia. simpl app.
        match goal with
        | |- context [Read_loop _ _ _ _ _ _ ?w1] =>
            destruct (Read_loop_seq fuel N c
                        (file_bytes driver d first 0 (Z.to_nat c))
                        c O first 0 w1 eq_refl)
              as (j2 & node2 & bic2 & w2 & E & Hj2 & Hk2 & Hd2)
        end; try lia; try exact Hd.
        replace (c + (N - c)) with N in * by lia.
        exists j2, node2, bic2, w2. rewrite E.
        split; [|auto]. do 2 f_equal.
        replace (Z.to_nat N) with (Z.to_nat c + Z.to_nat (N - c))%nat by lia.
        rewrite file_bytes_app. do 2 f_equal. lia.
      - rewrite Hpib, Hpif, Hsize, Hpos.
        destruct (Z.ltb_spec 0 N); [|lia].
        destruct (Z.ltb_spec (bs - 1) size); [reflexivity|lia].
      - fold f1. rewrite Hc1. unfold f1, f0, fresh. fsimpl. lia. }
    destruct Hloop as (j2 & node2 & bic2 & w2 & E & Hj2 & Hk2 & Hd2).
    rewrite (bind_Done _ _ _ _ _ _ _ E).
    rewrite bind_get. cbv beta. unfold reading at 1 2 3. fsimpl.
    replace (u64 (N - bs * Z.of_nat j2 + bs * Z.of_nat j2)) with N
      by (unwrap; lia).
    rewrite Z.geb_leb.
    destruct (Z.eqb_spec N 0); [lia|].
    destruct (Z.leb_spec size N) as [Hend|Hend]; mstep;
      (eexists _, _; split; [reflexivity|split; [|exact Hd2]]);
      exists j2, node2, bic2; (split; [assumption|]); (split; [lia|]);
      destruct (Z.leb_spec size N); try lia; reflexivity.
Qed.

End Chain.

Lemma File_node_fresh driver node size g w :
  u32 node <> 0 ->
  File_node driver node size (Some g) w
  = Done tt (fresh driver (u32 node) (u64 size) g) (more w [CallGetParameter]).
Proof.
  intros Hn. unfold File_node. mred. simpl.
  destruct (Z.eqb_spec (u32 node) 0); [congruence|]. reflexivity.
Qed.

Lemma reads_snoc driver n : forall f w l f1 w1 b f2 w2,
  reads driver n f w = Done l f1 w1 ->
  Read driver f1 w1 = Done b f2 w2 ->
  reads driver (S n) f w = Done (l ++ [b]) f2 w2.
Proof.
  induction n as [|n IH]; intros f w l f1 w1 b f2 w2 H1 H2.
  - simpl in H1. injection H1 as <- <- <-. simpl. unfold bind, ret.
    now rewrite H2.
  - change (reads driver (S n) f w)
      with (bind (Read driver) (fun b => bind (reads driver n) (fun l => ret (b :: l))) f w) in H1.
    unfold bind at 1 in H1.
    destruct (Read driver f w) as [b0 f0 w0| |] eqn:E0; try discriminate.
    unfold bind at 1 in H1.
    destruct (reads driver n f0 w0) as [l0 f3 w3| |] eqn:E1; try discriminate.
    injection H1 as <- <- <-.
    specialize (IH f0 w0 l0 f3 w3 b f2 w2 E1 H2).
    change (reads driver (S (S n)) f w)
      with (bind (Read driver) (fun b => bind (reads driver (S n)) (fun l => ret (b :: l))) f w).
    unfold bind at 1. rewrite E0. unfold bind at 1. rewrite IH. reflexivity.
Qed.

Lemma at_position_eof driver d first size k f :
  at_position driver d first size k f ->
  EndOfFile f = (size <=? k).
Proof.
  intros (j & node & bic & _ & _ & ->). unfold EndOfFile, reading. simpl.
  now destruct (size <=? k).
Qed.

Lemma Demo_covers size : size <= 24 -> covers Demo.driver 10 size.
Proof.
  intros H j Hj. change (u32 (IFsDriver.BlockSize Demo.driver)) with 4 in Hj.
  do 6 (destruct j as [|j]; [discriminate|]). lia.
Qed.

(** ** A file without a buffer *)

Section Dead.
Variable driver : IFsDriver.t.
Variable Find : string -> Z * Z.

Lemma dead_Read f w : dead f -> Read driver f w = Done 0 f w.
Proof.
  intros [Hb Hp]. unfold Read. mred. rewrite Hb, Z.geb_leb.
  destruct (Z.leb_spec (_blockSize f) (_positionInBuffer f));
    [reflexivity|lia].
Qed.

Lemma dead_Read_bulk f w fuel n :
  _blockBuffer f = None -> Read_bulk driver fuel n f w = Done (0, []) f w.
Proof. intros Hb. unfold Read_bulk. mred. now rewrite Hb. Qed.

Lemma dead_Seek f w fuel pos :
  _blockBuffer f = None -> Seek driver fuel pos f w = Done false f w.
Proof. intros Hb. unfold Seek. mred. now rewrite Hb. Qed.

Lemma dead_Flush f w :
  _blockBuffer f = None -> Flush driver f w = Done tt f w.
Proof. intros Hb. unfold Flush. mred. now rewrite Hb. Qed.

Lemma dead_run_ops ops f w :
  dead f -> forallb (fun o => negb (is_open o)) ops = true ->
  run_ops driver Find ops f w = Done tt f w.
Proof.
  intros D. induction ops as [|o ops IH]; simpl; intros H; [reflexivity|].
  apply andb_true_iff in H. destruct H as [Ho H].
  unfold bind at 1.
  assert (E : run_op driver Find o f w = Done tt f w).
  { destruct o; try discriminate; simpl; unfold bind.
    - now rewrite dead_Read.
    - rewrite dead_Read_bulk; [reflexivity|apply D].
    - now rewrite Write_nothing.
    - rewrite dead_Seek; [reflexivity|apply D].
    - apply dead_Flush, D. }
  rewrite E. now apply IH.
Qed.

End Dead.

(** ** The buffer's bounds *)

Section Sound.
Variable driver : IFsDriver.t.
Variable Find : string -> Z * Z.
Hypothesis block_size_positive : 0 < u32 (IFsDriver.BlockSize driver).
Local Abbreviation bs := (u32 (IFsDriver.BlockSize driver)).

Lemma sound_ext f f' :
  sound driver f ->
  _blockSize f' = _blockSize f ->
  _positionInBuffer f' = _positionInBuffer f ->
  _positionInFile f' = _positionInFile f ->
  _blockBuffer f' = _blockBuffer f ->
  sound driver f'.
Proof.
  unfold sound. intros H -> -> -> ->. exact H.
Qed.

Lemma sound_set_positionInBuffer f v :
  sound driver f -> _blockBuffer f <> None -> 0 <= v <= _blockSize f ->
  sound driver (set_positionInBuffer v f).
Proof.
  unfold sound. fsimpl. intros (H1 & H2 & H3 & H4 & H5) Hb Hv.
  destruct (_blockBuffer f); [|congruence]. auto.
Qed.

Lemma sound_set_positionInFile f v :
  sound driver f -> 0 <= v < 2 ^ 64 ->
  sound driver (set_positionInFile v f).
Proof.
  unfold sound. fsimpl. intros (H1 & H2 & H3 & H4 & H5) Hv. auto.
Qed.

Lemma sound_after_take f :
  sound driver f -> _blockBuffer f <> None ->
  _positionInBuffer f < _blockSize f ->
  sound driver (after_take f) /\ _blockBuffer (after_take f) <> None.
Proof.
  intros H Hb Hlt.
  pose proof (u32_range (IFsDriver.BlockSize driver)) as Hr.
  assert (Hs := H). destruct Hs as (H1 & H2 & H3 & H4 & H5).
  unfold after_take. cbv zeta.
  rewrite (u32_small (_positionInBuffer f + 1)) by lia.
  destruct (_ >=? _); fsimpl; (split; [|exact Hb]).
  - apply (sound_ext (set_positionInBuffer (_positionInBuffer f + 1) f));
      try reflexivity.
    apply sound_set_positionInBuffer; [assumption|assumption|lia].
  - apply sound_set_positionInBuffer; [assumption|assumption|lia].
Qed.

Lemma sound_after_load d f :
  sound driver f -> _blockBuffer f <> None ->
  sound driver (after_load d f).
Proof.
  unfold sound, after_load. fsimpl. intros (H1 & H2 & H3 & H4 & H5) Hb.
  repeat split; try assumption; try lia.
  apply zlength_read_block. lia.
Qed.

Lemma sound_hop f :
  sound driver f -> sound driver (snd (hop driver f)).
Proof.
  intros H. pose proof (u64_range (_positionInFile f + _blockSize f)).
  unfold hop. cbv zeta.
  destruct (_ >=? _); [destruct (IFsDriver.EndOfFile driver _)|]; fsimpl.
  - eapply sound_ext; [exact H|reflexivity..].
  - apply (sound_ext
             (set_positionInFile (u64 (_positionInFile f + _blockSize f)) f));
      try reflexivity.
    now apply sound_set_positionInFile.
  - apply (sound_ext
             (set_positionInFile (u64 (_positionInFile f + _blockSize f)) f));
      try reflexivity.
    now apply sound_set_positionInFile.
Qed.

Lemma Read_safe : safe (sound driver) (Read driver).
Proof.
  intros f w H. assert (Hs := H). destruct Hs as (H1 & H2 & H3 & H4 & H5).
  destruct (_blockBuffer f) as [buf|] eqn:Hb.
  - destruct (Z.eq_dec (_positionInBuffer f) (_blockSize f)) as [Hfull|Hpart].
    + destruct (Z.eq_dec (_current f) 0) as [Hc|Hc].
      * rewrite (Read_first driver f w buf); try assumption.
        apply sound_after_take.
        -- apply sound_set_positionInBuffer; [| |unfold after_load; fsimpl; lia].
           ++ apply sound_after_load; [|fsimpl; congruence].
              apply sound_set_positionInFile; [|lia].
              eapply sound_ext; [exact H|reflexivity..].
           ++ discriminate.
        -- discriminate.
        -- fsimpl. unfold after_load. fsimpl. lia.
      * destruct (IFsDriver.EndOfFile driver (_current f)) eqn:He.
        -- rewrite Read_at_end; try assumption; [congruence|lia].
        -- rewrite (Read_next driver f w buf); try assumption.
           pose proof (sound_hop f H) as Hh.
           destruct (hop_frame driver f) as (Fb & Fs & _ & Fp & _).
           cbv zeta. destruct (fst (hop driver f)); [|exact Hh].
           apply sound_after_take.
           ++ apply sound_set_positionInBuffer; [| |unfold after_load; fsimpl; lia].
              ** apply sound_after_load; [assumption|congruence].
              ** discriminate.
           ++ discriminate.
           ++ fsimpl. unfold after_load. fsimpl. lia.
    + rewrite (Read_buffered driver f w buf); try assumption; [|lia].
      apply sound_after_take; [assumption|congruence|lia].
  - rewrite dead_Read; [assumption|]. split; [assumption|lia].
Qed.

Lemma Read_loop_at_end fuel N br dest f w :
  (br <? N) && (u64 (_positionInBuffer f + _positionInFile f) <? _size f)
  = true ->
  _current f <> 0 ->
  IFsDriver.EndOfFile driver (_current f) = true ->
  Read_loop driver (S fuel) N br dest f w
  = Done (br, dest) (or_flags FileFlagEof f)
      (more w [CallEndOfFile (_current f)]).
Proof.
  intros Hcond Hc He.
  cbn [Read_loop]. rewrite bind_get. cbv beta. rewrite Hcond.
  destruct (Z.eqb_spec (_current f) 0); [congruence|].
  unfold drv_EndOfFile. mstep. rewrite He. mstep. reflexivity.
Qed.

Lemma Read_loop_chain_end fuel N br dest f w :
  (br <? N) && (u64 (_positionInBuffer f + _positionInFile f) <? _size f)
  = true ->
  _current f <> 0 ->
  IFsDriver.EndOfFile driver (_current f) = false ->
  _blockBuffer f <> None ->
  fst (hop driver f) = false ->
  Read_loop driver (S fuel) N br dest f w
  = Done (br, dest) (snd (hop driver f))
      (more w (CallEndOfFile (_current f) :: hop_calls driver f)).
Proof.
  intros Hcond Hc He Hb Hgo.
  cbn [Read_loop]. rewrite bind_get. cbv beta. rewrite Hcond.
  destruct (Z.eqb_spec (_current f) 0); [congruence|].
  unfold drv_EndOfFile. mstep. rewrite He.
  rewrite (bind_Done _ _ _ _ _ _ _ (next_block_eq driver f _ Hc He Hb)).
  rewrite Hgo. unfold ret. f_equal.
  unfold more. simpl. now rewrite <- app_assoc.
Qed.

Lemma chunk_size_range N br f1 :
  br < N -> 0 < _blockSize f1 ->
  0 <= chunk_size N br f1 <= _blockSize f1.
Proof.
  intros Hlt Hbs. unfold chunk_size. cbv zeta.
  set (a := if _positionInFile f1 <? _size f1
            then u32 (_size f1 - _positionInFile f1) else 0).
  assert (Ha : 0 <= a).
  { unfold a. destruct (_ <? _); [apply u32_range|lia]. }
  rewrite Z.gtb_ltb.
  destruct (Z.ltb_spec a (Z.min (N - br) (_blockSize f1))); lia.
Qed.

Lemma chunk_flags_frame N br f1 :
  sound driver f1 ->
  sound driver (chunk_flags N br f1)
  /\ _blockBuffer (chunk_flags N br f1) = _blockBuffer f1
  /\ _blockSize (chunk_flags N br f1) = _blockSize f1.
Proof.
  intros H. unfold chunk_flags. cbv zeta. destruct (_ >? _); fsimpl.
  - split; [|split; reflexivity].
    eapply sound_ext; [exact H|reflexivity..].
  - auto.
Qed.

Lemma Read_loop_safe fuel : forall N br dest f w,
  sound driver f -> _blockBuffer f <> None ->
  match Read_loop driver fuel N br dest f w with
  | Done _ f' _ => sound driver f' /\ _blockBuffer f' <> None
  | OutOfBounds => False
  | OutOfFuel => True
  end.
Proof.
  induction fuel as [|fuel IH]; intros N br dest f w H Hb;
    destruct ((br <? N)
              && (u64 (_positionInBuffer f + _positionInFile f) <? _size f))
      eqn:Hcond;
    try (rewrite Read_loop_stop by assumption; auto).
  - cbn [Read_loop]. rewrite bind_get. cbv beta. rewrite Hcond. exact I.
  - assert (Hs := H). destruct Hs as (H1 & H2 & H3 & H4 & H5).
    destruct (_blockBuffer f) as [buf|] eqn:Hbuf; [|congruence].
    assert (Hlt : br < N).
    { apply andb_true_iff in Hcond. destruct Hcond as [Hc _].
      now apply Z.ltb_lt. }
    destruct (Z.eq_dec (_current f) 0) as [Hc|Hc].
    + set (f1 := set_positionInFile 0 (set_current (_firstNode f) f)).
      assert (Hf1 : sound driver f1).
      { apply sound_set_positionInFile; [|lia].
        eapply sound_ext; [exact H|reflexivity..]. }
      destruct (chunk_flags_frame N br f1 Hf1) as (Hcf & Hcb & Hcs).
      rewrite (Read_loop_first driver fuel N br dest f w buf);
        try assumption; fold f1.
      * apply IH.
        -- apply sound_set_positionInBuffer.
           ++ apply sound_after_load; [assumption|].
              rewrite Hcb. unfold f1. fsimpl. congruence.
           ++ discriminate.
           ++ unfold after_load. fsimpl. rewrite Hcs.
              apply chunk_size_range; [assumption|]. unfold f1. fsimpl. lia.
        -- discriminate.
      * apply chunk_size_range; [assumption|]. unfold f1. fsimpl. lia.
    + destruct (IFsDriver.EndOfFile driver (_current f)) eqn:He.
      * rewrite Read_loop_at_end by assumption. split.
        -- eapply sound_ext; [exact H|reflexivity..].
        -- fsimpl. congruence.
      * pose proof (sound_hop f H) as Hh.
        destruct (hop_frame driver f) as (Fb & Fs & _ & Fp & _).
        destruct (fst (hop driver f)) eqn:Hgo.
        -- destruct (chunk_flags_frame N br _ Hh) as (Hcf & Hcb & Hcs).
           rewrite (Read_loop_next driver fuel N br dest f w buf);
             try assumption.
           ++ apply IH.
              ** apply sound_set_positionInBuffer.
                 --- apply sound_after_load; [assumption|]. congruence.
                 --- discriminate.
                 --- unfold after_load. fsimpl. rewrite Hcs.
                     apply chunk_size_range; [assumption|]. lia.
              ** discriminate.
           ++ apply chunk_size_range; [assumption|]. lia.
        -- rewrite Read_loop_chain_end; try assumption; [|congruence].
           split; [assumption|congruence].
Qed.

Lemma Read_bulk_safe fuel N : safe (sound driver) (Read_bulk driver fuel N).
Proof.
  intros f w H. assert (Hs := H). destruct Hs as (H1 & H2 & H3 & H4 & H5).
  pose proof (u32_range (IFsDriver.BlockSize driver)) as Hr.
  unfold Read_bulk. cbv zeta. rewrite bind_get. cbv beta.
  destruct (_blockBuffer f) as [buf|] eqn:Hb; [|exact H].
  match goal with
  | |- context [buffer_copy _ ?n] => remember n as n0 eqn:En0
  end.
  assert (Hn0 : 0 <= n0 <= _blockSize f - _positionInBuffer f).
  { subst n0. pose proof (u32_range N).
    rewrite (u32_small (_blockSize f - _positionInBuffer f)) by lia.
    set (a := if u64 (_positionInBuffer f + _positionInFile f) <? _size f
              then u32 (_size f
                        - u64 (_positionInBuffer f + _positionInFile f))
              else 0).
    assert (Ha : 0 <= a).
    { unfold a. destruct (_ <? _); [apply u32_range|lia]. }
    rewrite Z.gtb_ltb.
    destruct (Z.ltb_spec a
                (Z.min (u32 N) (_blockSize f - _positionInBuffer f))); lia. }
  erewrite bind_Done; cycle 1.
  { apply (buffer_copy_eq _ n0 f w buf); [assumption|lia|lia|lia]. }
  rewrite bind_modify.
  rewrite (u32_small (_positionInBuffer f + n0)) by lia.
  unfold bind at 1.
  match goal with
  | |- context [Read_loop driver fuel ?a ?b ?c ?g ?v] =>
      pose proof (Read_loop_safe fuel a b c g v) as HL;
      destruct (Read_loop driver fuel a b c g v) as [r f' w'| |]
  end; auto.
  - destruct HL as [HL _].
    + apply sound_set_positionInBuffer; [assumption|congruence|lia].
    + fsimpl. congruence.
    + rewrite bind_get. cbv beta.
      destruct (_ >=? _); mstep; [|exact HL].
      eapply sound_ext; [exact HL|reflexivity..].
  - apply HL.
    + apply sound_set_positionInBuffer; [assumption|congruence|lia].
    + fsimpl. congruence.
Qed.

Lemma Flush_sound f w :
  sound driver f -> exists w', Flush driver f w = Done tt f w'.
Proof.
  intros (Hbs & Hpos & Hpib & Hpif & Hbuf). unfold Flush. mred.
  destruct (_blockBuffer f) as [buf|] eqn:Hb; [|eauto].
  destruct (_current f =? 0); simpl; [eauto|].
  destruct (_ && _); simpl; [|eauto]. rewrite Hb.
  destruct (Z.leb_spec bs (zlength buf)); [eauto|lia].
Qed.

Lemma Seek_loop_post fuel : forall pos f w,
  sound driver f ->
  match Seek_loop driver fuel pos f w with
  | Done go f' _ =>
      sound driver f'
      /\ _blockBuffer f' = _blockBuffer f
      /\ _positionInBuffer f' = _positionInBuffer f
      /\ (go = true ->
          pos <= u64 (_positionInFile f' + _blockSize f')
          /\ (_positionInFile f' = _positionInFile f
              \/ _positionInFile f' < pos))
  | OutOfBounds => False
  | OutOfFuel => True
  end.
Proof.
  induction fuel as [|fuel IH]; intros pos f w H;
    cbn [Seek_loop]; rewrite bind_get; cbv beta; rewrite Z.gtb_ltb;
    destruct (Z.ltb_spec (u64 (_positionInFile f + _blockSize f)) pos)
      as [Hgt|Hle];
    try exact I;
    try (unfold ret; split; [exact H|]; split; [reflexivity|];
         split; [reflexivity|]; intros _; split; [lia|left; reflexivity]).
  unfold drv_EndOfFile, drv_GetBlocksPerNode, drv_GetNextChunk. mstep.
  destruct (IFsDriver.EndOfFile driver (_current f)).
  { unfold ret. split; [|split; [|split]]; auto; intros; discriminate. }
  mstep.
  assert (Hstep : forall g v,
    sound driver g -> _blockBuffer g = _blockBuffer f ->
    _positionInBuffer g = _positionInBuffer f ->
    _positionInFile g = _positionInFile f ->
    _blockSize g = _blockSize f ->
    match (e <- (call (CallEndOfFile (_current g)) ;;
                 ret (IFsDriver.EndOfFile driver (_current g))) ;;
           if e : bool then ret false
           else modify (fun f0 => set_positionInFile
                            (u64 (_positionInFile f0 + _blockSize f0)) f0) ;;
                Seek_loop driver fuel pos)%file g v
    with
    | Done go f' _ =>
        sound driver f'
        /\ _blockBuffer f' = _blockBuffer f
        /\ _positionInBuffer f' = _positionInBuffer f
        /\ (go = true ->
            pos <= u64 (_positionInFile f' + _blockSize f')
            /\ (_positionInFile f' = _positionInFile f
                \/ _positionInFile f' < pos))
    | OutOfBounds => False
    | OutOfFuel => True
    end).
  { intros g v Hg Gb Gp Gf Gs. mstep.
    destruct (IFsDriver.EndOfFile driver (_current g)).
    { unfold ret. split; [|split; [|split]]; auto; intros; discriminate. }
    mstep.
    set (g1 := set_positionInFile (u64 (_positionInFile g + _blockSize g)) g).
    assert (Hg1 : sound driver g1)
      by (apply sound_set_positionInFile; [assumption|apply u64_range]).
    specialize (IH pos g1 (more v [CallEndOfFile (_current g)]) Hg1).
    destruct (Seek_loop driver fuel pos g1 _) as [go f' w'| |]; auto.
    destruct IH as (I1 & I2 & I3 & I4).
    unfold g1 in I2, I3, I4. fsimpl_in I2. fsimpl_in I3. fsimpl_in I4.
    split; [exact I1|]. split; [congruence|]. split; [congruence|].
    intros Hgo. destruct (I4 Hgo) as [J1 J2]. split; [exact J1|].
    right. destruct J2 as [E|E]; [|exact E].
    rewrite E, Gf, Gs. exact Hgt. }
  destruct (_ >=? _).
  - mstep. apply Hstep; try reflexivity.
    eapply sound_ext; [exact H|reflexivity..].
  - mstep. apply Hstep; try reflexivity. exact H.
Qed.

Lemma seek_offset p P b :
  0 <= P < 2 ^ 64 -> 0 <= b < 2 ^ 64 -> P <= p -> p <= u64 (P + b) ->
  0 <= p - P <= b.
Proof.
  intros HP Hb Hle Hp. unfold u64, wrap in Hp.
  destruct (Z_lt_dec (P + b) (2 ^ 64)) as [Hs|Hs].
  - rewrite Z.mod_small in Hp by lia. lia.
  - replace (P + b) with (P + b - 2 ^ 64 + 1 * 2 ^ 64) in Hp by lia.
    rewrite Z.mod_add, Z.mod_small in Hp by lia. lia.
Qed.

Lemma sound_seek_done f p :
  sound driver f -> _blockBuffer f <> None ->
  _positionInFile f <= p -> p <= u64 (_positionInFile f + _blockSize f) ->
  sound driver
    (clear_flags FileFlagEof
       (set_positionInBuffer (u32 (u64 (p - _positionInFile f))) f)).
Proof.
  intros H Hb Hle Hp. assert (Hs := H).
  destruct Hs as (H1 & H2 & H3 & H4 & H5).
  pose proof (u32_range (IFsDriver.BlockSize driver)) as Hr.
  pose proof (seek_offset p (_positionInFile f) (_blockSize f)) as Ho.
  rewrite u64_small, u32_small by lia.
  apply (sound_ext
           (set_positionInBuffer (p - _positionInFile f) f));
    try reflexivity.
  apply sound_set_positionInBuffer; [assumption|assumption|lia].
Qed.

Lemma Seek_safe fuel pos : safe (sound driver) (Seek driver fuel pos).
Proof.
  intros f w H. assert (Hs := H). destruct Hs as (H1 & H2 & H3 & H4 & H5).
  pose proof (u64_range pos) as Hp.
  unfold Seek. cbv zeta. rewrite bind_get. cbv beta.
  destruct (_blockBuffer f) as [buf|] eqn:Hb; [|exact H].
  rewrite Z.geb_leb.
  destruct (Z.leb_spec (u64 (_positionInFile f + _blockSize f)) (u64 pos))
    as [Hfar|Hnear];
    destruct (Z.ltb_spec (u64 pos) (_positionInFile f)) as [Hback|Hfwd];
    cbn [orb]; mstep.
  4:{ (* inside the buffered block *)
      apply sound_seek_done; [assumption|congruence|lia|lia]. }
  all: match goal with
       | |- context [bind (Flush driver) _ ?g ?v] =>
           assert (Hg : sound driver g)
             by (first [ exact H
                       | apply sound_set_positionInFile; [|lia];
                         eapply sound_ext; [exact H|reflexivity..] ]);
           destruct (Flush_sound g v Hg) as [v' Ef];
           rewrite (bind_Done _ _ _ _ _ _ _ Ef); mstep;
           unfold bind at 1;
           pose proof (Seek_loop_post fuel (u64 pos) g v' Hg) as HL;
           destruct (Seek_loop driver fuel (u64 pos) g v') as [go f' w'| |];
             [|contradiction|exact I];
           destruct HL as (L1 & L2 & L3 & L4);
           destruct go; [|exact L1];
           destruct (L4 eq_refl) as [L5 L6];
           fsimpl_in L2; fsimpl_in L3; fsimpl_in L6
       end.
  all: cbv beta iota; mstep.
  all: assert (L7 : zlength buf = _blockSize f')
         by (destruct L1 as (K1 & _); congruence).
  all: rewrite (bind_Done _ _ _ _ _ _ _
                  (load_block_eq driver f' w' buf
                     ltac:(congruence) L7 ltac:(apply L1))).
  all: mstep.
  all: assert (La : sound driver (after_load (disk w') f'))
         by (apply sound_after_load; [assumption|congruence]).
  all: apply (sound_seek_done (after_load (disk w') f') (u64 pos) La);
         try discriminate; unfold after_load; fsimpl; try lia.
Qed.

Lemma Open_safe filePath alloc :
  safe (sound driver) (Open driver Find filePath alloc).
Proof.
  intros f w H. assert (Hs := H). destruct Hs as (H1 & H2 & H3 & H4 & H5).
  pose proof (u32_range (IFsDriver.BlockSize driver)) as Hr.
  unfold Open. mred. fsimpl.
  destruct (_blockBuffer f) as [buf|] eqn:Hb; fsimpl.
  - rewrite ?Hb.
    destruct (_ =? 0); unfold sound; fsimpl; rewrite ?Hb;
      repeat split; lia.
  - destruct (new_array alloc bs) as [buf|] eqn:Ha.
    + pose proof (new_array_length _ _ _ (proj1 Hr) Ha).
      destruct (_ =? 0); unfold sound; fsimpl;
        repeat split; lia.
    + unfold sound; fsimpl. repeat split; lia.
Qed.

Lemma Write_safe value : safe (sound driver) (Write value).
Proof. intros f w H. now rewrite Write_nothing. Qed.

Lemma Flush_safe : safe (sound driver) (Flush driver).
Proof.
  intros f w H. destruct (Flush_sound f w H) as [w' ->]. exact H.
Qed.

Lemma safe_then_ret {A} P (m : M A) :
  safe P m -> safe P (bind m (fun _ => ret tt)).
Proof.
  intros Hm f w H. specialize (Hm f w H). unfold bind.
  destruct (m f w); auto.
Qed.

Lemma run_op_safe o : safe (sound driver) (run_op driver Find o).
Proof.
  destruct o; simpl; try apply safe_then_ret;
    auto using Open_safe, Read_safe, Read_bulk_safe, Write_safe, Seek_safe,
      Flush_safe.
Qed.

Lemma run_ops_safe ops : safe (sound driver) (run_ops driver Find ops).
Proof.
  induction ops as [|o ops IH]; intros f w H; simpl; [exact H|].
  unfold bind. pose proof (run_op_safe o f w H) as Ho.
  destruct (run_op driver Find o f w); auto. now apply IH.
Qed.

Lemma construct_sound c w :
  pointer_initialised c = true ->
  match construct driver Find c w with
  | Done _ f _ => sound driver f
  | OutOfBounds => False
  | OutOfFuel => True
  end.
Proof.
  pose proof (u32_range (IFsDriver.BlockSize driver)) as Hr.
  destruct c as [|node size alloc|filePath alloc junk [mem|]];
    intros Hc; try discriminate Hc;
    cbv beta iota delta [construct File_unbound File_node File_path].
  - mred. unfold sound. fsimpl. pose proof (u64_range (-1)).
    repeat split; lia.
  - mred. fsimpl.
    destruct (new_array alloc bs) as [buf|] eqn:Ha; fsimpl.
    + pose proof (new_array_length _ _ _ (proj1 Hr) Ha).
      pose proof (u64_range (-1)).
      destruct (_ =? 0); unfold sound; fsimpl; repeat split; lia.
    + pose proof (u64_range (-1)).
      destruct (_ =? 0); unfold sound; fsimpl; repeat split; lia.
  - set (f0 := File.mk (u32 junk) 0 None FileNotExists (u64 (-1)) 0 0 0 0).
    unfold bind at 1.
    assert (Ho : forall w',
               match Open driver Find filePath alloc f0 w' with
               | Done _ f _ => sound driver f
               | OutOfBounds => False
               | OutOfFuel => True
               end).
    { intros w'. unfold Open. mred. unfold f0. fsimpl.
      pose proof (u64_range (-1)).
      destruct (new_array alloc bs) as [buf|] eqn:Ha; fsimpl.
      - pose proof (new_array_length _ _ _ (proj1 Hr) Ha).
        destruct (_ =? 0); unfold sound; fsimpl; repeat split; lia.
      - unfold sound; fsimpl. repeat split; lia. }
    specialize (Ho w).
    destruct (Open driver Find filePath alloc f0 w); auto.
Qed.

(** *** A stale buffer is never read *)

Lemma hop_set_blockBuffer b f :
  hop driver (set_blockBuffer b f)
  = (fst (hop driver f), set_blockBuffer b (snd (hop driver f))).
Proof.
  unfold hop. cbv zeta. fsimpl.
  destruct (_ >=? _); [destruct (IFsDriver.EndOfFile driver _)|];
    reflexivity.
Qed.

Lemma after_load_chunk_flags d N br b g :
  after_load d (chunk_flags N br (set_blockBuffer b g))
  = after_load d (chunk_flags N br g).
Proof.
  unfold after_load, chunk_flags. cbv zeta. fsimpl.
  destruct (_ >? _); reflexivity.
Qed.

Lemma Read_stale_independent f w buf buf' :
  sound driver f -> _blockBuffer f = Some buf ->
  zlength buf' = _blockSize f ->
  _positionInBuffer f = _blockSize f ->
  result (Read driver (set_blockBuffer (Some buf') f) w)
  = result (Read driver f w).
Proof.
  intros H Hb Hl Hp. assert (Hs := H).
  destruct Hs as (H1 & H2 & H3 & H4 & H5). rewrite Hb in H5.
  set (fb := set_blockBuffer (Some buf') f).
  destruct (Z.eq_dec (_current f) 0) as [Hc|Hc].
  - rewrite (Read_first driver fb w buf'), (Read_first driver f w buf);
      try assumption; reflexivity.
  - destruct (IFsDriver.EndOfFile driver (_current f)) eqn:He.
    + rewrite (Read_at_end driver fb w); try assumption;
        [|discriminate|unfold fb; fsimpl; lia].
      rewrite (Read_at_end driver f w); try assumption;
        [reflexivity|congruence|lia].
    + rewrite (Read_next driver fb w buf'), (Read_next driver f w buf);
        try assumption; try reflexivity.
      unfold fb. rewrite hop_set_blockBuffer. cbv zeta. cbn [fst snd].
      destruct (fst (hop driver f)); reflexivity.
Qed.

Lemma Read_loop_buffer_independent fuel N br dest f w buf buf' :
  sound driver f -> _blockBuffer f = Some buf ->
  zlength buf' = _blockSize f ->
  result (Read_loop driver fuel N br dest (set_blockBuffer (Some buf') f) w)
  = result (Read_loop driver fuel N br dest f w).
Proof.
  intros H Hb Hl. assert (Hs := H).
  destruct Hs as (H1 & H2 & H3 & H4 & H5). rewrite Hb in H5.
  set (fb := set_blockBuffer (Some buf') f).
  destruct ((br <? N)
            && (u64 (_positionInBuffer f + _positionInFile f) <? _size f))
    eqn:Hcond.
  2:{ rewrite !Read_loop_stop by assumption. reflexivity. }
  destruct fuel as [|fuel].
  { cbn [Read_loop]. rewrite !bind_get. cbv beta. unfold fb. fsimpl.
    rewrite Hcond. reflexivity. }
  assert (Hlt : br < N).
  { apply andb_true_iff in Hcond. destruct Hcond as [Hc _].
    now apply Z.ltb_lt. }
  destruct (Z.eq_dec (_current f) 0) as [Hc|Hc].
  - rewrite (Read_loop_first driver fuel N br dest fb w buf'),
      (Read_loop_first driver fuel N br dest f w buf);
      try assumption; try reflexivity.
    + unfold fb. fsimpl.
      change (File.mk (_firstNode f) (_firstNode f) (Some buf') (_flags f) 0
                (_size f) (_blockInChunk f) (_blockSize f)
                (_positionInBuffer f))
        with (set_blockBuffer (Some buf')
                (set_positionInFile 0 (set_current (_firstNode f) f))).
      rewrite after_load_chunk_flags. reflexivity.
    + apply chunk_size_range; [assumption|]. fsimpl. lia.
    + apply chunk_size_range; [assumption|]. unfold fb. fsimpl. lia.
  - destruct (IFsDriver.EndOfFile driver (_current f)) eqn:He.
    + rewrite (Read_loop_at_end fuel N br dest fb),
        (Read_loop_at_end fuel N br dest f); try assumption. reflexivity.
    + destruct (hop_frame driver f) as (Fb & Fs & _ & Fp & _).
      destruct (fst (hop driver f)) eqn:Hgo.
      * rewrite (Read_loop_next driver fuel N br dest fb w buf'),
          (Read_loop_next driver fuel N br dest f w buf);
          try assumption; try reflexivity.
        -- unfold fb. rewrite hop_set_blockBuffer. cbn [fst snd].
           rewrite after_load_chunk_flags. reflexivity.
        -- apply chunk_size_range; [assumption|]. lia.
        -- unfold fb. rewrite hop_set_blockBuffer. exact Hgo.
        -- unfold fb. rewrite hop_set_blockBuffer. cbn [fst snd].
           apply chunk_size_range; [assumption|]. fsimpl. lia.
      * rewrite (Read_loop_chain_end fuel N br dest fb),
          (Read_loop_chain_end fuel N br dest f);
          try assumption; try reflexivity; try congruence.
        -- discriminate.
        -- unfold fb. rewrite hop_set_blockBuffer. exact Hgo.
Qed.

Lemma set_positionInBuffer_same f v :
  _positionInBuffer f = v -> set_positionInBuffer v f = f.
Proof. intros <-. now destruct f. Qed.

(** At a stale cursor the bulk [Read] takes nothing from the buffer it
    finds: all it delivers comes from the loop, which loads a block before
    it copies. *)
Lemma Read_bulk_stale_result fuel N f w buf :
  sound driver f -> _blockBuffer f = Some buf ->
  _positionInBuffer f = _blockSize f ->
  result (Read_bulk driver fuel N f w)
  = result (Read_loop driver fuel (u32 N) 0 [] f w).
Proof.
  intros H Hb Hp. assert (Hs := H).
  destruct Hs as (H1 & H2 & H3 & H4 & H5). rewrite Hb in H5.
  pose proof (u32_range N) as HN.
  unfold Read_bulk. cbv zeta. rewrite bind_get. cbv beta. rewrite Hb.
  rewrite Hp, Z.sub_diag, (u32_small 0), (Z.min_r (u32 N) 0) by lia.
  set (a := if u64 (_blockSize f + _positionInFile f) <? _size f
            then u32 (_size f - u64 (_blockSize f + _positionInFile f))
            else 0).
  assert (Ha : 0 <= a).
  { unfold a. destruct (_ <? _); [apply u32_range|lia]. }
  rewrite Z.gtb_ltb. destruct (Z.ltb_spec a 0); [lia|].
  erewrite bind_Done; cycle 1.
  { apply (buffer_copy_eq (_blockSize f) 0 f w buf);
      [assumption|lia|lia|lia]. }
  rewrite bind_modify, Z.add_0_r.
  rewrite (u32_small (_blockSize f))
    by (pose proof (u32_range (IFsDriver.BlockSize driver)); lia).
  rewrite (set_positionInBuffer_same f) by assumption.
  change (firstn (Z.to_nat 0) (skipn (Z.to_nat (_blockSize f)) buf))
    with (@nil Z).
  unfold bind at 1.
  destruct (Read_loop driver fuel (u32 N) 0 [] f w) as [r f' w'| |];
    try reflexivity.
  rewrite bind_get. cbv beta. destruct (_ >=? _); mstep; reflexivity.
Qed.

Lemma Read_bulk_stale_independent fuel N f w buf buf' :
  sound driver f -> _blockBuffer f = Some buf ->
  zlength buf' = _blockSize f ->
  _positionInBuffer f = _blockSize f ->
  result (Read_bulk driver fuel N (set_blockBuffer (Some buf') f) w)
  = result (Read_bulk driver fuel N f w).
Proof.
  intros H Hb Hl Hp.
  assert (Hfb : sound driver (set_blockBuffer (Some buf') f)).
  { destruct H as (H1 & H2 & H3 & H4 & H5). unfold sound. fsimpl. auto. }
  rewrite (Read_bulk_stale_result fuel N _ w buf' Hfb eq_refl Hp).
  rewrite (Read_bulk_stale_result fuel N f w buf H Hb Hp).
  now apply (Read_loop_buffer_independent fuel (u32 N) 0 [] f w buf buf').
Qed.

End Sound.

(** ** The file never writes *)

Section Quiet.
Variable driver : IFsDriver.t.
Variable Find : string -> Z * Z.
Variable w0 : World.

Lemma Flush_quiet f w :
  quiet w0 f w ->
  exists w', Flush driver f w = Done tt f w' /\ quiet w0 f w'.
Proof.
  intros Q. unfold Flush. mred.
  assert (W : has_flag (_flags f) FileFlagWritable = false) by apply Q.
  rewrite W, andb_false_r.
  repeat case_if; eexists; (split; [reflexivity|]);
    unfold quiet in *; simpl; try rewrite writes_of_snoc by reflexivity;
    exact Q.
Qed.

Lemma keeps_Flush_quiet : keeps (quiet w0) (Flush driver).
Proof.
  intros f w Q. destruct (Flush_quiet f w Q) as [w' [-> Q']]. exact Q'.
Qed.

Lemma keeps_modify_quiet g :
  (forall f, has_flag (_flags (g f)) FileFlagWritable
             = has_flag (_flags f) FileFlagWritable) ->
  keeps (quiet w0) (modify g).
Proof.
  intros Hg f w Q. unfold modify, quiet in *. now rewrite Hg.
Qed.

Lemma keeps_call_quiet c : is_write c = false -> keeps (quiet w0) (call c).
Proof.
  intros Hc f w Q. unfold call, quiet in *. simpl.
  now rewrite writes_of_snoc.
Qed.

Lemma keeps_ReadBlock_quiet node :
  keeps (quiet w0) (drv_ReadBlock driver node).
Proof.
  intros f w Q. unfold drv_ReadBlock. repeat case_if; trivial.
  unfold quiet in *. simpl. now rewrite writes_of_snoc.
Qed.

Ltac keeps_step :=
  match goal with
  | |- keeps _ (bind _ _) => apply keeps_bind; [|intros ?]
  | |- keeps _ (ret _) => apply keeps_ret
  | |- keeps _ get => apply keeps_get
  | |- keeps _ (Flush _) => apply keeps_Flush_quiet
  | |- keeps _ (drv_ReadBlock _ _) => apply keeps_ReadBlock_quiet
  | |- keeps _ (call _) => apply keeps_call_quiet; reflexivity
  | |- keeps _ (modify _) =>
      apply keeps_modify_quiet; intros ?; simpl;
      solve [ reflexivity
            | apply has_flag_lor; reflexivity
            | apply has_flag_clear_eof; reflexivity ]
  | |- keeps _ out_of_bounds => intros ? ? ?; exact I
  | |- keeps _ (fun _ _ => OutOfFuel) => intros ? ? ?; exact I
  | |- keeps _ (if ?c then _ else _) => destruct c
  | |- keeps _ (match ?o with Some _ => _ | None => _ end) => destruct o
  end.

Lemma next_block_quiet : keeps (quiet w0) (next_block driver).
Proof.
  unfold next_block, drv_GetBlocksPerNode, drv_GetNextChunk, drv_EndOfFile.
  repeat keeps_step.
Qed.

Lemma Read_quiet : keeps (quiet w0) (Read driver).
Proof.
  unfold Read, take_byte, load_block, buffer_at, drv_EndOfFile.
  repeat (keeps_step || apply next_block_quiet).
Qed.

Lemma Read_loop_quiet fuel n k dest :
  keeps (quiet w0) (Read_loop driver fuel n k dest).
Proof.
  revert k dest. induction fuel as [|fuel IH]; intros k dest; simpl;
    unfold load_block, buffer_copy, drv_EndOfFile; cbv zeta;
    repeat (keeps_step || apply next_block_quiet).
  apply IH.
Qed.

Lemma Read_bulk_quiet fuel n : keeps (quiet w0) (Read_bulk driver fuel n).
Proof.
  unfold Read_bulk, buffer_copy; cbv zeta.
  repeat (keeps_step || apply Read_loop_quiet).
Qed.

Lemma Seek_loop_quiet fuel pos :
  keeps (quiet w0) (Seek_loop driver fuel pos).
Proof.
  induction fuel as [|fuel IH]; simpl;
    unfold drv_EndOfFile, drv_GetBlocksPerNode, drv_GetNextChunk;
    repeat keeps_step.
  apply IH.
Qed.

Lemma Seek_quiet fuel pos : keeps (quiet w0) (Seek driver fuel pos).
Proof.
  unfold Seek, load_block; cbv zeta.
  repeat (keeps_step || apply Seek_loop_quiet).
Qed.

Lemma Open_quiet p a : keeps (quiet w0) (Open driver Find p a).
Proof.
  unfold Open, drv_GetParameter; cbv zeta. repeat keeps_step.
Qed.

Lemma Write_quiet v : keeps (quiet w0) (Write v).
Proof. unfold Write. repeat keeps_step. Qed.

Lemma run_op_quiet o : keeps (quiet w0) (run_op driver Find o).
Proof.
  destruct o; simpl; repeat keeps_step;
    auto using Open_quiet, Read_quiet, Read_bulk_quiet, Write_quiet,
      Seek_quiet.
Qed.

Lemma run_ops_quiet ops : keeps (quiet w0) (run_ops driver Find ops).
Proof.
  induction ops; simpl; repeat keeps_step; auto using run_op_quiet.
Qed.

Lemma destroy_quiet : keeps (quiet w0) (destroy driver).
Proof. unfold destroy. repeat keeps_step. Qed.

Lemma construct_quiet c :
  match construct driver Find c w0 with
  | Done _ f w => quiet w0 f w
  | _ => True
  end.
Proof.
  assert (Q : forall f, has_flag (_flags f) FileFlagWritable = false ->
                        quiet w0 f w0).
  { intros f H. repeat split. exact H. }
  destruct c;
    cbv beta iota delta [construct File_unbound File_node File_path];
    (apply (keeps_from (quiet w0)); [|apply Q; reflexivity]);
    unfold drv_GetParameter;
    repeat (keeps_step || apply Open_quiet).
Qed.

End Quiet.

(** ** The statements of the specification *)

(** C1, as amended.  On a freshly constructed file of [size < 2^32] bytes
    whose chain has a block for every offset below [size], take the cursor
    state [p] single-byte [Read]s lead to, and [N] no larger than the
    [size - p] bytes that remain (with [p = 0], on a file of at least one
    block).  From that state the bulk [Read] of [N] bytes (any fuel of at
    least [N]) returns [N] and the same bytes as [N] single-byte [Read]s,
    bytes [p], ..., [p + N - 1] of the file, and both leave the same
    object. *)
Theorem bulk_read_agrees_with_reads (driver : IFsDriver.t) (node size : Z)
        (g : Z -> Z) (w : World) (p N fuel : nat) :
  0 < u32 (IFsDriver.BlockSize driver) ->
  0 < node < 2 ^ 32 ->
  0 < size < 2 ^ 32 ->
  covers driver node size ->
  Z.of_nat p + Z.of_nat N <= size ->
  (p = O -> u32 (IFsDriver.BlockSize driver) <= size) ->
  (N <= fuel)%nat ->
  exists l f w1 bytes f' w2 w3,
    and_then (File_node driver node size (Some g) w) (reads driver p)
    = Done l f w1
    /\ Read_bulk driver fuel (Z.of_nat N) f w1
       = Done (Z.of_nat N, bytes) f' w2
    /\ reads driver N f w1 = Done bytes f' w3
    /\ bytes = file_bytes driver (disk w) node (Z.of_nat p) N.
Proof.
  intros Hbs Hnode Hsize Hcov HpN Hfirst Hfuel.
  rewrite File_node_fresh by (rewrite u32_small; lia).
  rewrite u32_small, u64_small by lia. cbn [and_then].
  set (w0 := more w [CallGetParameter]).
  assert (Hd : disk w0 = disk w) by reflexivity.
  assert (Hnn : node <> 0) by lia.
  assert (Hsr : 0 <= size < 2 ^ 64) by lia.
  assert (Hss : size < 2 ^ 32) by lia.
  destruct p as [|p].
  - (* from the fresh object *)
    specialize (Hfirst eq_refl).
    edestruct (Read_bulk_fresh driver (disk w) node size)
      with (fuel := fuel) (N := Z.of_nat N) (g := g) (w := w0)
      as (f1 & w2 & E1 & Hat1 & _); try lia; try assumption.
    rewrite Nat2Z.id in E1.
    exists [], (fresh driver node size g), w0,
      (file_bytes driver (disk w) node 0 N).
    destruct N as [|N].
    + simpl in Hat1. subst f1.
      exists (fresh driver node size g), w2, w0. repeat split. exact E1.
    + destruct (reads_fresh driver (disk w) node size Hbs Hnn Hsr Hcov
                  (S N) g w0)
        as (f2 & w3 & E2 & Hat2 & _); try lia; try assumption.
      destruct (Z.eqb_spec (Z.of_nat (S N)) 0); [lia|].
      assert (Heq : f2 = f1) by (eapply at_position_unique; eassumption).
      rewrite Heq in E2.
      exists f1, w2, w3. repeat split; assumption.
  - (* from a cursor inside the file *)
    destruct (reads_fresh driver (disk w) node size Hbs Hnn Hsr Hcov
                (S p) g w0)
      as (f & w1 & E0 & Hat0 & Hd1); try lia; try assumption.
    edestruct (Read_bulk_seq driver (disk w) node size)
      with (fuel := fuel) (N := Z.of_nat N) (k := Z.of_nat (S p)) (f := f)
           (w := w1)
      as (f1 & w2 & E1 & Hat1 & _); try lia; try assumption.
    destruct (reads_seq driver (disk w) node size Hbs Hnn Hsr Hcov
                N (Z.of_nat (S p)) f w1 Hat0)
      as (f2 & w3 & E2 & Hat2 & _); try lia; try assumption.
    rewrite Nat2Z.id in E1.
    assert (Heq : f2 = f1) by (eapply at_position_unique; eassumption).
    rewrite Heq in E2.
    exists (file_bytes driver (disk w) node 0 (S p)), f, w1,
      (file_bytes driver (disk w) node (Z.of_nat (S p)) N), f1, w2, w3.
    repeat split; assumption.
Qed.

Lemma bulk_read_agrees_with_reads_witness :
  exists l f w1 bytes f' w2 w3,
    and_then (File_node Demo.driver 10 20 (Some Demo.garbage) Demo.world)
             (reads Demo.driver 6)
    = Done l f w1
    /\ Read_bulk Demo.driver 8 (Z.of_nat 8) f w1
       = Done (Z.of_nat 8, bytes) f' w2
    /\ reads Demo.driver 8 f w1 = Done bytes f' w3
    /\ bytes = file_bytes Demo.driver (disk Demo.world) 10 (Z.of_nat 6) 8.
Proof.
  apply (bulk_read_agrees_with_reads Demo.driver 10 20 Demo.garbage
           Demo.world 6 8 8).
  - reflexivity.
  - lia.
  - lia.
  - apply Demo_covers. lia.
  - lia.
  - discriminate.
  - lia.
Defined.

(** C1, as stated, fails.  On the 20-byte file with 19 bytes read, [N = 2]
    does not exceed the file size, yet the bulk [Read] delivers the one byte
    that remains while two single-byte [Read]s return two.  (And on the
    fresh 2-byte file the bulk [Read] of 2 bytes delivers nothing, where
    two single-byte [Read]s return both bytes.) *)
Lemma bulk_read_stops_at_size :
  result (and_then Demo.file20
            (bind (reads Demo.driver 19)
                  (fun _ => Read_bulk Demo.driver 2 2)))
  = Some (1, [20])
  /\ result (and_then Demo.file20
               (bind (reads Demo.driver 19) (fun _ => reads Demo.driver 2)))
     = Some [20; 21]
  /\ result (and_then Demo.file2 (Read_bulk Demo.driver 2 2)) = Some (0, [])
  /\ result (and_then Demo.file2 (reads Demo.driver 2)) = Some [1; 2].
Proof. vm_compute. repeat split. Qed.

(** C2.  On the 20-byte file (byte [k] is [k + 1]) sequential reading gives
    8 at offset 7 and 1 at offset 0.  [Seek(7)] on the fresh file walks
    [_positionInFile] to 4 without moving [_blockInChunk], loads block 0
    again, and the [Read] after it returns 4; after six bytes were read,
    [Seek(0)] rewinds [_current] and [_positionInFile] but not
    [_blockInChunk], loads block 1, and the [Read] after it returns 5. *)
Theorem Seek_then_Read_wrong_block :
  result (and_then Demo.file20 (reads Demo.driver 8))
  = Some [1; 2; 3; 4; 5; 6; 7; 8]
  /\ result (and_then Demo.file20
               (bind (Seek Demo.driver 1 7) (fun _ => Read Demo.driver)))
     = Some 4
  /\ result (and_then Demo.file20
               (bind (reads Demo.driver 6)
                     (fun _ => bind (Seek Demo.driver 0 0)
                                    (fun _ => Read Demo.driver))))
     = Some 5.
Proof. vm_compute. repeat split. Qed.

(** C3.  Whatever the state, the fuel and the target, a [Seek] that returns
    returns [false]: also when it succeeds, as on the 20-byte file, where
    [Seek(2)] loads block 0, leaves the cursor on offset 2 and still answers
    [false]. *)
Theorem Seek_never_returns_true (driver : IFsDriver.t) (fuel : nat) (pos : Z)
        (f : File.t) (w : World) :
  match Seek driver fuel pos f w with
  | Done r _ _ => r = false
  | _ => True
  end
  /\ (let o := and_then Demo.file20 (Seek Demo.driver 0 2) in
      result o = Some false
      /\ option_map (fun f' => (_blockBuffer f', _positionInFile f',
                                _positionInBuffer f')) (final_file o)
         = Some (Some [1; 2; 3; 4], 0, 2)).
Proof.
  split; [|vm_compute; split; reflexivity].
  unfold Seek. mred.
  destruct (_blockBuffer f); [|reflexivity].
  match goal with
  | |- context [match ?X with
                | Done _ _ _ => _
                | OutOfBounds => OutOfBounds
                | OutOfFuel => OutOfFuel
                end] => destruct X as [[] ? ?| |]
  end; auto.
Qed.

(** C4, as amended.  On a freshly constructed file of [size >= 1] bytes whose
    chain has a block for every offset below [size]: after [size - 1]
    single-byte [Read]s the EndOfFile flag is clear; the [Read] after them
    returns the last byte of the file, byte [size - 1], and sets EndOfFile;
    so reading exactly [size] bytes leaves EndOfFile set. *)
Theorem eof_boundary (driver : IFsDriver.t) (node size : Z) (g : Z -> Z)
        (w : World) :
  0 < u32 (IFsDriver.BlockSize driver) ->
  0 < node < 2 ^ 32 ->
  0 < size < 2 ^ 64 ->
  covers driver node size ->
  exists l f1 w1 b f2 w2,
    and_then (File_node driver node size (Some g) w)
             (reads driver (Z.to_nat (size - 1))) = Done l f1 w1
    /\ EndOfFile f1 = false
    /\ Read driver f1 w1 = Done b f2 w2
    /\ b = file_byte driver (disk w) node (size - 1)
    /\ EndOfFile f2 = true
    /\ and_then (File_node driver node size (Some g) w)
                (reads driver (Z.to_nat size)) = Done (l ++ [b]) f2 w2.
Proof.
  intros Hbs Hnode Hsize Hcov.
  rewrite File_node_fresh by (rewrite u32_small; lia).
  rewrite u32_small, u64_small by lia. cbn [and_then].
  set (w0 := more w [CallGetParameter]).
  assert (Hd : disk w0 = disk w) by reflexivity.
  assert (Hnn : node <> 0) by lia.
  assert (Hsr : 0 <= size < 2 ^ 64) by lia.
  replace (Z.to_nat size) with (S (Z.to_nat (size - 1))) by lia.
  destruct (Z.eq_dec size 1) as [->|Hne].
  - destruct (Read_fresh driver (disk w) node 1 Hbs g w0)
      as (f2 & w2 & E & Hat & _); [lia|assumption|].
    exists [], (fresh driver node 1 g), w0, (file_byte driver (disk w) node 0), f2, w2.
    simpl (Z.to_nat (1 - 1)).
    split; [reflexivity|]. split; [reflexivity|]. split; [assumption|].
    split; [reflexivity|]. split.
    + rewrite (at_position_eof _ _ _ _ _ _ Hat). reflexivity.
    + eapply reads_snoc; [reflexivity|eassumption].
  - destruct (reads_fresh driver (disk w) node size Hbs Hnn Hsr Hcov
                (Z.to_nat (size - 1)) g w0)
      as (f1 & w1 & E1 & Hat1 & Hd1); [lia|lia|assumption|].
    rewrite Z2Nat.id in Hat1 by lia.
    destruct (Read_step driver (disk w) node size Hbs Hnn Hsr Hcov
                (size - 1) f1 w1 Hat1)
      as (f2 & w2 & E2 & Hat2 & Hd2); [lia|assumption|].
    replace (size - 1 + 1) with size in Hat2 by lia.
    exists (file_bytes driver (disk w) node 0 (Z.to_nat (size - 1))), f1, w1,
      (file_byte driver (disk w) node (size - 1)), f2, w2.
    split; [assumption|]. split.
    { rewrite (at_position_eof _ _ _ _ _ _ Hat1).
      destruct (Z.leb_spec size (size - 1)); [lia|reflexivity]. }
    split; [assumption|]. split; [reflexivity|]. split.
    { rewrite (at_position_eof _ _ _ _ _ _ Hat2).
      destruct (Z.leb_spec size size); [reflexivity|lia]. }
    eapply reads_snoc; eassumption.
Qed.

Lemma eof_boundary_witness :
  exists l f1 w1 b f2 w2,
    and_then (File_node Demo.driver 10 20 (Some Demo.garbage) Demo.world)
             (reads Demo.driver (Z.to_nat (20 - 1))) = Done l f1 w1
    /\ EndOfFile f1 = false
    /\ Read Demo.driver f1 w1 = Done b f2 w2
    /\ b = file_byte Demo.driver (disk Demo.world) 10 (20 - 1)
    /\ EndOfFile f2 = true
    /\ and_then (File_node Demo.driver 10 20 (Some Demo.garbage) Demo.world)
                (reads Demo.driver (Z.to_nat 20)) = Done (l ++ [b]) f2 w2.
Proof.
  apply (eof_boundary Demo.driver 10 20 Demo.garbage Demo.world).
  - reflexivity.
  - lia.
  - lia.
  - apply Demo_covers. lia.
Defined.

(** C4, as stated, fails on the 2-byte file (bytes 1, 2; the block holds
    1, 2, 3, 4): after [size - 1 = 1] byte the further [Read] returns 2, and
    after [size = 2] bytes a further [Read] returns 3; neither returns 0. *)
Lemma further_Read_is_not_zero :
  result (and_then Demo.file2
            (bind (reads Demo.driver 1) (fun _ => Read Demo.driver)))
  = Some 2
  /\ result (and_then Demo.file2
               (bind (reads Demo.driver 2) (fun _ => Read Demo.driver)))
     = Some 3.
Proof. vm_compute. split; reflexivity. Qed.

(** C5.  [Open] on an object without a buffer, when the allocation fails:
    it returns [false] after the one [GetParameter] query, [EndOfFile()] is
    true and the OutOfMemory flag is set; from then on a single-byte [Read]
    returns 0 and a bulk [Read] returns 0 bytes, and they, [Seek], [Write]
    and [Flush] in any order leave the object and the world — so also the
    record of driver calls — exactly as they were. *)
Theorem Open_out_of_memory (driver : IFsDriver.t) (Find : string -> Z * Z)
    (filePath : string) (f : File.t) (w : World) :
  _blockBuffer f = None ->
  exists f',
    Open driver Find filePath None f w
    = Done false f' (log w CallGetParameter)
    /\ EndOfFile f' = true
    /\ has_flag (_flags f') FileOutOufMem = true
    /\ (forall w1, Read driver f' w1 = Done 0 f' w1)
    /\ (forall w1 fuel n,
          Read_bulk driver fuel n f' w1 = Done (0, []) f' w1)
    /\ (forall ops w1, forallb (fun o => negb (is_open o)) ops = true ->
          run_ops driver Find ops f' w1 = Done tt f' w1).
Proof.
  intros Hb. unfold Open. mred. simpl. rewrite Hb. simpl.
  eexists. split; [reflexivity|].
  assert (D : dead (or_flags (Z.lor FileOutOufMem FileFlagEof)
            (set_positionInBuffer (u32 (IFsDriver.BlockSize driver))
               (set_blockBuffer None
                  (set_blockSize (u32 (IFsDriver.BlockSize driver)) f))))).
  { split; simpl; [reflexivity|lia]. }
  split; [|split; [|split; [|split]]].
  - unfold EndOfFile. simpl. now apply has_flag_lor_set.
  - simpl. now apply has_flag_lor_set.
  - intros. now apply dead_Read.
  - intros. apply dead_Read_bulk, D.
  - intros. now apply dead_run_ops.
Qed.

Lemma Open_out_of_memory_witness :
  _blockBuffer Demo.unbound = None
  /\ exists f',
      Open Demo.driver Demo.Find "data.bin" None Demo.unbound Demo.world
      = Done false f' (log Demo.world CallGetParameter)
      /\ EndOfFile f' = true
      /\ has_flag (_flags f') FileOutOufMem = true
      /\ (forall w1, Read Demo.driver f' w1 = Done 0 f' w1)
      /\ (forall w1 fuel n,
            Read_bulk Demo.driver fuel n f' w1 = Done (0, []) f' w1)
      /\ (forall ops w1, forallb (fun o => negb (is_open o)) ops = true ->
            run_ops Demo.driver Demo.Find ops f' w1 = Done tt f' w1).
Proof.
  split; [reflexivity|].
  apply (Open_out_of_memory Demo.driver Demo.Find "data.bin" Demo.unbound
           Demo.world).
  reflexivity.
Defined.



(** C7, as amended.  With a buffer allocated and the block range
    [[_positionInFile, _positionInFile + _blockSize)] representable, a [Seek]
    to a target inside that range makes no driver call and leaves the world
    as it is; in the object it sets [_positionInBuffer] to the target's
    offset in the block and clears the EndOfFile flag, nothing else. *)
Theorem Seek_within_block (driver : IFsDriver.t) (fuel : nat) (f : File.t)
        (w : World) (pos : Z) (buf : list Z) :
  _blockBuffer f = Some buf ->
  0 <= _positionInFile f ->
  _positionInFile f + _blockSize f < 2 ^ 64 ->
  _blockSize f <= 2 ^ 32 ->
  _positionInFile f <= pos < _positionInFile f + _blockSize f ->
  Seek driver fuel pos f w
  = Done false
      (clear_flags FileFlagEof
         (set_positionInBuffer (pos - _positionInFile f) f)) w.
Proof.
  intros Hb H0 H1 H2 H3. unfold Seek. mred. rewrite Hb.
  unfold u64, u32.
  rewrite (wrap_small 64 pos) by lia.
  rewrite (wrap_small 64 (_ + _)) by lia.
  rewrite Z.geb_leb.
  destruct (Z.leb_spec (_positionInFile f + _blockSize f) pos); [lia|].
  destruct (Z.ltb_spec pos (_positionInFile f)); [lia|]. simpl.
  rewrite (wrap_small 64) by lia. rewrite (wrap_small 32) by lia.
  reflexivity.
Qed.

Lemma Seek_within_block_witness :
  Seek Demo.driver 0 7 Demo.mid_block Demo.world
  = Done false
      (clear_flags FileFlagEof (set_positionInBuffer 3 Demo.mid_block))
      Demo.world.
Proof.
  apply (Seek_within_block Demo.driver 0 Demo.mid_block Demo.world 7
           [5; 6; 7; 8]);
    simpl; try reflexivity; lia.
Defined.

(** C7, as stated, fails: after the 20-byte file was read to its end the
    EndOfFile flag is set and block [[16, 20)] is buffered; [Seek(17)] stays
    inside that block, and changes the flags as well. *)
Lemma Seek_within_block_clears_eof :
  let before := and_then Demo.file20 (reads Demo.driver 20) in
  let after :=
    and_then Demo.file20
      (bind (reads Demo.driver 20) (fun _ => Seek Demo.driver 0 17)) in
  option_map (fun f => (_positionInFile f, _blockSize f, _flags f))
             (final_file before) = Some (16, 4, 1)
  /\ option_map (fun f => (_positionInFile f, _blockSize f, _flags f))
                (final_file after) = Some (16, 4, 0)
  /\ final_calls after = final_calls before.
Proof. vm_compute. repeat split. Qed.

(** C8.  On the 2-byte file a third single-byte [Read] moves the position to
    3, and so does [Seek(3)]: nothing in either looks at [_size]. *)
Theorem position_exceeds_size :
  option_map (fun f => (_positionInFile f + _positionInBuffer f, _size f))
             (final_file (and_then Demo.file2 (reads Demo.driver 3)))
  = Some (3, 2)
  /\ option_map (fun f => (_positionInFile f + _positionInBuffer f, _size f))
                (final_file (and_then Demo.file2 (Seek Demo.driver 0 3)))
     = Some (3, 2).
Proof. vm_compute. repeat split. Qed.

(** C9, as stated, fails.  Behind a driver whose block size is zero the
    buffer has no byte, and the first [Read] of a bound file indexes it at
    0.  And [File(driver, path)] built over memory that does not read as a
    null pointer keeps that pointer, through which the first [Read] has the
    driver fill a block. *)
Lemma Read_out_of_bounds :
  and_then
    (construct Demo.blockless Demo.Find
       (NewNode 10 20 (Some Demo.garbage)) Demo.world)
    (run_ops Demo.blockless Demo.Find [OpRead]) = OutOfBounds
  /\ and_then
       (construct Demo.driver Demo.Find
          (NewPath "data.bin" (Some Demo.garbage) 0 (Some [])) Demo.world)
       (run_ops Demo.driver Demo.Find [OpRead]) = OutOfBounds.
Proof. split; reflexivity. Qed.

(** C9, as amended.  With a driver whose block size is not zero, and a
    constructor that leaves the buffer pointer null or allocated: after the
    constructor and any sequence of [Open], [Read], bulk [Read], [Write],
    [Seek] and [Flush], no access to the block buffer was out of its bounds,
    [_positionInBuffer] is at most [_blockSize] and the buffer holds
    [_blockSize] bytes, so every index used was below [_blockSize].  And
    where [_positionInBuffer] equals [_blockSize], what the single-byte and
    the bulk [Read] return does not depend on what the buffer holds: a byte
    they deliver was loaded by a [ReadBlock] of that same call. *)
Theorem buffer_accesses_in_bounds (driver : IFsDriver.t)
        (Find : string -> Z * Z) (c : Ctor) (ops : list Op) (w : World)
        (f : File.t) (w1 : World) (buf buf' : list Z) (fuel : nat) (N : Z) :
  0 < u32 (IFsDriver.BlockSize driver) ->
  pointer_initialised c = true ->
  sound driver f ->
  _blockBuffer f = Some buf ->
  zlength buf' = _blockSize f ->
  _positionInBuffer f = _blockSize f ->
  match and_then (construct driver Find c w) (run_ops driver Find ops) with
  | Done _ f' _ =>
      0 <= _positionInBuffer f' <= _blockSize f'
      /\ match _blockBuffer f' with
         | Some b => zlength b = _blockSize f'
         | None => True
         end
  | OutOfBounds => False
  | OutOfFuel => True
  end
  /\ result (Read driver (set_blockBuffer (Some buf') f) w1)
     = result (Read driver f w1)
  /\ result (Read_bulk driver fuel N (set_blockBuffer (Some buf') f) w1)
     = result (Read_bulk driver fuel N f w1).
Proof.
  intros Hbs Hi H Hb Hl Hp. split; [|split].
  - pose proof (construct_sound driver Find Hbs c w Hi) as Hc.
    destruct (construct driver Find c w) as [[] f0 w0| |]; cbn [and_then];
      try contradiction; try exact I.
    pose proof (run_ops_safe driver Find Hbs ops f0 w0 Hc) as Hr.
    destruct (run_ops driver Find ops f0 w0) as [[] f' w'| |]; auto.
    destruct Hr as (R1 & R2 & R3 & R4 & R5). split; [assumption|].
    destruct (_blockBuffer f'); auto.
  - eapply Read_stale_independent; eassumption.
  - eapply Read_bulk_stale_independent; eassumption.
Qed.

Lemma buffer_accesses_in_bounds_witness :
  match and_then
          (construct Demo.driver Demo.Find
             (NewPath "data.bin" (Some Demo.garbage) 0 None) Demo.world)
          (run_ops Demo.driver Demo.Find
             [OpRead; OpSeek 8 7; OpReadBulk 8 8; OpFlush])
  with
  | Done _ f' _ =>
      0 <= _positionInBuffer f' <= _blockSize f'
      /\ match _blockBuffer f' with
         | Some b => zlength b = _blockSize f'
         | None => True
         end
  | OutOfBounds => False
  | OutOfFuel => True
  end
  /\ result (Read Demo.driver
               (set_blockBuffer (Some [1; 2; 3; 4])
                  (fresh Demo.driver 10 20 Demo.garbage)) Demo.world)
     = result (Read Demo.driver (fresh Demo.driver 10 20 Demo.garbage)
                 Demo.world)
  /\ result (Read_bulk Demo.driver 4 6
               (set_blockBuffer (Some [1; 2; 3; 4])
                  (fresh Demo.driver 10 20 Demo.garbage)) Demo.world)
     = result (Read_bulk Demo.driver 4 6
                 (fresh Demo.driver 10 20 Demo.garbage) Demo.world).
Proof.
  apply (buffer_accesses_in_bounds Demo.driver Demo.Find
           (NewPath "data.bin" (Some Demo.garbage) 0 None)
           [OpRead; OpSeek 8 7; OpReadBulk 8 8; OpFlush] Demo.world
           (fresh Demo.driver 10 20 Demo.garbage) Demo.world
           [170; 170; 170; 170] [1; 2; 3; 4] 4 6).
  - reflexivity.
  - reflexivity.
  - unfold sound. repeat split; try reflexivity; vm_compute; discriminate.
  - reflexivity.
  - reflexivity.
  - reflexivity.
Defined.

(** C10.  Whatever constructor builds the file and whatever calls follow
    ([Open], [Read], bulk [Read], [Write], [Seek], [Flush]), with or without
    the destructor at the end, the record of driver calls holds no new
    [WriteBlock], storage is what it was, and the Writable flag is clear;
    [Write] returns [false] on every input and changes nothing. *)
Theorem File_never_writes (driver : IFsDriver.t) (Find : string -> Z * Z)
        (c : Ctor) (ops : list Op) (w : World) :
  match and_then (construct driver Find c w) (run_ops driver Find ops) with
  | Done _ f' w' =>
      has_flag (_flags f') FileFlagWritable = false
      /\ disk w' = disk w
      /\ writes_of (calls w') = writes_of (calls w)
  | _ => True
  end
  /\ match and_then (construct driver Find c w)
                    (bind (run_ops driver Find ops) (fun _ => destroy driver))
     with
     | Done _ f' w' =>
         disk w' = disk w /\ writes_of (calls w') = writes_of (calls w)
     | _ => True
     end
  /\ forall value f1 w1, Write value f1 w1 = Done false f1 w1.
Proof.
  pose proof (construct_quiet driver Find w c) as Q.
  destruct (construct driver Find c w) as [[] f0 w1| |]; cbn [and_then];
    try (split; [exact I|split; [exact I|apply Write_nothing]]).
  split; [|split]; [| |apply Write_nothing].
  - exact (run_ops_quiet driver Find w ops f0 w1 Q).
  - assert (K : keeps (quiet w)
                  (bind (run_ops driver Find ops) (fun _ => destroy driver))).
    { apply keeps_bind; [apply run_ops_quiet|intros _; apply destroy_quiet]. }
    specialize (K f0 w1 Q).
    destruct (bind _ _ f0 w1); trivial. destruct K as [_ K]. exact K.
Qed.

(** ** Further properties of the reader *)

(** *** Reading never writes *)

Section Unwritten.
Variable driver : IFsDriver.t.
Variable w0 : World.

Lemma keeps_modify_unwritten g : keeps (unwritten w0) (modify g).
Proof. intros f w U. exact U. Qed.

Lemma keeps_call_unwritten c :
  is_write c = false -> keeps (unwritten w0) (call c).
Proof.
  intros Hc f w U. unfold call, unwritten in *. simpl.
  now rewrite writes_of_snoc.
Qed.

Lemma keeps_ReadBlock_unwritten node :
  keeps (unwritten w0) (drv_ReadBlock driver node).
Proof.
  intros f w U. unfold drv_ReadBlock. repeat case_if; trivial.
  unfold unwritten in *. simpl. now rewrite writes_of_snoc.
Qed.

Ltac unwritten_step :=
  match goal with
  | |- keeps _ (bind _ _) => apply keeps_bind; [|intros ?]
  | |- keeps _ (ret _) => apply keeps_ret
  | |- keeps _ get => apply keeps_get
  | |- keeps _ (drv_ReadBlock _ _) => apply keeps_ReadBlock_unwritten
  | |- keeps _ (call _) => apply keeps_call_unwritten; reflexivity
  | |- keeps _ (modify _) => apply keeps_modify_unwritten
  | |- keeps _ out_of_bounds => intros ? ? ?; exact I
  | |- keeps _ (fun _ _ => OutOfFuel) => intros ? ? ?; exact I
  | |- keeps _ (if ?c then _ else _) => destruct c
  | |- keeps _ (match ?o with Some _ => _ | None => _ end) => destruct o
  end.

(** Where the driver does not report the current node as the end of the
    chain, [Flush] writes nothing, whatever the flags. *)
Lemma Flush_off_tail f w :
  IFsDriver.EndOfFile driver (_current f) = false ->
  unwritten w0 f w ->
  exists w', Flush driver f w = Done tt f w' /\ unwritten w0 f w'.
Proof.
  intros He U. unfold Flush. mred. rewrite He. cbn [andb].
  repeat case_if; eexists; (split; [reflexivity|]);
    unfold unwritten in *; simpl; try rewrite writes_of_snoc by reflexivity;
    exact U.
Qed.

Lemma next_block_unwritten f w :
  IFsDriver.EndOfFile driver (_current f) = false ->
  unwritten w0 f w ->
  match next_block driver f w with
  | Done _ f' w' => unwritten w0 f' w'
  | _ => True
  end.
Proof.
  intros He U. unfold next_block.
  destruct (Flush_off_tail f w He U) as (w' & E & U').
  rewrite (bind_Done _ _ _ _ _ _ _ E).
  apply keeps_from; [|exact U'].
  unfold drv_GetBlocksPerNode, drv_GetNextChunk, drv_EndOfFile.
  repeat unwritten_step.
Qed.

Lemma take_byte_unwritten : keeps (unwritten w0) take_byte.
Proof. unfold take_byte, buffer_at. repeat unwritten_step. Qed.

Lemma Read_unwritten : keeps (unwritten w0) (Read driver).
Proof.
  intros f w U. unfold Read. rewrite bind_get. cbv beta.
  destruct (_ >=? _); [|now apply take_byte_unwritten].
  destruct (_blockBuffer f); [|exact U].
  unfold bind at 1.
  assert (G : match (if _current f =? 0
                     then bind (modify (set_current (_firstNode f)))
                            (fun _ => bind (modify (set_positionInFile 0))
                                        (fun _ => ret true))
                     else bind (drv_EndOfFile driver (_current f))
                            (fun e : bool =>
                               if e then ret false else next_block driver))
                      f w with
              | Done _ f' w' => unwritten w0 f' w'
              | _ => True
              end).
  { destruct (_ =? 0); [exact U|].
    unfold drv_EndOfFile. mstep.
    destruct (IFsDriver.EndOfFile driver (_current f)) eqn:He.
    - apply (keeps_call_unwritten (CallEndOfFile (_current f)) eq_refl f w U).
    - apply next_block_unwritten; [exact He|].
      apply (keeps_call_unwritten (CallEndOfFile (_current f)) eq_refl f w U). }
  match type of G with
  | match ?X with _ => _ end => destruct X as [go f1 w1| |]
  end; trivial.
  apply keeps_from; [|exact G].
  unfold load_block. repeat (unwritten_step || apply take_byte_unwritten).
Qed.

Lemma Read_loop_unwritten fuel : forall N br dest,
  keeps (unwritten w0) (Read_loop driver fuel N br dest).
Proof.
  induction fuel as [|fuel IH]; intros N br dest f w U;
    cbn [Read_loop]; rewrite bind_get; cbv beta;
    destruct (_ && _); try exact U; try exact I.
  unfold bind at 1.
  assert (G : match (if _current f =? 0
                     then bind (modify (set_current (_firstNode f)))
                            (fun _ => bind (modify (set_positionInFile 0))
                                        (fun _ => ret true))
                     else bind (drv_EndOfFile driver (_current f))
                            (fun e : bool =>
                               if e
                               then bind (modify (or_flags FileFlagEof))
                                      (fun _ => ret false)
                               else next_block driver))
                      f w with
              | Done _ f' w' => unwritten w0 f' w'
              | _ => True
              end).
  { destruct (_ =? 0); [exact U|].
    unfold drv_EndOfFile. mstep.
    destruct (IFsDriver.EndOfFile driver (_current f)) eqn:He.
    - apply (keeps_call_unwritten (CallEndOfFile (_current f)) eq_refl f w U).
    - apply next_block_unwritten; [exact He|].
      apply (keeps_call_unwritten (CallEndOfFile (_current f)) eq_refl f w U). }
  match type of G with
  | match ?X with _ => _ end => destruct X as [go f1 w1| |]
  end; trivial.
  apply keeps_from; [|exact G].
  unfold load_block, buffer_copy. cbv zeta.
  repeat unwritten_step; apply IH.
Qed.

Lemma Read_bulk_unwritten fuel N :
  keeps (unwritten w0) (Read_bulk driver fuel N).
Proof.
  unfold Read_bulk, buffer_copy; cbv zeta.
  repeat (unwritten_step || apply Read_loop_unwritten).
Qed.

End Unwritten.

(** X1.  Neither [Read] writes the buffer back, whatever the flags say: the
    [Flush] they call before the buffer is repointed runs only after the
    driver denied that the current node ends the chain, and [Flush] writes
    only where the driver affirms it.  So on every object, a dirty and
    writable one included, a single-byte or a bulk [Read] leaves storage and
    the record of [WriteBlock] calls as they were. *)
Theorem Read_never_writes_back (driver : IFsDriver.t) (fuel : nat) (N : Z)
        (f : File.t) (w : World) :
  match Read driver f w with
  | Done _ _ w' =>
      disk w' = disk w /\ writes_of (calls w') = writes_of (calls w)
  | _ => True
  end
  /\ match Read_bulk driver fuel N f w with
     | Done _ _ w' =>
         disk w' = disk w /\ writes_of (calls w') = writes_of (calls w)
     | _ => True
     end.
Proof.
  split.
  - apply (Read_unwritten driver w f w). split; reflexivity.
  - apply (Read_bulk_unwritten driver w fuel N f w). split; reflexivity.
Qed.

(** *** Reading to the end of the file *)

Lemma at_position_total driver d first size k f :
  at_position driver d first size k f ->
  _positionInFile f + _positionInBuffer f = k
  /\ _positionInFile f
     = u32 (IFsDriver.BlockSize driver)
       * ((k - 1) / u32 (IFsDriver.BlockSize driver))
  /\ _size f = size.
Proof.
  intros (j & node & bic & _ & Hk & ->). unfold reading. fsimpl.
  split; [lia|]. split; [|reflexivity].
  f_equal.
  apply Z.div_unique_pos
    with (r := k - 1 - u32 (IFsDriver.BlockSize driver) * Z.of_nat j); lia.
Qed.

(** An offset lies in one block only. *)
Lemma block_index_unique b (j j' : nat) k :
  0 < b ->
  b * Z.of_nat j < k <= b * Z.of_nat j + b ->
  b * Z.of_nat j' < k <= b * Z.of_nat j' + b ->
  j = j'.
Proof.
  intros Hb Hj Hj'. apply Nat2Z.inj.
  transitivity ((k - 1) / b).
  - apply Z.div_unique_pos with (r := k - 1 - b * Z.of_nat j); lia.
  - symmetry.
    apply Z.div_unique_pos with (r := k - 1 - b * Z.of_nat j'); lia.
Qed.

(** The object [p] single-byte [Read]s leave on a fresh file. *)
Lemma reads_from_fresh driver node size g w (p : nat) :
  0 < u32 (IFsDriver.BlockSize driver) ->
  0 < node < 2 ^ 32 ->
  0 <= size < 2 ^ 64 ->
  covers driver node size ->
  Z.of_nat p <= size ->
  exists f w1,
    and_then (File_node driver node size (Some g) w) (reads driver p)
    = Done (file_bytes driver (disk w) node 0 p) f w1
    /\ (if Z.of_nat p =? 0 then f = fresh driver node size g
        else at_position driver (disk w) node size (Z.of_nat p) f)
    /\ disk w1 = disk w.
Proof.
  intros Hbs Hnode Hsize Hcov Hp.
  rewrite File_node_fresh by (rewrite u32_small; lia).
  rewrite u32_small, u64_small by lia. cbn [and_then].
  destruct p as [|p].
  - eexists _, _. split; [reflexivity|]. split; reflexivity.
  - destruct (reads_fresh driver (disk w) node size Hbs ltac:(lia) Hsize Hcov
                (S p) g (more w [CallGetParameter]))
      as (f & w1 & E & Hat & Hd); [lia|lia|reflexivity|].
    exists f, w1. split; [exact E|]. split; [|exact Hd].
    destruct (Z.eqb_spec (Z.of_nat (S p)) 0); [lia|exact Hat].
Qed.

(** The bulk [Read] of [N] of the bytes that remain, from either kind of
    object. *)
Lemma Read_bulk_from driver d node size g k f w fuel N :
  0 < u32 (IFsDriver.BlockSize driver) ->
  node <> 0 ->
  0 <= size < 2 ^ 32 ->
  covers driver node size ->
  (if k =? 0 then f = fresh driver node size g
   else at_position driver d node size k f) ->
  0 <= k -> 0 <= N -> k + N <= size ->
  (k = 0 -> u32 (IFsDriver.BlockSize driver) <= size) ->
  (Z.to_nat N <= fuel)%nat -> disk w = d ->
  exists f' w',
    Read_bulk driver fuel N f w
    = Done (N, file_bytes driver d node k (Z.to_nat N)) f' w'
    /\ (if k + N =? 0 then f' = fresh driver node size g
        else at_position driver d node size (k + N) f')
    /\ disk w' = d.
Proof.
  intros Hbs Hnode Hsize Hcov Hf Hk HN Hle Hfirst Hfuel Hd.
  destruct (Z.eqb_spec k 0) as [->|Hk0].
  - subst f. rewrite Z.add_0_l.
    eapply Read_bulk_fresh; try eassumption; try lia; now apply Hfirst.
  - destruct (Z.eqb_spec (k + N) 0); [lia|].
    eapply Read_bulk_seq; try eassumption; lia.
Qed.

Section Clip.
Variable driver : IFsDriver.t.
Variable d : Z -> Z -> Z.
Variables first size : Z.
Local Abbreviation bs := (u32 (IFsDriver.BlockSize driver)).
Hypothesis bs_pos : 0 < bs.
Hypothesis first_nonnull : first <> 0.
Hypothesis size_range : 0 <= size < 2 ^ 32.
Hypothesis chain : covers driver first size.

(** The loop of the bulk [Read] when more is asked for than the file still
    holds: it delivers what remains and stops at [size]. *)
Lemma Read_loop_clip fuel : forall N br dest k j node bic w,
  block_position driver first j = Some (node, bic) ->
  k = bs * Z.of_nat j + bs ->
  0 <= br -> N < 2 ^ 32 -> k < size -> size - k < N - br ->
  (Z.to_nat (size - k) <= fuel)%nat ->
  disk w = d ->
  exists fl j' node' bic' w',
    Read_loop driver fuel N br dest
      (reading driver d first size FileFlagsNone k j node bic) w
    = Done (br + (size - k),
            dest ++ file_bytes driver d first k (Z.to_nat (size - k)))
        (reading driver d first size fl size j' node' bic') w'
    /\ (fl = FileFlagsNone \/ fl = FileFlagEof)
    /\ block_position driver first j' = Some (node', bic')
    /\ bs * Z.of_nat j' < size <= bs * Z.of_nat j' + bs
    /\ disk w' = d.
Proof.
  pose proof (u32_range (IFsDriver.BlockSize driver)) as Hbs.
  induction fuel as [|fuel IH];
    intros N br dest k j node bic w Hj Hk Hbr HN Hlt Hmore Hfuel Hd;
    [lia|].
  assert (Hn : block_position driver first (S j) <> None)
    by (apply chain; lia).
  simpl in Hn. rewrite Hj in Hn.
  destruct (next_position driver (node, bic)) as [[node' bic']|] eqn:Hnext;
    [|congruence].
  destruct (hop_reading driver d first size k j node bic node' bic' Hnext)
    as [He Hhop].
  set (c := Z.min bs (size - k)).
  set (f1 := set_positionInFile (u64 (bs * Z.of_nat j + bs))
               (set_blockInChunk bic'
                  (set_current node'
                     (reading driver d first size FileFlagsNone k j node bic)))).
  assert (Hcs : chunk_size N br f1 = c
                /\ chunk_flags N br f1
                   = (if bs >? size - k then or_flags FileFlagEof f1 else f1)).
  { unfold chunk_size, chunk_flags, f1, reading. fsimpl. unwrap.
    destruct (Z.ltb_spec (bs * Z.of_nat j + bs) size); [|lia].
    unwrap. rewrite !Z.gtb_ltb. subst k.
    destruct (Z.ltb_spec (size - (bs * Z.of_nat j + bs))
                (Z.min (N - br) bs));
      destruct (Z.ltb_spec (size - (bs * Z.of_nat j + bs)) bs);
      try lia; (split; [unfold c; lia|reflexivity]). }
  destruct Hcs as [Hc1 Hc2].
  assert (Hc : 1 <= c <= bs) by (unfold c; lia).
  rewrite (Read_loop_next driver fuel N br dest _ w
             (read_block d (u32 (node + bic)) bs)).
  - rewrite Hhop. cbn [fst snd]. fold f1. rewrite Hc1, Hc2.
    set (fl := if bs >? size - k then FileFlagEof else FileFlagsNone).
    assert (Ef : set_positionInBuffer c
                   (after_load (disk w)
                      (if bs >? size - k then or_flags FileFlagEof f1 else f1))
                 = reading driver d first size fl (k + c) (S j) node' bic').
    { unfold fl. destruct (bs >? size - k);
        unfold after_load, f1, reading; fsimpl; unwrap; rewrite Hd;
        f_equal; lia. }
    assert (Eb : firstn (Z.to_nat c)
                   (read_block (disk w)
                      (u32 (_current f1 + _blockInChunk f1)) (_blockSize f1))
                 = file_bytes driver d first k (Z.to_nat c)).
    { unfold f1, reading. fsimpl. rewrite Hd.
      change (read_block d (u32 (node' + bic')) bs)
        with (skipn (Z.to_nat 0) (read_block d (u32 (node' + bic')) bs)).
      rewrite (file_bytes_block driver d first bs_pos (S j) node' bic' 0 c);
        [f_equal; lia|simpl; now rewrite Hj|lia|lia|lia]. }
    rewrite Ef, Eb, (u32_small (br + c)) by lia.
    destruct (Z.eq_dec (k + c) size) as [Hend|Hgo].
    + (* the file ends in this block *)
      rewrite Read_loop_stop.
      * exists fl, (S j), node', bic'. eexists. rewrite Hend.
        replace c with (size - k) by lia.
        split; [reflexivity|]. split.
        { unfold fl. destruct (bs >? size - k); auto. }
        split; [simpl; now rewrite Hj|]. split; [lia|]. exact Hd.
      * unfold reading. fsimpl. unwrap.
        replace (k + c - bs * Z.of_nat (S j) + bs * Z.of_nat (S j))
          with size by lia.
        rewrite Z.ltb_irrefl. apply andb_false_r.
    + (* a full block, and more to come *)
      assert (Hcb : c = bs) by (unfold c in *; lia).
      assert (Hfl : fl = FileFlagsNone).
      { unfold fl. rewrite Z.gtb_ltb.
        destruct (Z.ltb_spec (size - k) bs); [lia|reflexivity]. }
      rewrite Hfl.
      match goal with
      | |- context [Read_loop _ _ _ _ _ _ ?w1] =>
          destruct (IH N (br + c)
                      (dest ++ file_bytes driver d first k (Z.to_nat c))
                      (k + c) (S j) node' bic' w1)
            as (fl2 & j2 & node2 & bic2 & w2 & E & Hfl2 & Hj2 & Hk2 & Hd2)
      end; try lia; try exact Hd.
      * simpl. now rewrite Hj.
      * exists fl2, j2, node2, bic2, w2. rewrite E.
        split; [|auto]. f_equal. f_equal; [lia|].
        rewrite <- app_assoc. f_equal.
        replace (Z.to_nat (size - k))
          with (Z.to_nat c + Z.to_nat (size - (k + c)))%nat by lia.
        rewrite file_bytes_app. f_equal. f_equal. lia.
  - reflexivity.
  - unfold reading. fsimpl. apply zlength_read_block. lia.
  - reflexivity.
  - unfold reading. fsimpl. unwrap.
    destruct (Z.ltb_spec br N); [|lia].
    destruct (Z.ltb_spec (k - bs * Z.of_nat j + bs * Z.of_nat j) size);
      [reflexivity|lia].
  - unfold reading. fsimpl.
    eapply block_position_nonnull; eassumption.
  - exact He.
  - now rewrite Hhop.
  - rewrite Hhop. cbn [fst snd]. fold f1. rewrite Hc1.
    unfold f1, reading. fsimpl. lia.
Qed.

(** The bulk [Read] at offset [k] when more is asked for than remains. *)
Lemma Read_bulk_clip fuel N k f w :
  at_position driver d first size k f ->
  k <= size -> size - k < N < 2 ^ 32 ->
  (Z.to_nat (size - k) <= fuel)%nat -> disk w = d ->
  exists f' w',
    Read_bulk driver fuel N f w
    = Done (size - k, file_bytes driver d first k (Z.to_nat (size - k))) f' w'
    /\ at_position driver d first size size f'
    /\ disk w' = d.
Proof.
  intros (j & node & bic & Hj & Hk & ->) Hle HN Hfuel Hd.
  pose proof (u32_range (IFsDriver.BlockSize driver)) as Hbs.
  set (fl := if size <=? k then FileFlagEof else FileFlagsNone).
  set (r := k - bs * Z.of_nat j).
  set (n0 := Z.min (bs - r) (size - k)).
  assert (Hn0 : 0 <= n0 <= bs - r) by (unfold n0, r; lia).
  set (f0 := reading driver d first size fl k j node bic).
  assert (Hbuf : _blockBuffer f0 = Some (read_block d (u32 (node + bic)) bs))
    by reflexivity.
  assert (Hpib : _positionInBuffer f0 = r) by reflexivity.
  assert (Hpif : _positionInFile f0 = bs * Z.of_nat j) by reflexivity.
  assert (Hsize : _size f0 = size) by reflexivity.
  assert (Hbsz : _blockSize f0 = bs) by reflexivity.
  unfold Read_bulk. cbv zeta. rewrite bind_get. cbv beta.
  rewrite Hbuf, !Hpib, !Hpif, !Hsize, !Hbsz.
  rewrite (u32_small N) by lia.
  replace (u64 (r + bs * Z.of_nat j)) with k by (unfold r; unwrap; lia).
  replace (if k <? size then u32 (size - k) else 0) with (size - k).
  2:{ destruct (Z.ltb_spec k size); unwrap; lia. }
  rewrite (u32_small (bs - r)) by (unfold r; lia).
  replace (if Z.min N (bs - r) >? size - k then size - k
           else Z.min N (bs - r)) with n0.
  2:{ rewrite Z.gtb_ltb.
      destruct (Z.ltb_spec (size - k) (Z.min N (bs - r))); unfold n0; lia. }
  erewrite bind_Done; cycle 1.
  { apply (buffer_copy_eq r n0 f0 w (read_block d (u32 (node + bic)) bs));
      [reflexivity|unfold r; lia|lia|].
    rewrite zlength_read_block; unfold r; lia. }
  rewrite bind_modify.
  rewrite (u32_small (r + n0)) by (unfold r; lia).
  replace (set_positionInBuffer (r + n0) f0)
    with (reading driver d first size fl (k + n0) j node bic)
    by (unfold f0, reading; fsimpl; f_equal; unfold r; lia).
  rewrite (file_bytes_block driver d first bs_pos j node bic r n0 Hj)
    by (unfold r; lia).
  replace (bs * Z.of_nat j + r) with k by (unfold r; lia).
  destruct (Z.eq_dec (k + n0) size) as [Hend|Hmore].
  - (* what remains is in the buffered block *)
    erewrite bind_Done; cycle 1.
    { apply Read_loop_stop. unfold reading. fsimpl.
      replace (u64 (k + n0 - bs * Z.of_nat j + bs * Z.of_nat j)) with size
        by (unwrap; lia).
      rewrite Z.ltb_irrefl. apply andb_false_r. }
    rewrite bind_get. cbv beta. unfold reading at 1 2 3. fsimpl.
    replace (u64 (k + n0 - bs * Z.of_nat j + bs * Z.of_nat j)) with size
      by (unwrap; lia).
    rewrite Z.geb_leb, Z.leb_refl. mstep.
    replace n0 with (size - k) by lia.
    eexists _, _. split; [reflexivity|]. split; [|exact Hd].
    exists j, node, bic. split; [assumption|]. split; [lia|].
    rewrite Z.leb_refl. unfold reading, fl. fsimpl.
    destruct (size <=? k); f_equal; lia.
  - (* the loop fetches the rest *)
    assert (Hfl : fl = FileFlagsNone).
    { unfold fl. destruct (Z.leb_spec size k); [lia|reflexivity]. }
    rewrite Hfl.
    assert (Hn0' : n0 = bs - r) by (unfold n0 in *; lia).
    destruct (Read_loop_clip fuel N n0
                (file_bytes driver d first k (Z.to_nat n0))
                (k + n0) j node bic w Hj)
      as (fl2 & j2 & node2 & bic2 & w2 & E & Hfl2 & Hj2 & Hk2 & Hd2);
      try (unfold r in *; lia); try exact Hd.
    rewrite (bind_Done _ _ _ _ _ _ _ E).
    rewrite bind_get. cbv beta. unfold reading at 1 2 3. fsimpl.
    replace (u64 (size - bs * Z.of_nat j2 + bs * Z.of_nat j2)) with size
      by (unwrap; lia).
    rewrite Z.geb_leb, Z.leb_refl. mstep.
    replace (n0 + (size - (k + n0))) with (size - k) by lia.
    replace (file_bytes driver d first k (Z.to_nat n0)
             ++ file_bytes driver d first (k + n0)
                  (Z.to_nat (size - (k + n0))))
      with (file_bytes driver d first k (Z.to_nat (size - k))).
    2:{ replace (Z.to_nat (size - k))
          with (Z.to_nat n0 + Z.to_nat (size - (k + n0)))%nat by lia.
        rewrite file_bytes_app. do 2 f_equal. lia. }
    eexists _, _. split; [reflexivity|]. split; [|exact Hd2].
    exists j2, node2, bic2. split; [assumption|]. split; [lia|].
    rewrite Z.leb_refl. unfold reading. fsimpl.
    destruct Hfl2 as [-> | ->]; reflexivity.
Qed.

(** The same on the freshly constructed file of at least one block. *)
Lemma Read_bulk_fresh_clip fuel N g w :
  bs <= size -> size < N < 2 ^ 32 ->
  (Z.to_nat size <= fuel)%nat -> disk w = d ->
  exists f' w',
    Read_bulk driver fuel N (fresh driver first size g) w
    = Done (size, file_bytes driver d first 0 (Z.to_nat size)) f' w'
    /\ at_position driver d first size size f'
    /\ disk w' = d.
Proof.
  intros Hblock HN Hfuel Hd.
  pose proof (u32_range (IFsDriver.BlockSize driver)) as Hbs.
  set (f0 := fresh driver first size g).
  set (buf0 := map (fun i => g (Z.of_nat i)) (seq 0 (Z.to_nat bs))).
  assert (Hbuf : _blockBuffer f0 = Some buf0) by reflexivity.
  assert (Hlen : zlength buf0 = bs).
  { unfold zlength, buf0. rewrite length_map, length_seq. lia. }
  assert (Hpib : _positionInBuffer f0 = bs) by reflexivity.
  assert (Hpif : _positionInFile f0 = u64 (-1)) by reflexivity.
  assert (Hsize : _size f0 = size) by reflexivity.
  assert (Hbsz : _blockSize f0 = bs) by reflexivity.
  assert (Hcur : _current f0 = 0) by reflexivity.
  assert (Hpos : u64 (bs + u64 (-1)) = bs - 1)
    by (apply u64_minus_one_plus; lia).
  unfold Read_bulk. cbv zeta. rewrite bind_get. cbv beta.
  rewrite Hbuf, !Hpib, !Hpif, !Hsize, !Hbsz, Hpos.
  rewrite (u32_small N) by lia.
  destruct (Z.ltb_spec (bs - 1) size); [|lia].
  rewrite Z.sub_diag, (u32_small 0) by lia.
  rewrite (Z.min_r N 0) by lia.
  rewrite Z.gtb_ltb.
  destruct (Z.ltb_spec (u32 (size - (bs - 1))) 0);
    [pose proof (u32_range (size - (bs - 1))); lia|].
  erewrite bind_Done; cycle 1.
  { apply (buffer_copy_eq bs 0 f0 w buf0); [assumption|lia|lia|lia]. }
  rewrite bind_modify. rewrite Z.add_0_r, (u32_small bs) by lia.
  change (firstn (Z.to_nat 0) (skipn (Z.to_nat bs) buf0)) with (@nil Z).
  replace (set_positionInBuffer bs f0) with f0 by reflexivity.
  destruct fuel as [|fuel]; [lia|].
  set (f1 := set_positionInFile 0 (set_current (_firstNode f0) f0)).
  assert (Hcs : chunk_size N 0 f1 = bs /\ chunk_flags N 0 f1 = f1).
  { unfold chunk_size, chunk_flags, f1, f0, fresh. fsimpl.
    destruct (Z.ltb_spec 0 size); [|lia].
    rewrite !Z.sub_0_r, (u32_small size) by lia.
    rewrite Z.gtb_ltb.
    destruct (Z.ltb_spec size (Z.min N bs)); [lia|]. split; [lia|auto]. }
  destruct Hcs as [Hc1 Hc2].
  assert (Hloop : exists fl j2 node2 bic2 w2,
             Read_loop driver (S fuel) N 0 [] f0 w
             = Done (size, file_bytes driver d first 0 (Z.to_nat size))
                 (reading driver d first size fl size j2 node2 bic2) w2
             /\ (fl = FileFlagsNone \/ fl = FileFlagEof)
             /\ block_position driver first j2 = Some (node2, bic2)
             /\ bs * Z.of_nat j2 < size <= bs * Z.of_nat j2 + bs
             /\ disk w2 = d).
  { rewrite (Read_loop_first driver fuel N 0 [] f0 w buf0); try assumption;
      try reflexivity.
    - fold f1. rewrite Hc1, Hc2.
      assert (Ef : set_positionInBuffer bs (after_load (disk w) f1)
                   = reading driver d first size FileFlagsNone bs O first 0).
      { unfold after_load, f1, f0, fresh, reading. fsimpl. rewrite Hd.
        f_equal; lia. }
      assert (Eb : firstn (Z.to_nat bs)
                     (read_block (disk w)
                        (u32 (_current f1 + _blockInChunk f1))
                        (_blockSize f1))
                   = file_bytes driver d first 0 (Z.to_nat bs)).
      { unfold f1, f0, fresh. fsimpl. rewrite Hd.
        change (read_block d (u32 (first + 0)) bs)
          with (skipn (Z.to_nat 0) (read_block d (u32 (first + 0)) bs)).
        rewrite (file_bytes_block driver d first bs_pos O first 0 0 bs);
          [f_equal; lia|reflexivity|lia|lia|lia]. }
      rewrite Ef, Eb, Z.add_0_l, (u32_small bs) by lia. simpl app.
      destruct (Z.eq_dec bs size) as [Hend|Hmore].
      + rewrite Read_loop_stop.
        * exists FileFlagsNone, O, first, 0. eexists. rewrite <- Hend.
          split; [reflexivity|]. split; [auto|].
          split; [reflexivity|]. split; [lia|exact Hd].
        * unfold reading. fsimpl. unwrap.
          replace (bs - bs * Z.of_nat 0 + bs * Z.of_nat 0) with size by lia.
          rewrite Z.ltb_irrefl. apply andb_false_r.
      + match goal with
        | |- context [Read_loop _ _ _ _ _ _ ?w1] =>
            destruct (Read_loop_clip fuel N bs
                        (file_bytes driver d first 0 (Z.to_nat bs))
                        bs O first 0 w1 eq_refl)
              as (fl2 & j2 & node2 & bic2 & w2 & E & Hfl2 & Hj2 & Hk2 & Hd2)
        end; try lia; try exact Hd.
        exists fl2, j2, node2, bic2, w2. rewrite E.
        split; [|auto]. f_equal. f_equal; [lia|].
        replace (Z.to_nat size) with (Z.to_nat bs + Z.to_nat (size - bs))%nat
          by lia.
        rewrite file_bytes_app. do 2 f_equal. lia.
    - rewrite Hpib, Hpif, Hsize, Hpos.
      destruct (Z.ltb_spec 0 N); [|lia].
      destruct (Z.ltb_spec (bs - 1) size); [reflexivity|lia].
    - fold f1. rewrite Hc1. unfold f1, f0, fresh. fsimpl. lia. }
  destruct Hloop as (fl2 & j2 & node2 & bic2 & w2 & E & Hfl2 & Hj2 & Hk2 & Hd2).
  rewrite (bind_Done _ _ _ _ _ _ _ E).
  rewrite bind_get. cbv beta. unfold reading at 1 2 3. fsimpl.
  replace (u64 (size - bs * Z.of_nat j2 + bs * Z.of_nat j2)) with size
    by (unwrap; lia).
  rewrite Z.geb_leb, Z.leb_refl. mstep.
  eexists _, _. split; [reflexivity|]. split; [|exact Hd2].
  exists j2, node2, bic2. split; [assumption|]. split; [lia|].
  rewrite Z.leb_refl. unfold reading. fsimpl.
  destruct Hfl2 as [-> | ->]; reflexivity.
Qed.

End Clip.

(** X2.  After [p >= 1] single-byte [Read]s on a freshly constructed file
    ([p <= size], the chain holding a block for every offset below [size])
    the bytes returned are bytes [0], ..., [p - 1] of the file, the absolute
    position [_positionInFile + _positionInBuffer] is [p], [_positionInFile]
    is the offset of the block that holds byte [p - 1], [EndOfFile()] holds
    exactly when [p = size], and [_size] is what the constructor was
    given. *)
Theorem reads_track_position (driver : IFsDriver.t) (node size : Z)
        (g : Z -> Z) (w : World) (p : nat) :
  0 < u32 (IFsDriver.BlockSize driver) ->
  0 < node < 2 ^ 32 ->
  0 < size < 2 ^ 64 ->
  covers driver node size ->
  (0 < p)%nat -> Z.of_nat p <= size ->
  exists f w1,
    and_then (File_node driver node size (Some g) w) (reads driver p)
    = Done (file_bytes driver (disk w) node 0 p) f w1
    /\ _positionInFile f + _positionInBuffer f = Z.of_nat p
    /\ _positionInFile f
       = u32 (IFsDriver.BlockSize driver)
         * ((Z.of_nat p - 1) / u32 (IFsDriver.BlockSize driver))
    /\ EndOfFile f = (size <=? Z.of_nat p)
    /\ _size f = size.
Proof.
  intros Hbs Hnode Hsize Hcov Hp Hle.
  destruct (reads_from_fresh driver node size g w p Hbs Hnode ltac:(lia) Hcov Hle)
    as (f & w1 & E & Hat & _).
  destruct (Z.eqb_spec (Z.of_nat p) 0); [lia|].
  destruct (at_position_total _ _ _ _ _ _ Hat) as (T1 & T2 & T3).
  exists f, w1. split; [exact E|]. split; [exact T1|]. split; [exact T2|].
  split; [|exact T3]. eapply at_position_eof; eassumption.
Qed.

Lemma reads_track_position_witness :
  exists f w1,
    and_then (File_node Demo.driver 10 20 (Some Demo.garbage) Demo.world)
             (reads Demo.driver 7)
    = Done (file_bytes Demo.driver (disk Demo.world) 10 0 7) f w1
    /\ _positionInFile f + _positionInBuffer f = Z.of_nat 7
    /\ _positionInFile f
       = u32 (IFsDriver.BlockSize Demo.driver)
         * ((Z.of_nat 7 - 1) / u32 (IFsDriver.BlockSize Demo.driver))
    /\ EndOfFile f = (20 <=? Z.of_nat 7)
    /\ _size f = 20.
Proof.
  apply (reads_track_position Demo.driver 10 20 Demo.garbage Demo.world 7).
  - reflexivity.
  - lia.
  - lia.
  - apply Demo_covers. lia.
  - lia.
  - lia.
Defined.

(** X3.  A bulk [Read] that asks for more than remains.  After [p]
    single-byte [Read]s on a fresh file of [size < 2^32] bytes (with [p = 0],
    a file of at least one block), a request for [N > size - p] bytes
    returns exactly the [size - p] bytes that remain, bytes [p], ...,
    [size - 1] of the file, sets EndOfFile and leaves the position at
    [size].  Fuel for [size - p] turns of the loop is enough. *)
Theorem Read_bulk_short_at_eof (driver : IFsDriver.t) (node size : Z)
        (g : Z -> Z) (w : World) (p fuel : nat) (N : Z) :
  0 < u32 (IFsDriver.BlockSize driver) ->
  0 < node < 2 ^ 32 ->
  0 < size < 2 ^ 32 ->
  covers driver node size ->
  Z.of_nat p <= size ->
  (p = O -> u32 (IFsDriver.BlockSize driver) <= size) ->
  size - Z.of_nat p < N < 2 ^ 32 ->
  (Z.to_nat size - p <= fuel)%nat ->
  exists l f w1 f' w2,
    and_then (File_node driver node size (Some g) w) (reads driver p)
    = Done l f w1
    /\ Read_bulk driver fuel N f w1
       = Done (size - Z.of_nat p,
               file_bytes driver (disk w) node (Z.of_nat p)
                 (Z.to_nat size - p)) f' w2
    /\ EndOfFile f' = true
    /\ _positionInFile f' + _positionInBuffer f' = size.
Proof.
  intros Hbs Hnode Hsize Hcov Hp Hfirst HN Hfuel.
  destruct (reads_from_fresh driver node size g w p Hbs Hnode ltac:(lia) Hcov Hp)
    as (f & w1 & E & Hat & Hd).
  assert (Hnn : node <> 0) by lia.
  assert (Hsr : 0 <= size < 2 ^ 32) by lia.
  assert (Hfin : forall f' , at_position driver (disk w) node size size f' ->
                 EndOfFile f' = true
                 /\ _positionInFile f' + _positionInBuffer f' = size).
  { intros f' Hat'. split.
    - rewrite (at_position_eof _ _ _ _ _ _ Hat'). apply Z.leb_refl.
    - apply (at_position_total _ _ _ _ _ _ Hat'). }
  replace (Z.to_nat size - p)%nat with (Z.to_nat (size - Z.of_nat p)) by lia.
  destruct (Z.eqb_spec (Z.of_nat p) 0) as [H0|H0].
  - subst f. rewrite H0, Z.sub_0_r in HN |- *.
    edestruct (Read_bulk_fresh_clip driver (disk w) node size)
      with (fuel := fuel) (N := N) (g := g) (w := w1)
      as (f' & w2 & E2 & Hat2 & _); try lia; try assumption.
    exists (file_bytes driver (disk w) node 0 p), (fresh driver node size g),
      w1, f', w2.
    split; [exact E|]. split; [exact E2|]. now apply Hfin.
  - edestruct (Read_bulk_clip driver (disk w) node size)
      with (fuel := fuel) (N := N) (k := Z.of_nat p) (f := f) (w := w1)
      as (f' & w2 & E2 & Hat2 & _); try lia; try assumption.
    exists (file_bytes driver (disk w) node 0 p), f, w1, f', w2.
    split; [exact E|]. split; [exact E2|]. now apply Hfin.
Qed.

Lemma Read_bulk_short_at_eof_witness :
  exists l f w1 f' w2,
    and_then (File_node Demo.driver 10 20 (Some Demo.garbage) Demo.world)
             (reads Demo.driver 6)
    = Done l f w1
    /\ Read_bulk Demo.driver 14 100 f w1
       = Done (20 - Z.of_nat 6,
               file_bytes Demo.driver (disk Demo.world) 10 (Z.of_nat 6)
                 (Z.to_nat 20 - 6)) f' w2
    /\ EndOfFile f' = true
    /\ _positionInFile f' + _positionInBuffer f' = 20.
Proof.
  apply (Read_bulk_short_at_eof Demo.driver 10 20 Demo.garbage Demo.world
           6 14 100).
  - reflexivity.
  - lia.
  - lia.
  - apply Demo_covers. lia.
  - lia.
  - discriminate.
  - lia.
  - simpl. lia.
Defined.

Lemma Read_from driver d node size g k f w :
  0 < u32 (IFsDriver.BlockSize driver) ->
  node <> 0 ->
  0 <= size < 2 ^ 64 ->
  covers driver node size ->
  (if k =? 0 then f = fresh driver node size g
   else at_position driver d node size k f) ->
  0 <= k < size -> disk w = d ->
  exists f' w',
    Read driver f w = Done (file_byte driver d node k) f' w'
    /\ at_position driver d node size (k + 1) f'
    /\ disk w' = d.
Proof.
  intros Hbs Hnode Hsize Hcov Hf Hk Hd.
  destruct (Z.eqb_spec k 0) as [->|Hk0].
  - subst f. eapply Read_fresh; try eassumption; lia.
  - eapply Read_step; try eassumption; lia.
Qed.

Lemma serve_from driver d node size g fuel rs : forall k f w,
  0 < u32 (IFsDriver.BlockSize driver) ->
  node <> 0 ->
  0 <= size < 2 ^ 32 ->
  covers driver node size ->
  u32 (IFsDriver.BlockSize driver) <= size ->
  (if k =? 0 then f = fresh driver node size g
   else at_position driver d node size k f) ->
  0 <= k -> k + Z.of_nat (total rs) <= size ->
  (total rs <= fuel)%nat -> disk w = d ->
  exists f' w',
    serve driver fuel rs f w
    = Done (file_bytes driver d node k (total rs)) f' w'
    /\ (if k + Z.of_nat (total rs) =? 0 then f' = fresh driver node size g
        else at_position driver d node size (k + Z.of_nat (total rs)) f')
    /\ disk w' = d.
Proof.
  induction rs as [|r rs IH]; intros k f w Hbs Hnode Hsize Hcov Hblock Hf Hk
                                    Hle Hfuel Hd.
  - exists f, w. unfold total. simpl. rewrite Z.add_0_r. auto.
  - assert (Ht : total (r :: rs) = (wanted r + total rs)%nat) by reflexivity.
    rewrite Ht in *.
    destruct r as [|n]; cbn [serve wanted] in *.
    + destruct (Read_from driver d node size g k f w Hbs Hnode ltac:(lia)
                  Hcov Hf ltac:(lia) Hd)
        as (f1 & w1 & E1 & Hat1 & Hd1).
      destruct (IH (k + 1) f1 w1 Hbs Hnode Hsize Hcov Hblock)
        as (f2 & w2 & E2 & Hat2 & Hd2); try lia; try assumption.
      { destruct (Z.eqb_spec (k + 1) 0); [lia|exact Hat1]. }
      exists f2, w2.
      rewrite (bind_Done _ _ _ _ _ _ _ E1), (bind_Done _ _ _ _ _ _ _ E2).
      replace (k + Z.of_nat (1 + total rs)) with (k + 1 + Z.of_nat (total rs))
        by lia.
      split; [|auto]. unfold ret. f_equal.
      change (1 + total rs)%nat with (S (total rs)).
      now rewrite file_bytes_S.
    + destruct (Read_bulk_from driver d node size g k f w fuel (Z.of_nat n)
                  Hbs Hnode Hsize Hcov Hf)
        as (f1 & w1 & E1 & Hat1 & Hd1); try lia; try assumption.
      destruct (IH (k + Z.of_nat n) f1 w1 Hbs Hnode Hsize Hcov Hblock Hat1)
        as (f2 & w2 & E2 & Hat2 & Hd2); try lia; try assumption.
      exists f2, w2.
      rewrite (bind_Done _ _ _ _ _ _ _ E1), (bind_Done _ _ _ _ _ _ _ E2).
      replace (k + Z.of_nat (n + total rs))
        with (k + Z.of_nat n + Z.of_nat (total rs)) by lia.
      split; [|auto]. unfold ret. cbn [snd]. f_equal.
      rewrite Nat2Z.id. now rewrite file_bytes_app.
Qed.

(** X4.  Single-byte and bulk reads mix.  On a fresh file of at least one
    block and [size < 2^32] bytes, any sequence of [Read()] calls and bulk
    [Read]s that asks for no more than [size] bytes in all delivers the
    first bytes of the file, in order and without a gap or a repeat, and
    leaves the very object that as many single-byte [Read]s leave. *)
Theorem mixed_reads_deliver_the_file (driver : IFsDriver.t) (node size : Z)
        (g : Z -> Z) (w : World) (rs : list Req) (fuel : nat) :
  0 < u32 (IFsDriver.BlockSize driver) ->
  0 < node < 2 ^ 32 ->
  u32 (IFsDriver.BlockSize driver) <= size < 2 ^ 32 ->
  covers driver node size ->
  Z.of_nat (total rs) <= size ->
  (total rs <= fuel)%nat ->
  exists f w1 w2,
    and_then (File_node driver node size (Some g) w) (serve driver fuel rs)
    = Done (file_bytes driver (disk w) node 0 (total rs)) f w1
    /\ and_then (File_node driver node size (Some g) w)
                (reads driver (total rs))
       = Done (file_bytes driver (disk w) node 0 (total rs)) f w2.
Proof.
  intros Hbs Hnode Hsize Hcov Hle Hfuel.
  assert (Hnn : node <> 0) by lia.
  assert (Hsr : 0 <= size < 2 ^ 32) by lia.
  destruct (reads_from_fresh driver node size g w (total rs) Hbs Hnode
              ltac:(lia) Hcov Hle)
    as (f2 & w2 & E2 & Hat2 & _).
  rewrite File_node_fresh in * by (rewrite u32_small; lia).
  rewrite u32_small, u64_small in * by lia. cbn [and_then] in *.
  destruct (serve_from driver (disk w) node size g fuel rs 0
              (fresh driver node size g) (more w [CallGetParameter])
              Hbs Hnn Hsr Hcov ltac:(lia) eq_refl)
    as (f1 & w1 & E1 & Hat1 & _); try lia; try reflexivity.
  rewrite Z.add_0_l in Hat1.
  assert (f1 = f2).
  { destruct (Z.eqb_spec (Z.of_nat (total rs)) 0).
    - congruence.
    - eapply at_position_unique; eassumption. }
  subst f2. exists f1, w1, w2. split; assumption.
Qed.

Lemma mixed_reads_deliver_the_file_witness :
  exists f w1 w2,
    and_then (File_node Demo.driver 10 20 (Some Demo.garbage) Demo.world)
             (serve Demo.driver 12 [One; Many 6; One; Many 0; Many 4])
    = Done (file_bytes Demo.driver (disk Demo.world) 10 0
              (total [One; Many 6; One; Many 0; Many 4])) f w1
    /\ and_then (File_node Demo.driver 10 20 (Some Demo.garbage) Demo.world)
                (reads Demo.driver (total [One; Many 6; One; Many 0; Many 4]))
       = Done (file_bytes Demo.driver (disk Demo.world) 10 0
                 (total [One; Many 6; One; Many 0; Many 4])) f w2.
Proof.
  apply (mixed_reads_deliver_the_file Demo.driver 10 20 Demo.garbage
           Demo.world [One; Many 6; One; Many 0; Many 4] 12).
  - reflexivity.
  - lia.
  - change (u32 (IFsDriver.BlockSize Demo.driver)) with 4. lia.
  - apply Demo_covers. lia.
  - change (total [One; Many 6; One; Many 0; Many 4]) with 12%nat. lia.
  - change (total [One; Many 6; One; Many 0; Many 4]) with 12%nat. lia.
Defined.

(** *** [Seek] within reach *)

Section Reach.
Variable driver : IFsDriver.t.
Variable d : Z -> Z -> Z.
Variables first size : Z.
Local Abbreviation bs := (u32 (IFsDriver.BlockSize driver)).
Hypothesis bs_pos : 0 < bs.
Hypothesis first_nonnull : first <> 0.
Hypothesis size_range : 0 <= size < 2 ^ 64.
Hypothesis chain : covers driver first size.

(** [Flush] on an object that is not writable. *)
Lemma Flush_read_only f w :
  has_flag (_flags f) FileFlagWritable = false ->
  exists w', Flush driver f w = Done tt f w' /\ disk w' = disk w.
Proof.
  intros H.
  destruct (Flush_quiet driver w f w) as (w' & E & _ & Hd & _).
  - repeat split. exact H.
  - exists w'. auto.
Qed.

(** [Read] with block [j] buffered and the cursor anywhere in it, its end
    included. *)
Lemma Read_reading k j node bic w :
  block_position driver first j = Some (node, bic) ->
  bs * Z.of_nat j <= k <= bs * Z.of_nat j + bs -> k < size -> disk w = d ->
  exists f' w',
    Read driver (reading driver d first size FileFlagsNone k j node bic) w
    = Done (file_byte driver d first k) f' w'
    /\ at_position driver d first size (k + 1) f'
    /\ disk w' = d.
Proof.
  intros Hj Hk Hlt Hd.
  pose proof (u32_range (IFsDriver.BlockSize driver)) as Hbs.
  destruct (Z.eq_dec k (bs * Z.of_nat j)) as [Hstart|Hin].
  - rewrite (Read_buffered driver _ _ (read_block d (u32 (node + bic)) bs));
      try reflexivity.
    + eexists _, _. split; [|split]; [| |exact Hd].
      * f_equal. unfold reading. fsimpl. rewrite nth_read_block by lia.
        replace k with (bs * Z.of_nat j + (k - bs * Z.of_nat j)) at 2 by lia.
        symmetry. apply file_byte_at; [assumption|assumption|lia].
      * exists j, node, bic. split; [assumption|]. split; [lia|].
        unfold after_take, reading. fsimpl. unwrap.
        replace (k - bs * Z.of_nat j + 1 + bs * Z.of_nat j) with (k + 1)
          by lia.
        rewrite Z.geb_leb.
        destruct (Z.leb_spec size (k + 1)); fsimpl; f_equal; lia.
    + unfold reading. fsimpl. lia.
    + unfold reading. fsimpl. apply zlength_read_block. lia.
  - apply (Read_step driver d first size bs_pos first_nonnull size_range chain);
      try assumption.
    exists j, node, bic. split; [assumption|]. split; [lia|].
    destruct (Z.leb_spec size k); [lia|reflexivity].
Qed.

(** [Seek] to a target in the buffered block or at its end. *)
Lemma Seek_reading fuel fl k j node bic X w :
  block_position driver first j = Some (node, bic) ->
  fl = FileFlagsNone \/ fl = FileFlagEof ->
  bs * Z.of_nat j <= k <= bs * Z.of_nat j + bs ->
  bs * Z.of_nat j <= X <= bs * Z.of_nat j + bs ->
  bs * Z.of_nat j + bs < 2 ^ 64 ->
  disk w = d ->
  exists w',
    Seek driver fuel X (reading driver d first size fl k j node bic) w
    = Done false (reading driver d first size FileFlagsNone X j node bic) w'
    /\ disk w' = d.
Proof.
  intros Hj Hfl Hk HX Hrange Hd.
  pose proof (u32_range (IFsDriver.BlockSize driver)) as Hbs.
  set (f0 := reading driver d first size fl k j node bic).
  assert (Hbuf : _blockBuffer f0 = Some (read_block d (u32 (node + bic)) bs))
    by reflexivity.
  assert (Hpif : _positionInFile f0 = bs * Z.of_nat j) by reflexivity.
  assert (Hbsz : _blockSize f0 = bs) by reflexivity.
  assert (Hclear : Z.land fl (Z.lnot FileFlagEof) = FileFlagsNone)
    by (destruct Hfl as [-> | ->]; reflexivity).
  unfold Seek. cbv zeta. rewrite bind_get. cbv beta.
  rewrite Hbuf, !Hpif, !Hbsz.
  rewrite (u64_small X) by lia.
  rewrite (u64_small (bs * Z.of_nat j + bs)) by lia.
  rewrite Z.geb_leb.
  destruct (Z.ltb_spec X (bs * Z.of_nat j)); [lia|].
  destruct (Z.leb_spec (bs * Z.of_nat j + bs) X) as [Hend|Hin]; cbn [orb].
  - (* at the end of the block: the same block is loaded again *)
    assert (HX' : X = bs * Z.of_nat j + bs) by lia.
    mstep.
    destruct (Flush_read_only f0 w) as (w1 & Ef & Hd1).
    { unfold f0, reading. fsimpl. destruct Hfl as [-> | ->]; reflexivity. }
    rewrite (bind_Done _ _ _ _ _ _ _ Ef). mstep.
    erewrite bind_Done; cycle 1.
    { destruct fuel; cbn [Seek_loop]; rewrite bind_get; cbv beta;
        rewrite Hpif, Hbsz, (u64_small (bs * Z.of_nat j + bs)) by lia;
        rewrite Z.gtb_ltb;
        (destruct (Z.ltb_spec (bs * Z.of_nat j + bs) X); [lia|]);
        reflexivity. }
    cbv beta iota. mstep.
    erewrite bind_Done; cycle 1.
    { apply (load_block_eq driver f0 w1 (read_block d (u32 (node + bic)) bs));
        [reflexivity| |reflexivity].
      unfold f0, reading. fsimpl. apply zlength_read_block. lia. }
    mstep. unfold ret. eexists. split.
    + f_equal. unfold after_load, f0, reading. fsimpl.
      rewrite Hclear, Hd1, Hd.
      rewrite (u64_small (X - bs * Z.of_nat j)),
        (u32_small (X - bs * Z.of_nat j)) by lia.
      reflexivity.
    + simpl. rewrite Hd1. exact Hd.
  - (* inside the block *)
    mstep. unfold ret. exists w. split; [|exact Hd].
    f_equal. unfold f0, reading. fsimpl. rewrite Hclear.
    rewrite (u64_small (X - bs * Z.of_nat j)), (u32_small (X - bs * Z.of_nat j))
      by lia.
    reflexivity.
Qed.

(** [Seek] on the freshly constructed file to a target in the first block
    or at its end. *)
Lemma Seek_fresh fuel g X w :
  0 <= X <= bs -> disk w = d ->
  exists w',
    Seek driver fuel X (fresh driver first size g) w
    = Done false (reading driver d first size FileFlagsNone X O first 0) w'
    /\ disk w' = d.
Proof.
  intros HX Hd.
  pose proof (u32_range (IFsDriver.BlockSize driver)) as Hbs.
  set (f0 := fresh driver first size g).
  set (buf0 := map (fun i => g (Z.of_nat i)) (seq 0 (Z.to_nat bs))).
  assert (Hbuf : _blockBuffer f0 = Some buf0) by reflexivity.
  assert (Hlen : zlength buf0 = bs).
  { unfold zlength, buf0. rewrite length_map, length_seq. lia. }
  assert (Hpif : _positionInFile f0 = 2 ^ 64 - 1) by reflexivity.
  assert (Hbsz : _blockSize f0 = bs) by reflexivity.
  unfold Seek. cbv zeta. rewrite bind_get. cbv beta.
  rewrite Hbuf, !Hpif, !Hbsz.
  rewrite (u64_small X) by lia.
  destruct (Z.ltb_spec X (2 ^ 64 - 1)); [|lia].
  rewrite orb_true_r. mstep.
  set (f1 := set_positionInFile 0 (set_current (_firstNode f0) f0)).
  destruct (Flush_read_only f1 w) as (w1 & Ef & Hd1); [reflexivity|].
  rewrite (bind_Done _ _ _ _ _ _ _ Ef). mstep.
  erewrite bind_Done; cycle 1.
  { destruct fuel; cbn [Seek_loop]; rewrite bind_get; cbv beta;
      unfold f1, f0, fresh; fsimpl;
      rewrite (u64_small (0 + bs)) by lia;
      rewrite Z.gtb_ltb;
      (destruct (Z.ltb_spec (0 + bs) X); [lia|]);
      reflexivity. }
  cbv beta iota. mstep.
  erewrite bind_Done; cycle 1.
  { apply (load_block_eq driver f1 w1 buf0); [reflexivity|assumption|reflexivity]. }
  mstep. unfold ret. eexists. split.
  - f_equal. unfold after_load, f1, f0, fresh, reading. fsimpl.
    rewrite Hd1, Hd.
    rewrite Z.sub_0_r, Z.mul_0_r, Z.sub_0_r, (u64_small X), (u32_small X)
      by lia.
    reflexivity.
  - simpl. rewrite Hd1. exact Hd.
Qed.

End Reach.

(** X5.  On a freshly constructed file, [Seek(X)] to a target in the first
    block or at its end ([X <= _blockSize], [X < size]) followed by [Read()]
    returns byte [X] of the file and leaves the object that [X + 1]
    single-byte [Read]s leave: here [Seek] rewinds to [_firstNode] with
    [_blockInChunk] still 0 and its loop makes no turn. *)
Theorem Seek_first_block_then_Read (driver : IFsDriver.t) (node size : Z)
        (g : Z -> Z) (w : World) (fuel : nat) (X : Z) :
  0 < u32 (IFsDriver.BlockSize driver) ->
  0 < node < 2 ^ 32 ->
  0 < size < 2 ^ 64 ->
  covers driver node size ->
  0 <= X <= u32 (IFsDriver.BlockSize driver) ->
  X < size ->
  exists f' w2 l w3,
    and_then (File_node driver node size (Some g) w)
             (bind (Seek driver fuel X) (fun _ => Read driver))
    = Done (file_byte driver (disk w) node X) f' w2
    /\ and_then (File_node driver node size (Some g) w)
                (reads driver (S (Z.to_nat X)))
       = Done l f' w3.
Proof.
  intros Hbs Hnode Hsize Hcov HX Hlt.
  assert (Hnn : node <> 0) by lia.
  assert (Hsr : 0 <= size < 2 ^ 64) by lia.
  destruct (reads_from_fresh driver node size g w (S (Z.to_nat X))
              Hbs Hnode Hsr Hcov ltac:(lia))
    as (f2 & w3 & E2 & Hat2 & _).
  destruct (Z.eqb_spec (Z.of_nat (S (Z.to_nat X))) 0); [lia|].
  replace (Z.of_nat (S (Z.to_nat X))) with (X + 1) in Hat2 by lia.
  rewrite File_node_fresh in * by (rewrite u32_small; lia).
  rewrite u32_small, u64_small in * by lia. cbn [and_then] in *.
  set (w0 := more w [CallGetParameter]) in *.
  edestruct (Seek_fresh driver (disk w) node size)
    with (fuel := fuel) (g := g) (X := X) (w := w0)
    as (w1 & Es & Hd1); try lia; try reflexivity.
  edestruct (Read_reading driver (disk w) node size)
    with (k := X) (j := O) (node := node) (bic := 0) (w := w1)
    as (f' & w2 & Er & Hat & _); try lia; try assumption; try reflexivity.
  rewrite (bind_Done _ _ _ _ _ _ _ Es), Er.
  assert (f2 = f') by (eapply at_position_unique; eassumption). subst f2.
  eexists _, _, _, _. split; [reflexivity|exact E2].
Qed.

Lemma Seek_first_block_then_Read_witness :
  exists f' w2 l w3,
    and_then (File_node Demo.driver 10 20 (Some Demo.garbage) Demo.world)
             (bind (Seek Demo.driver 0 3) (fun _ => Read Demo.driver))
    = Done (file_byte Demo.driver (disk Demo.world) 10 3) f' w2
    /\ and_then (File_node Demo.driver 10 20 (Some Demo.garbage) Demo.world)
                (reads Demo.driver (S (Z.to_nat 3)))
       = Done l f' w3.
Proof.
  apply (Seek_first_block_then_Read Demo.driver 10 20 Demo.garbage
           Demo.world 0 3).
  - reflexivity.
  - lia.
  - lia.
  - apply Demo_covers. lia.
  - change (u32 (IFsDriver.BlockSize Demo.driver)) with 4. lia.
  - lia.
Defined.

(** X6.  After [p >= 1] single-byte [Read]s, with block [j] of the file in
    the buffer, [Seek(X)] to a target in that block or at its end
    ([_blockSize * j <= X <= _blockSize * j + _blockSize], [X < size])
    followed by [Read()] returns byte [X] of the file and leaves the object
    that [X + 1] single-byte [Read]s leave, whether the target lies before
    or after the cursor. *)
Theorem Seek_buffered_block_then_Read (driver : IFsDriver.t) (node size : Z)
        (g : Z -> Z) (w : World) (p j fuel : nat) (X : Z) :
  0 < u32 (IFsDriver.BlockSize driver) ->
  0 < node < 2 ^ 32 ->
  0 < size ->
  size + u32 (IFsDriver.BlockSize driver) < 2 ^ 64 ->
  covers driver node size ->
  Z.of_nat p <= size ->
  u32 (IFsDriver.BlockSize driver) * Z.of_nat j < Z.of_nat p
  <= u32 (IFsDriver.BlockSize driver) * Z.of_nat j
     + u32 (IFsDriver.BlockSize driver) ->
  u32 (IFsDriver.BlockSize driver) * Z.of_nat j <= X
  <= u32 (IFsDriver.BlockSize driver) * Z.of_nat j
     + u32 (IFsDriver.BlockSize driver) ->
  X < size ->
  exists l0 f w1 f' w2 l w3,
    and_then (File_node driver node size (Some g) w) (reads driver p)
    = Done l0 f w1
    /\ bind (Seek driver fuel X) (fun _ => Read driver) f w1
       = Done (file_byte driver (disk w) node X) f' w2
    /\ and_then (File_node driver node size (Some g) w)
                (reads driver (S (Z.to_nat X)))
       = Done l f' w3.
Proof.
  intros Hbs Hnode Hsize Hbig Hcov Hp Hj HX Hlt.
  pose proof (u32_range (IFsDriver.BlockSize driver)) as Hr.
  assert (Hnn : node <> 0) by lia.
  assert (Hsr : 0 <= size < 2 ^ 64) by lia.
  destruct (reads_from_fresh driver node size g w p Hbs Hnode Hsr Hcov Hp)
    as (f & w1 & E & Hat & Hd).
  destruct (Z.eqb_spec (Z.of_nat p) 0); [lia|].
  destruct (reads_from_fresh driver node size g w (S (Z.to_nat X))
              Hbs Hnode Hsr Hcov ltac:(lia))
    as (f2 & w3 & E2 & Hat2 & _).
  destruct (Z.eqb_spec (Z.of_nat (S (Z.to_nat X))) 0); [lia|].
  replace (Z.of_nat (S (Z.to_nat X))) with (X + 1) in Hat2 by lia.
  destruct Hat as (j' & nd & bic & Hpos & Hk & ->).
  assert (j' = j)
    by (apply (block_index_unique (u32 (IFsDriver.BlockSize driver)) j' j
                 (Z.of_nat p)); assumption).
  subst j'.
  edestruct (Seek_reading driver (disk w) node size)
    with (fuel := fuel) (k := Z.of_nat p) (j := j) (node := nd) (bic := bic)
         (X := X) (w := w1)
         (fl := if size <=? Z.of_nat p then FileFlagEof else FileFlagsNone)
    as (w1' & Es & Hd1); try lia; try assumption.
  { destruct (size <=? Z.of_nat p); auto. }
  edestruct (Read_reading driver (disk w) node size)
    with (k := X) (j := j) (node := nd) (bic := bic) (w := w1')
    as (f' & w2 & Er & Hat & _); try lia; try assumption.
  assert (f2 = f') by (eapply at_position_unique; eassumption). subst f2.
  eexists _, _, _, f', w2, _, _. split; [exact E|]. split; [|exact E2].
  rewrite (bind_Done _ _ _ _ _ _ _ Es). exact Er.
Qed.

Lemma Seek_buffered_block_then_Read_witness :
  exists l0 f w1 f' w2 l w3,
    and_then (File_node Demo.driver 10 20 (Some Demo.garbage) Demo.world)
             (reads Demo.driver 7)
    = Done l0 f w1
    /\ bind (Seek Demo.driver 0 4) (fun _ => Read Demo.driver) f w1
       = Done (file_byte Demo.driver (disk Demo.world) 10 4) f' w2
    /\ and_then (File_node Demo.driver 10 20 (Some Demo.garbage) Demo.world)
                (reads Demo.driver (S (Z.to_nat 4)))
       = Done l f' w3.
Proof.
  apply (Seek_buffered_block_then_Read Demo.driver 10 20 Demo.garbage
           Demo.world 7 1 0 4).
  - reflexivity.
  - lia.
  - lia.
  - change (u32 (IFsDriver.BlockSize Demo.driver)) with 4. lia.
  - apply Demo_covers. lia.
  - lia.
  - change (u32 (IFsDriver.BlockSize Demo.driver)) with 4. lia.
  - change (u32 (IFsDriver.BlockSize Demo.driver)) with 4. lia.
  - lia.
Defined.

(** *** The traffic with the driver *)

Lemma loads_of_app l1 l2 : loads_of (l1 ++ l2) = loads_of l1 ++ loads_of l2.
Proof. unfold loads_of. apply flat_map_app. Qed.

Lemma loads_of_hop_calls driver f : loads_of (hop_calls driver f) = [].
Proof. unfold hop_calls. now destruct (_ >=? _). Qed.

Section Loads.
Variable driver : IFsDriver.t.
Variable d : Z -> Z -> Z.
Variables first size : Z.
Local Abbreviation bs := (u32 (IFsDriver.BlockSize driver)).
Hypothesis bs_pos : 0 < bs.
Hypothesis first_nonnull : first <> 0.
Hypothesis size_range : 0 <= size < 2 ^ 64.
Hypothesis chain : covers driver first size.

(** One [Read] at offset [k < size] loads the next block exactly when the
    buffered one is used up. *)
Lemma Read_step_loads k j f w :
  at_position driver d first size k f ->
  bs * Z.of_nat j < k <= bs * Z.of_nat j + bs ->
  k < size -> disk w = d ->
  exists b f' w',
    Read driver f w = Done b f' w'
    /\ at_position driver d first size (k + 1) f'
    /\ disk w' = d
    /\ loads_of (calls w')
       = loads_of (calls w)
         ++ (if k =? bs * Z.of_nat j + bs
             then [block_address driver first (S j)] else []).
Proof.
  intros Hat Hj Hlt Hd.
  destruct (Read_step driver d first size bs_pos first_nonnull size_range chain
              k f w Hat Hlt Hd)
    as (f' & w' & E & Hat' & Hd').
  exists (file_byte driver d first k), f', w'.
  split; [exact E|]. split; [exact Hat'|]. split; [exact Hd'|].
  destruct Hat as (j0 & node & bic & Hpos & Hk & ->).
  assert (j0 = j) by (apply (block_index_unique bs j0 j k); assumption).
  subst j0.
  pose proof (u32_range (IFsDriver.BlockSize driver)) as Hbs.
  destruct (Z.eqb_spec k (bs * Z.of_nat j + bs)) as [Hfull|Hpart].
  - assert (Hn : block_position driver first (S j) <> None)
      by (apply chain; lia).
    unfold block_address. simpl in Hn |- *. rewrite Hpos in Hn |- *.
    destruct (next_position driver (node, bic)) as [[node' bic']|] eqn:Hnext;
      [|congruence].
    destruct (hop_reading driver d first size k j node bic node' bic' Hnext)
      as [He Hhop].
    destruct (Z.leb_spec size k); [lia|].
    rewrite (Read_next driver _ _ (read_block d (u32 (node + bic)) bs)) in E;
      try reflexivity; try assumption.
    + rewrite Hhop in E. cbv zeta in E. cbn [fst snd] in E.
      injection E as _ _ <-. unfold more. cbn [calls].
      rewrite loads_of_app. f_equal. unfold hop_calls. fsimpl.
      destruct (_ >=? _); reflexivity.
    + unfold reading. fsimpl. lia.
    + unfold reading. fsimpl. apply zlength_read_block. lia.
    + unfold reading. fsimpl.
      eapply block_position_nonnull; eassumption.
  - rewrite (Read_buffered driver _ _ (read_block d (u32 (node + bic)) bs))
      in E; try reflexivity.
    + injection E as _ _ <-. now rewrite app_nil_r.
    + unfold reading. fsimpl. lia.
    + unfold reading. fsimpl. apply zlength_read_block. lia.
Qed.

Lemma reads_loads m : forall k j f w,
  at_position driver d first size k f ->
  bs * Z.of_nat j < k <= bs * Z.of_nat j + bs ->
  k + Z.of_nat m <= size -> disk w = d ->
  exists l f' w' j',
    reads driver m f w = Done l f' w'
    /\ at_position driver d first size (k + Z.of_nat m) f'
    /\ disk w' = d
    /\ bs * Z.of_nat j' < k + Z.of_nat m <= bs * Z.of_nat j' + bs
    /\ loads_of (calls w')
       = loads_of (calls w)
         ++ map (block_address driver first) (seq (S j) (j' - j)).
Proof.
  induction m as [|m IH]; intros k j f w Hat Hj Hk Hd.
  - exists [], f, w, j. simpl. rewrite Z.add_0_r, Nat.sub_diag. simpl.
    rewrite app_nil_r. auto.
  - destruct (Read_step_loads k j f w Hat Hj) as (b & f1 & w1 & E1 & Hat1 & Hd1 & L1);
      [lia|assumption|].
    set (j1 := if k =? bs * Z.of_nat j + bs then S j else j).
    assert (Hj1 : bs * Z.of_nat j1 < k + 1 <= bs * Z.of_nat j1 + bs).
    { unfold j1. destruct (Z.eqb_spec k (bs * Z.of_nat j + bs)); lia. }
    destruct (IH (k + 1) j1 f1 w1 Hat1 Hj1) as (l & f2 & w2 & j2 & E2 & Hat2 & Hd2 & Hj2 & L2);
      [lia|assumption|].
    replace (k + 1 + Z.of_nat m) with (k + Z.of_nat (S m)) in * by lia.
    exists (b :: l), f2, w2, j2.
    split; [|split; [exact Hat2|split; [exact Hd2|split; [exact Hj2|]]]].
    + simpl. unfold bind. rewrite E1, E2. reflexivity.
    + rewrite L2, L1, <- app_assoc. f_equal.
      assert (j1 <= j2)%nat by nia.
      unfold j1 in *.
      destruct (Z.eqb_spec k (bs * Z.of_nat j + bs)).
      * replace (j2 - j)%nat with (S (j2 - S j)) by lia. reflexivity.
      * reflexivity.
Qed.

(** The first [Read] after construction loads block 0. *)
Lemma Read_fresh_loads g w :
  0 < size -> disk w = d ->
  exists b f' w',
    Read driver (fresh driver first size g) w = Done b f' w'
    /\ at_position driver d first size 1 f'
    /\ disk w' = d
    /\ loads_of (calls w')
       = loads_of (calls w) ++ [block_address driver first O].
Proof.
  intros Hs Hd.
  pose proof (u32_range (IFsDriver.BlockSize driver)) as Hbs.
  destruct (Read_fresh driver d first size bs_pos g w Hs Hd)
    as (f' & w' & E & Hat & Hd').
  exists (file_byte driver d first 0), f', w'.
  split; [exact E|]. split; [exact Hat|]. split; [exact Hd'|].
  destruct (new_array_some g bs) as (buf & Hb & Hl); [lia|].
  rewrite (Read_first driver _ _ buf) in E; try assumption; try reflexivity.
  injection E as _ _ <-. unfold more. cbn [calls]. rewrite loads_of_app.
  reflexivity.
Qed.

End Loads.

(** X7.  Sequential single-byte reading loads each block once.  The
    [ReadBlock] calls made by [p >= 1] single-byte [Read]s on a fresh file
    are those of blocks [0], ..., [(p - 1) / _blockSize] of the chain, in
    that order, one call each: a block is fetched when its first byte is
    asked for and never again. *)
Theorem reads_load_each_block_once (driver : IFsDriver.t) (node size : Z)
        (g : Z -> Z) (w : World) (p : nat) :
  0 < u32 (IFsDriver.BlockSize driver) ->
  0 < node < 2 ^ 32 ->
  0 < size < 2 ^ 64 ->
  covers driver node size ->
  (0 < p)%nat -> Z.of_nat p <= size ->
  exists l f w1,
    and_then (File_node driver node size (Some g) w) (reads driver p)
    = Done l f w1
    /\ loads_of (calls w1)
       = loads_of (calls w)
         ++ map (block_address driver node)
              (seq 0 (S (Z.to_nat ((Z.of_nat p - 1)
                                   / u32 (IFsDriver.BlockSize driver))))).
Proof.
  intros Hbs Hnode Hsize Hcov Hp Hle.
  assert (Hnn : node <> 0) by lia.
  assert (Hsr : 0 <= size < 2 ^ 64) by lia.
  rewrite File_node_fresh by (rewrite u32_small; lia).
  rewrite u32_small, u64_small by lia. cbn [and_then].
  set (w0 := more w [CallGetParameter]).
  destruct p as [|p]; [lia|].
  destruct (Read_fresh_loads driver (disk w) node size Hbs g w0)
    as (b & f1 & w1 & E1 & Hat1 & Hd1 & L1); [lia|reflexivity|].
  destruct (reads_loads driver (disk w) node size Hbs Hnn Hsr Hcov
              p 1 O f1 w1 Hat1)
    as (l & f2 & w2 & j2 & E2 & Hat2 & Hd2 & Hj2 & L2);
    [lia|lia|assumption|].
  exists (b :: l), f2, w2. split.
  - simpl. unfold bind. rewrite E1, E2. reflexivity.
  - rewrite L2, L1, <- app_assoc.
    unfold w0, more. cbn [calls]. rewrite loads_of_app. cbn [loads_of flat_map].
    rewrite app_nil_r. f_equal.
    replace (Z.to_nat ((Z.of_nat (S p) - 1) / u32 (IFsDriver.BlockSize driver)))
      with j2.
    + rewrite Nat.sub_0_r. reflexivity.
    + rewrite <- (Nat2Z.id j2) at 1. f_equal.
      apply Z.div_unique_pos
        with (r := Z.of_nat (S p) - 1
                   - u32 (IFsDriver.BlockSize driver) * Z.of_nat j2); lia.
Qed.

Lemma reads_load_each_block_once_witness :
  exists l f w1,
    and_then (File_node Demo.driver 10 20 (Some Demo.garbage) Demo.world)
             (reads Demo.driver 10)
    = Done l f w1
    /\ loads_of (calls w1)
       = loads_of (calls Demo.world)
         ++ map (block_address Demo.driver 10)
              (seq 0 (S (Z.to_nat ((Z.of_nat 10 - 1)
                                   / u32 (IFsDriver.BlockSize Demo.driver))))).
Proof.
  apply (reads_load_each_block_once Demo.driver 10 20 Demo.garbage
           Demo.world 10).
  - reflexivity.
  - lia.
  - lia.
  - apply Demo_covers. lia.
  - lia.
  - lia.
Defined.

Section Dialogue.
Variable driver : IFsDriver.t.
Variable d : Z -> Z -> Z.
Variables first size : Z.
Local Abbreviation bs := (u32 (IFsDriver.BlockSize driver)).
Hypothesis bs_pos : 0 < bs.
Hypothesis first_nonnull : first <> 0.
Hypothesis size_range : 0 <= size < 2 ^ 64.
Hypothesis chain : covers driver first size.

(** One [Read] at offset [k < size] talks to the driver exactly when the
    buffered block is used up. *)
Lemma Read_step_calls k j f w :
  at_position driver d first size k f ->
  bs * Z.of_nat j < k <= bs * Z.of_nat j + bs ->
  k < size -> disk w = d ->
  exists b f' w',
    Read driver f w = Done b f' w'
    /\ at_position driver d first size (k + 1) f'
    /\ disk w' = d
    /\ calls w'
       = calls w
         ++ (if k =? bs * Z.of_nat j + bs
             then enter_calls driver first (S j) else []).
Proof.
  intros Hat Hj Hlt Hd.
  destruct (Read_step driver d first size bs_pos first_nonnull size_range chain
              k f w Hat Hlt Hd)
    as (f' & w' & E & Hat' & Hd').
  exists (file_byte driver d first k), f', w'.
  split; [exact E|]. split; [exact Hat'|]. split; [exact Hd'|].
  destruct Hat as (j0 & node & bic & Hpos & Hk & ->).
  assert (j0 = j) by (apply (block_index_unique bs j0 j k); assumption).
  subst j0.
  pose proof (u32_range (IFsDriver.BlockSize driver)) as Hbs.
  destruct (Z.eqb_spec k (bs * Z.of_nat j + bs)) as [Hfull|Hpart].
  - assert (Hn : block_position driver first (S j) <> None)
      by (apply chain; lia).
    unfold enter_calls, block_address. simpl in Hn |- *.
    rewrite Hpos in Hn |- *.
    destruct (next_position driver (node, bic)) as [[node' bic']|] eqn:Hnext;
      [|congruence].
    destruct (hop_reading driver d first size k j node bic node' bic' Hnext)
      as [He Hhop].
    destruct (Z.leb_spec size k); [lia|].
    rewrite (Read_next driver _ _ (read_block d (u32 (node + bic)) bs)) in E;
      try reflexivity; try assumption.
    + rewrite Hhop in E. cbv zeta in E. cbn [fst snd] in E.
      injection E as _ _ <-. unfold more, hop_calls. fsimpl. cbn [calls].
      f_equal.
    + unfold reading. fsimpl. lia.
    + unfold reading. fsimpl. apply zlength_read_block. lia.
    + unfold reading. fsimpl.
      eapply block_position_nonnull; eassumption.
  - rewrite (Read_buffered driver _ _ (read_block d (u32 (node + bic)) bs))
      in E; try reflexivity.
    + injection E as _ _ <-. now rewrite app_nil_r.
    + unfold reading. fsimpl. lia.
    + unfold reading. fsimpl. apply zlength_read_block. lia.
Qed.

Lemma reads_calls m : forall k j f w,
  at_position driver d first size k f ->
  bs * Z.of_nat j < k <= bs * Z.of_nat j + bs ->
  k + Z.of_nat m <= size -> disk w = d ->
  exists l f' w' j',
    reads driver m f w = Done l f' w'
    /\ disk w' = d
    /\ bs * Z.of_nat j' < k + Z.of_nat m <= bs * Z.of_nat j' + bs
    /\ calls w'
       = calls w
         ++ List.concat (map (enter_calls driver first) (seq (S j) (j' - j))).
Proof.
  induction m as [|m IH]; intros k j f w Hat Hj Hk Hd.
  - exists [], f, w, j. simpl. rewrite Z.add_0_r, Nat.sub_diag. simpl.
    rewrite app_nil_r. auto.
  - destruct (Read_step_calls k j f w Hat Hj)
      as (b & f1 & w1 & E1 & Hat1 & Hd1 & L1); [lia|assumption|].
    set (j1 := if k =? bs * Z.of_nat j + bs then S j else j).
    assert (Hj1 : bs * Z.of_nat j1 < k + 1 <= bs * Z.of_nat j1 + bs).
    { unfold j1. destruct (Z.eqb_spec k (bs * Z.of_nat j + bs)); lia. }
    destruct (IH (k + 1) j1 f1 w1 Hat1 Hj1)
      as (l & f2 & w2 & j2 & E2 & Hd2 & Hj2 & L2); [lia|assumption|].
    replace (k + 1 + Z.of_nat m) with (k + Z.of_nat (S m)) in * by lia.
    exists (b :: l), f2, w2, j2.
    split; [|split; [exact Hd2|split; [exact Hj2|]]].
    + simpl. unfold bind. rewrite E1, E2. reflexivity.
    + rewrite L2, L1, <- app_assoc. f_equal.
      assert (j1 <= j2)%nat by nia.
      unfold j1 in *.
      destruct (Z.eqb_spec k (bs * Z.of_nat j + bs)).
      * replace (j2 - j)%nat with (S (j2 - S j)) by lia. reflexivity.
      * reflexivity.
Qed.

Lemma reads_fresh_calls m g w :
  (0 < m)%nat -> Z.of_nat m <= size -> disk w = d ->
  exists l f' w' j',
    reads driver m (fresh driver first size g) w = Done l f' w'
    /\ disk w' = d
    /\ bs * Z.of_nat j' < Z.of_nat m <= bs * Z.of_nat j' + bs
    /\ calls w'
       = calls w
         ++ List.concat (map (enter_calls driver first) (seq 0 (S j'))).
Proof.
  intros Hm Hle Hd.
  pose proof (u32_range (IFsDriver.BlockSize driver)) as Hr.
  destruct m as [|m]; [lia|].
  destruct (Read_fresh driver d first size bs_pos g w)
    as (f1 & w1 & E1 & Hat1 & Hd1); [lia|assumption|].
  assert (L1 : calls w1 = calls w ++ enter_calls driver first O).
  { destruct (new_array_some g bs) as (buf & Hb & Hl); [lia|].
    rewrite (Read_first driver _ _ buf) in E1; try assumption;
      try reflexivity.
    apply (f_equal final_calls) in E1.
    cbv beta iota delta [final_calls] in E1.
    injection E1 as <-. reflexivity. }
  destruct (reads_calls m 1 O f1 w1 Hat1)
    as (l & f2 & w2 & j2 & E2 & Hd2 & Hj2 & L2);
    [lia|lia|assumption|].
  exists (file_byte driver d first 0 :: l), f2, w2, j2.
  split; [|split; [exact Hd2|split; [lia|]]].
  - simpl. unfold bind. rewrite E1, E2. reflexivity.
  - rewrite L2, L1, <- app_assoc. f_equal.
    rewrite Nat.sub_0_r. reflexivity.
Qed.

End Dialogue.

(** X8.  The whole dialogue with the driver.  Constructing the file asks
    the block size once; after that [p >= 1] single-byte [Read]s make, for
    each block [0], ..., [(p - 1) / _blockSize] in turn, exactly the calls of
    entering it: for block 0 its load; for a later block two EndOfFile
    queries and one GetBlocksPerNode query on the node of the block before,
    a GetNextChunk and an EndOfFile query on the next node exactly where
    that block was the last of its chunk, and the load.  Nothing else is
    asked and storage is untouched. *)
Theorem reads_driver_dialogue (driver : IFsDriver.t) (node size : Z)
        (g : Z -> Z) (w : World) (p : nat) :
  0 < u32 (IFsDriver.BlockSize driver) ->
  0 < node < 2 ^ 32 ->
  0 < size < 2 ^ 64 ->
  covers driver node size ->
  (0 < p)%nat -> Z.of_nat p <= size ->
  exists l f w1,
    and_then (File_node driver node size (Some g) w) (reads driver p)
    = Done l f w1
    /\ disk w1 = disk w
    /\ calls w1
       = calls w ++ CallGetParameter
         :: List.concat (map (enter_calls driver node)
                      (seq 0 (S (Z.to_nat ((Z.of_nat p - 1)
                                           / u32 (IFsDriver.BlockSize driver)))))).
Proof.
  intros Hbs Hnode Hsize Hcov Hp Hle.
  assert (Hnn : node <> 0) by lia.
  assert (Hsr : 0 <= size < 2 ^ 64) by lia.
  pose proof (u32_range (IFsDriver.BlockSize driver)) as Hr.
  rewrite File_node_fresh by (rewrite u32_small; lia).
  rewrite u32_small, u64_small by lia. cbn [and_then].
  destruct (reads_fresh_calls driver (disk w) node size Hbs Hnn Hsr Hcov
              p g (more w [CallGetParameter]))
    as (l & f2 & w2 & j2 & E2 & Hd2 & Hj2 & L2);
    [assumption|assumption|reflexivity|].
  exists l, f2, w2. split; [exact E2|]. split; [exact Hd2|].
  rewrite L2. unfold more. cbn [calls].
  rewrite <- app_assoc. f_equal. cbn [app]. f_equal.
  replace (Z.to_nat ((Z.of_nat p - 1) / u32 (IFsDriver.BlockSize driver)))
    with j2; [reflexivity|].
  rewrite <- (Nat2Z.id j2) at 1. f_equal.
  apply Z.div_unique_pos
    with (r := Z.of_nat p - 1
               - u32 (IFsDriver.BlockSize driver) * Z.of_nat j2); lia.
Qed.

Lemma reads_driver_dialogue_witness :
  exists l f w1,
    and_then (File_node Demo.driver 10 20 (Some Demo.garbage) Demo.world)
             (reads Demo.driver 10)
    = Done l f w1
    /\ disk w1 = disk Demo.world
    /\ calls w1
       = calls Demo.world ++ CallGetParameter
         :: List.concat (map (enter_calls Demo.driver 10)
                      (seq 0 (S (Z.to_nat ((Z.of_nat 10 - 1)
                                           / u32 (IFsDriver.BlockSize
                                                    Demo.driver)))))).
Proof.
  apply (reads_driver_dialogue Demo.driver 10 20 Demo.garbage Demo.world 10).
  - reflexivity.
  - lia.
  - lia.
  - apply Demo_covers. lia.
  - lia.
  - lia.
Defined.

Section Traffic.
Variable driver : IFsDriver.t.
Variable d : Z -> Z -> Z.
Variables first size : Z.
Local Abbreviation bs := (u32 (IFsDriver.BlockSize driver)).
Hypothesis bs_pos : 0 < bs.
Hypothesis first_nonnull : first <> 0.
Hypothesis size_range : 0 <= size < 2 ^ 32.
Hypothesis chain : covers driver first size.

Local Abbreviation entered j j' :=
  (List.concat (map (enter_calls driver first) (seq (S j) (j' - j)))).

(** The driver calls of one turn of the bulk loop are those of entering the
    next block. *)
Lemma turn_calls k j node bic node' bic' :
  block_position driver first j = Some (node, bic) ->
  next_position driver (node, bic) = Some (node', bic') ->
  let f := reading driver d first size FileFlagsNone k j node bic in
  CallEndOfFile (_current f) :: hop_calls driver f
    ++ [CallReadBlock (u32 (node' + bic'))]
  = enter_calls driver first (S j).
Proof.
  intros Hj Hnext f. unfold enter_calls, block_address, hop_calls, f, reading.
  fsimpl. cbn [block_position]. rewrite Hj, Hnext. reflexivity.
Qed.

(** The loop of the bulk [Read], with the calls it makes. *)
Lemma Read_loop_calls fuel : forall N br dest k j node bic w,
  block_position driver first j = Some (node, bic) ->
  bs * Z.of_nat j < k <= bs * Z.of_nat j + bs ->
  0 <= br <= N -> N < 2 ^ 32 -> k + (N - br) <= size ->
  (br < N -> k = bs * Z.of_nat j + bs) ->
  (Z.to_nat (N - br) <= fuel)%nat ->
  disk w = d ->
  exists j' node' bic' w',
    Read_loop driver fuel N br dest
      (reading driver d first size FileFlagsNone k j node bic) w
    = Done (N, dest ++ file_bytes driver d first k (Z.to_nat (N - br)))
        (reading driver d first size FileFlagsNone (k + (N - br))
           j' node' bic') w'
    /\ block_position driver first j' = Some (node', bic')
    /\ bs * Z.of_nat j' < k + (N - br) <= bs * Z.of_nat j' + bs
    /\ disk w' = d
    /\ calls w' = calls w ++ entered j j'.
Proof.
  pose proof (u32_range (IFsDriver.BlockSize driver)) as Hbs.
  induction fuel as [|fuel IH];
    intros N br dest k j node bic w Hj Hk Hbr HN Hsz Hfull Hfuel Hd.
  - assert (br = N) by lia. subst br.
    rewrite Read_loop_stop by (rewrite Z.ltb_irrefl; reflexivity).
    exists j, node, bic, w. rewrite Z.sub_diag, Z.add_0_r, Nat.sub_diag.
    simpl. rewrite !app_nil_r. auto.
  - destruct (Z.eq_dec br N) as [->|Hne].
    { rewrite Read_loop_stop by (rewrite Z.ltb_irrefl; reflexivity).
      exists j, node, bic, w. rewrite Z.sub_diag, Z.add_0_r, Nat.sub_diag.
      simpl. rewrite !app_nil_r. auto. }
    assert (Hlt : br < N) by lia. specialize (Hfull Hlt).
    assert (Hn : block_position driver first (S j) <> None)
      by (apply chain; lia).
    simpl in Hn. rewrite Hj in Hn.
    destruct (next_position driver (node, bic)) as [[node' bic']|] eqn:Hnext;
      [|congruence].
    destruct (hop_reading driver d first size k j node bic node' bic' Hnext)
      as [He Hhop].
    pose proof (turn_calls k j node bic node' bic' Hj Hnext) as Hturn.
    cbv zeta in Hturn.
    set (c := Z.min (N - br) bs).
    set (f0 := reading driver d first size FileFlagsNone k j node bic) in *.
    set (f1 := set_positionInFile (u64 (bs * Z.of_nat j + bs))
                 (set_blockInChunk bic' (set_current node' f0))).
    assert (Hcs : chunk_size N br f1 = c /\ chunk_flags N br f1 = f1).
    { unfold chunk_size, chunk_flags, f1, f0, reading. fsimpl. unwrap.
      destruct (Z.ltb_spec (bs * Z.of_nat j + bs) size); [|lia].
      unwrap. rewrite Z.gtb_ltb.
      destruct (Z.ltb_spec (size - (bs * Z.of_nat j + bs))
                  (Z.min (N - br) bs)); [lia|]. auto. }
    destruct Hcs as [Hc1 Hc2].
    rewrite (Read_loop_next driver fuel N br dest f0 w
               (read_block d (u32 (node + bic)) bs)).
    + rewrite Hhop. cbn [fst snd]. fold f1. rewrite Hc1, Hc2.
      assert (Hc : 1 <= c <= bs) by (unfold c; lia).
      assert (Ef : set_positionInBuffer c (after_load (disk w) f1)
                   = reading driver d first size FileFlagsNone (k + c) (S j)
                       node' bic').
      { unfold after_load, f1, f0, reading. fsimpl. unwrap. rewrite Hd.
        f_equal; lia. }
      assert (Eb : firstn (Z.to_nat c)
                     (read_block (disk w)
                        (u32 (_current f1 + _blockInChunk f1)) (_blockSize f1))
                   = file_bytes driver d first k (Z.to_nat c)).
      { unfold f1, f0, reading. fsimpl. rewrite Hd.
        change (read_block d (u32 (node' + bic')) bs)
          with (skipn (Z.to_nat 0) (read_block d (u32 (node' + bic')) bs)).
        rewrite (file_bytes_block driver d first bs_pos (S j) node' bic' 0 c);
          [f_equal; lia|simpl; now rewrite Hj|lia|lia|lia]. }
      assert (Ea : u32 (_current f1 + _blockInChunk f1) = u32 (node' + bic'))
        by reflexivity.
      rewrite Ef, Eb, Ea, Hturn, (u32_small (br + c)) by lia.
      destruct (IH N (br + c)
                  (dest ++ file_bytes driver d first k (Z.to_nat c))
                  (k + c) (S j) node' bic'
                  (more w (enter_calls driver first (S j))))
        as (j2 & node2 & bic2 & w2 & E & Hj2 & Hk2 & Hd2 & L2);
        try lia; try exact Hd.
      * simpl. now rewrite Hj.
      * exists j2, node2, bic2, w2. rewrite E.
        replace (k + c + (N - (br + c))) with (k + (N - br)) in * by lia.
        split; [|split; [assumption|split; [assumption|split; [assumption|]]]].
        -- f_equal. f_equal. rewrite <- app_assoc. f_equal.
           replace (Z.to_nat (N - br))
             with (Z.to_nat c + Z.to_nat (N - (br + c)))%nat by lia.
           rewrite file_bytes_app. f_equal. f_equal. lia.
        -- rewrite L2. unfold more. cbn [calls]. rewrite <- app_assoc.
           f_equal.
           assert (S j <= j2)%nat by nia.
           replace (j2 - j)%nat with (S (j2 - S j)) by lia. reflexivity.
    + reflexivity.
    + unfold f0, reading. fsimpl. apply zlength_read_block. lia.
    + reflexivity.
    + unfold f0, reading. fsimpl. unwrap.
      destruct (Z.ltb_spec br N); [|lia].
      destruct (Z.ltb_spec (k - bs * Z.of_nat j + bs * Z.of_nat j) size);
        [reflexivity|lia].
    + unfold f0, reading. fsimpl.
      eapply block_position_nonnull; eassumption.
    + exact He.
    + now rewrite Hhop.
    + rewrite Hhop. cbn [fst snd]. fold f1. rewrite Hc1.
      unfold f1, f0, reading. fsimpl. lia.
Qed.

(** The bulk [Read] of [N] bytes at offset [k], when [N] bytes remain, with
    the calls it makes. *)
Lemma Read_bulk_calls fuel N k j f w :
  at_position driver d first size k f ->
  bs * Z.of_nat j < k <= bs * Z.of_nat j + bs ->
  0 <= N -> k + N <= size -> (Z.to_nat N <= fuel)%nat -> disk w = d ->
  exists f' w' j',
    Read_bulk driver fuel N f w
    = Done (N, file_bytes driver d first k (Z.to_nat N)) f' w'
    /\ at_position driver d first size (k + N) f'
    /\ disk w' = d
    /\ bs * Z.of_nat j' < k + N <= bs * Z.of_nat j' + bs
    /\ calls w' = calls w ++ entered j j'.
Proof.
  intros (j0 & node & bic & Hj & Hk & ->) Hkj HN Hsz Hfuel Hd.
  assert (j0 = j) by (apply (block_index_unique bs j0 j k); assumption).
  subst j0.
  pose proof (u32_range (IFsDriver.BlockSize driver)) as Hbs.
  set (fl := if size <=? k then FileFlagEof else FileFlagsNone).
  set (r := k - bs * Z.of_nat j).
  set (n0 := Z.min N (bs - r)).
  assert (Hn0 : 0 <= n0 <= bs - r) by (unfold n0, r; lia).
  set (f0 := reading driver d first size fl k j node bic).
  assert (Hbuf : _blockBuffer f0 = Some (read_block d (u32 (node + bic)) bs))
    by reflexivity.
  assert (Hpib : _positionInBuffer f0 = r) by reflexivity.
  assert (Hpif : _positionInFile f0 = bs * Z.of_nat j) by reflexivity.
  assert (Hsize : _size f0 = size) by reflexivity.
  assert (Hbsz : _blockSize f0 = bs) by reflexivity.
  unfold Read_bulk. cbv zeta. rewrite bind_get. cbv beta.
  rewrite Hbuf, !Hpib, !Hpif, !Hsize, !Hbsz.
  rewrite (u32_small N) by lia.
  replace (u64 (r + bs * Z.of_nat j)) with k by (unfold r; unwrap; lia).
  replace (if k <? size then u32 (size - k) else 0) with (size - k).
  2:{ destruct (Z.ltb_spec k size); unwrap; lia. }
  rewrite (u32_small (bs - r)) by (unfold r; lia). fold n0.
  rewrite Z.gtb_ltb. destruct (Z.ltb_spec (size - k) n0); [lia|].
  erewrite bind_Done; cycle 1.
  { apply (buffer_copy_eq r n0 f0 w (read_block d (u32 (node + bic)) bs));
      [reflexivity|unfold r; lia|lia|].
    rewrite zlength_read_block; unfold r; lia. }
  rewrite bind_modify.
  rewrite (u32_small (r + n0)) by (unfold r; lia).
  replace (set_positionInBuffer (r + n0) f0)
    with (reading driver d first size fl (k + n0) j node bic)
    by (unfold f0, reading; fsimpl; f_equal; unfold r; lia).
  rewrite (file_bytes_block driver d first bs_pos j node bic r n0 Hj)
    by (unfold r; lia).
  replace (bs * Z.of_nat j + r) with k by (unfold r; lia).
  destruct (Z.eq_dec n0 N) as [Hfull|Hpart].
  - (* everything came out of the buffered block *)
    rewrite Hfull.
    rewrite (bind_Done _ _ _ _ _ _ _
               (Read_loop_stop driver fuel N N _ _ _
                  ltac:(rewrite Z.ltb_irrefl; reflexivity))).
    rewrite bind_get. cbv beta. unfold reading at 1 2 3. fsimpl.
    replace (u64 (k + N - bs * Z.of_nat j + bs * Z.of_nat j)) with (k + N)
      by (unwrap; lia).
    rewrite Z.geb_leb.
    destruct (Z.leb_spec size (k + N)) as [Hend|Hend]; mstep;
      (eexists _, _, j; split; [reflexivity|]);
      (split; [|split; [exact Hd|split; [unfold r in *; lia|]]]);
      try (rewrite Nat.sub_diag; simpl; now rewrite app_nil_r);
      exists j, node, bic; (split; [assumption|]);
      (split; [unfold r in *; lia|]);
      unfold fl; destruct (Z.leb_spec size (k + N)), (Z.leb_spec size k);
      try lia; reflexivity.
  - (* the loop fetches the rest *)
    assert (Hfl : fl = FileFlagsNone).
    { unfold fl. destruct (Z.leb_spec size k); [lia|reflexivity]. }
    rewrite Hfl.
    destruct (Read_loop_calls fuel N n0
                (file_bytes driver d first k (Z.to_nat n0))
                (k + n0) j node bic w Hj)
      as (j2 & node2 & bic2 & w2 & E & Hj2 & Hk2 & Hd2 & L2);
      try (unfold n0, r in *; lia); try exact Hd.
    rewrite (bind_Done _ _ _ _ _ _ _ E).
    rewrite bind_get. cbv beta. unfold reading at 1 2 3. fsimpl.
    replace (k + n0 + (N - n0)) with (k + N) in * by lia.
    replace (u64 (k + N - bs * Z.of_nat j2 + bs * Z.of_nat j2)) with (k + N)
      by (unwrap; lia).
    rewrite Z.geb_leb.
    replace (file_bytes driver d first k (Z.to_nat n0)
             ++ file_bytes driver d first (k + n0) (Z.to_nat (N - n0)))
      with (file_bytes driver d first k (Z.to_nat N)).
    2:{ replace (Z.to_nat N) with (Z.to_nat n0 + Z.to_nat (N - n0))%nat
          by lia.
        rewrite file_bytes_app. do 2 f_equal. lia. }
    destruct (Z.leb_spec size (k + N)) as [Hend|Hend]; mstep;
      (eexists _, _, j2; split; [reflexivity|]);
      (split; [|split; [exact Hd2|split; [lia|exact L2]]]);
      exists j2, node2, bic2; (split; [assumption|]); (split; [lia|]);
      destruct (Z.leb_spec size (k + N)); try lia; reflexivity.
Qed.

(** The same on the freshly constructed file of at least one block. *)
Lemma Read_bulk_fresh_calls fuel N g w :
  0 < N -> N <= size -> bs <= size -> (Z.to_nat N <= fuel)%nat ->
  disk w = d ->
  exists f' w' j',
    Read_bulk driver fuel N (fresh driver first size g) w
    = Done (N, file_bytes driver d first 0 (Z.to_nat N)) f' w'
    /\ at_position driver d first size N f'
    /\ disk w' = d
    /\ bs * Z.of_nat j' < N <= bs * Z.of_nat j' + bs
    /\ calls w'
       = calls w
         ++ List.concat (map (enter_calls driver first) (seq 0 (S j'))).
Proof.
  intros HN Hsz Hblock Hfuel Hd.
  pose proof (u32_range (IFsDriver.BlockSize driver)) as Hbs.
  set (f0 := fresh driver first size g).
  set (buf0 := map (fun i => g (Z.of_nat i)) (seq 0 (Z.to_nat bs))).
  assert (Hbuf : _blockBuffer f0 = Some buf0) by reflexivity.
  assert (Hlen : zlength buf0 = bs).
  { unfold zlength, buf0. rewrite length_map, length_seq. lia. }
  assert (Hpib : _positionInBuffer f0 = bs) by reflexivity.
  assert (Hpif : _positionInFile f0 = u64 (-1)) by reflexivity.
  assert (Hsize : _size f0 = size) by reflexivity.
  assert (Hbsz : _blockSize f0 = bs) by reflexivity.
  assert (Hcur : _current f0 = 0) by reflexivity.
  assert (Hpos : u64 (bs + u64 (-1)) = bs - 1)
    by (apply u64_minus_one_plus; lia).
  unfold Read_bulk. cbv zeta. rewrite bind_get. cbv beta.
  rewrite Hbuf, !Hpib, !Hpif, !Hsize, !Hbsz, Hpos.
  rewrite (u32_small N) by lia.
  destruct (Z.ltb_spec (bs - 1) size); [|lia].
  rewrite Z.sub_diag, (u32_small 0) by lia.
  rewrite (Z.min_r N 0) by lia.
  rewrite Z.gtb_ltb.
  destruct (Z.ltb_spec (u32 (size - (bs - 1))) 0);
    [pose proof (u32_range (size - (bs - 1))); lia|].
  erewrite bind_Done; cycle 1.
  { apply (buffer_copy_eq bs 0 f0 w buf0); [assumption|lia|lia|lia]. }
  rewrite bind_modify. rewrite Z.add_0_r, (u32_small bs) by lia.
  change (firstn (Z.to_nat 0) (skipn (Z.to_nat bs) buf0)) with (@nil Z).
  replace (set_positionInBuffer bs f0) with f0 by reflexivity.
  destruct fuel as [|fuel]; [lia|].
  set (c := Z.min N bs).
  set (f1 := set_positionInFile 0 (set_current (_firstNode f0) f0)).
  assert (Hcs : chunk_size N 0 f1 = c /\ chunk_flags N 0 f1 = f1).
  { unfold chunk_size, chunk_flags, f1, f0, fresh. fsimpl.
    destruct (Z.ltb_spec 0 size); [|lia].
    rewrite !Z.sub_0_r, (u32_small size) by lia.
    rewrite Z.gtb_ltb. fold c.
    destruct (Z.ltb_spec size c); [unfold c in *; lia|]. auto. }
  destruct Hcs as [Hc1 Hc2].
  assert (Hc : 1 <= c <= bs) by (unfold c; lia).
  assert (Hloop : exists j2 node2 bic2 w2,
             Read_loop driver (S fuel) N 0 [] f0 w
             = Done (N, file_bytes driver d first 0 (Z.to_nat N))
                 (reading driver d first size FileFlagsNone N j2 node2 bic2)
                 w2
             /\ block_position driver first j2 = Some (node2, bic2)
             /\ bs * Z.of_nat j2 < N <= bs * Z.of_nat j2 + bs
             /\ disk w2 = d
             /\ calls w2
                = calls w
                  ++ List.concat (map (enter_calls driver first)
                                    (seq 0 (S j2)))).
  { rewrite (Read_loop_first driver fuel N 0 [] f0 w buf0); try assumption;
      try reflexivity.
    - fold f1. rewrite Hc1, Hc2.
      assert (Ef : set_positionInBuffer c (after_load (disk w) f1)
                   = reading driver d first size FileFlagsNone c O first 0).
      { unfold after_load, f1, f0, fresh, reading. fsimpl. rewrite Hd.
        f_equal; lia. }
      assert (Eb : firstn (Z.to_nat c)
                     (read_block (disk w)
                        (u32 (_current f1 + _blockInChunk f1))
                        (_blockSize f1))
                   = file_bytes driver d first 0 (Z.to_nat c)).
      { unfold f1, f0, fresh. fsimpl. rewrite Hd.
        change (read_block d (u32 (first + 0)) bs)
          with (skipn (Z.to_nat 0) (read_block d (u32 (first + 0)) bs)).
        rewrite (file_bytes_block driver d first bs_pos O first 0 0 c);
          [f_equal; lia|reflexivity|lia|lia|lia]. }
      rewrite Ef, Eb, Z.add_0_l, (u32_small c) by lia. simpl app.
      match goal with
      | |- context [Read_loop _ _ _ _ _ _ ?w1] =>
          destruct (Read_loop_calls fuel N c
                      (file_bytes driver d first 0 (Z.to_nat c))
                      c O first 0 w1 eq_refl)
            as (j2 & node2 & bic2 & w2 & E & Hj2 & Hk2 & Hd2 & L2)
      end; try lia; try exact Hd.
      replace (c + (N - c)) with N in * by lia.
      exists j2, node2, bic2, w2. rewrite E.
      split; [|split; [assumption|split; [assumption|split; [assumption|]]]].
      + do 2 f_equal.
        replace (Z.to_nat N) with (Z.to_nat c + Z.to_nat (N - c))%nat by lia.
        rewrite file_bytes_app. do 2 f_equal. lia.
      + rewrite L2. unfold more. cbn [calls]. rewrite <- app_assoc.
        f_equal. rewrite Nat.sub_0_r. reflexivity.
    - rewrite Hpib, Hpif, Hsize, Hpos.
      destruct (Z.ltb_spec 0 N); [|lia].
      destruct (Z.ltb_spec (bs - 1) size); [reflexivity|lia].
    - fold f1. rewrite Hc1. unfold f1, f0, fresh. fsimpl. lia. }
  destruct Hloop as (j2 & node2 & bic2 & w2 & E & Hj2 & Hk2 & Hd2 & L2).
  rewrite (bind_Done _ _ _ _ _ _ _ E).
  rewrite bind_get. cbv beta. unfold reading at 1 2 3. fsimpl.
  replace (u64 (N - bs * Z.of_nat j2 + bs * Z.of_nat j2)) with N
    by (unwrap; lia).
  rewrite Z.geb_leb.
  destruct (Z.leb_spec size N) as [Hend|Hend]; mstep;
    (eexists _, _, j2; split; [reflexivity|]);
    (split; [|split; [exact Hd2|split; [lia|exact L2]]]);
    exists j2, node2, bic2; (split; [assumption|]); (split; [lia|]);
    destruct (Z.leb_spec size N); try lia; reflexivity.
Qed.

End Traffic.

Lemma Read_bulk_fresh_zero driver first size g fuel w :
  0 < u32 (IFsDriver.BlockSize driver) ->
  u32 (IFsDriver.BlockSize driver) <= size ->
  Read_bulk driver fuel 0 (fresh driver first size g) w
  = Done (0, []) (fresh driver first size g) w.
Proof.
  intros Hbs Hblock.
  pose proof (u32_range (IFsDriver.BlockSize driver)) as Hr.
  set (bs := u32 (IFsDriver.BlockSize driver)) in *.
  set (f0 := fresh driver first size g).
  set (buf0 := map (fun i => g (Z.of_nat i)) (seq 0 (Z.to_nat bs))).
  assert (Hbuf : _blockBuffer f0 = Some buf0) by reflexivity.
  assert (Hlen : zlength buf0 = bs).
  { unfold zlength, buf0. rewrite length_map, length_seq. lia. }
  assert (Hpib : _positionInBuffer f0 = bs) by reflexivity.
  assert (Hpif : _positionInFile f0 = u64 (-1)) by reflexivity.
  assert (Hsize : _size f0 = size) by reflexivity.
  assert (Hbsz : _blockSize f0 = bs) by reflexivity.
  assert (Hpos : u64 (bs + u64 (-1)) = bs - 1)
    by (apply u64_minus_one_plus; lia).
  unfold Read_bulk. cbv zeta. rewrite bind_get. cbv beta.
  rewrite Hbuf, !Hpib, !Hpif, !Hsize, !Hbsz, Hpos.
  rewrite (u32_small 0) by lia.
  destruct (Z.ltb_spec (bs - 1) size); [|lia].
  rewrite Z.sub_diag, (u32_small 0) by lia.
  rewrite (Z.min_r 0 0) by lia.
  rewrite Z.gtb_ltb.
  destruct (Z.ltb_spec (u32 (size - (bs - 1))) 0);
    [pose proof (u32_range (size - (bs - 1))); lia|].
  erewrite bind_Done; cycle 1.
  { apply (buffer_copy_eq bs 0 f0 w buf0); [assumption|lia|lia|lia]. }
  rewrite bind_modify. rewrite Z.add_0_r, (u32_small bs) by lia.
  change (firstn (Z.to_nat 0) (skipn (Z.to_nat bs) buf0)) with (@nil Z).
  replace (set_positionInBuffer bs f0) with f0 by reflexivity.
  rewrite (bind_Done _ _ _ _ _ _ _
             (Read_loop_stop driver fuel 0 0 [] f0 w eq_refl)).
  rewrite bind_get. cbv beta. rewrite Hpib, Hpif, Hsize, Hpos, Z.geb_leb.
  destruct (Z.leb_spec size (bs - 1)); [lia|]. reflexivity.
Qed.

Lemma same_world (w1 w2 : World) :
  disk w1 = disk w2 -> calls w1 = calls w2 -> w1 = w2.
Proof. destruct w1, w2. simpl. now intros -> ->. Qed.

(** X9.  The bulk [Read] talks to the driver as the single-byte [Read]s
    do.  Under the conditions of C1 (a cursor [p] reads into a file of
    [size < 2^32], [N] bytes remaining), the bulk [Read] of [N] bytes and
    [N] single-byte [Read]s return the same bytes and leave the same object
    and the same world: the same driver calls in the same order. *)
Theorem bulk_read_talks_like_reads (driver : IFsDriver.t) (node size : Z)
        (g : Z -> Z) (w : World) (p N fuel : nat) :
  0 < u32 (IFsDriver.BlockSize driver) ->
  0 < node < 2 ^ 32 ->
  0 < size < 2 ^ 32 ->
  covers driver node size ->
  Z.of_nat p + Z.of_nat N <= size ->
  (p = O -> u32 (IFsDriver.BlockSize driver) <= size) ->
  (N <= fuel)%nat ->
  exists l f w1 bytes f' w2,
    and_then (File_node driver node size (Some g) w) (reads driver p)
    = Done l f w1
    /\ Read_bulk driver fuel (Z.of_nat N) f w1
       = Done (Z.of_nat N, bytes) f' w2
    /\ reads driver N f w1 = Done bytes f' w2.
Proof.
  intros Hbs Hnode Hsize Hcov Hle Hfirst Hfuel.
  assert (Hnn : node <> 0) by lia.
  assert (Hsr : 0 <= size < 2 ^ 32) by lia.
  assert (Hsr' : 0 <= size < 2 ^ 64) by lia.
  destruct (reads_from_fresh driver node size g w p Hbs Hnode Hsr' Hcov
              ltac:(lia))
    as (f & w1 & E & Hat & Hd).
  exists (file_bytes driver (disk w) node 0 p), f, w1.
  destruct (Z.eqb_spec (Z.of_nat p) 0) as [Hp0|Hp0].
  - (* from the fresh object *)
    subst f. assert (Hblock := Hfirst ltac:(lia)).
    destruct N as [|N].
    + exists [], (fresh driver node size g), w1.
      split; [exact E|]. split; [|reflexivity].
      now apply Read_bulk_fresh_zero.
    + destruct (Read_bulk_fresh_calls driver (disk w) node size Hbs Hnn Hsr
                  Hcov fuel (Z.of_nat (S N)) g w1)
        as (f1 & w2 & j1 & E1 & Hat1 & Hd1 & Hj1 & L1);
        try lia; try assumption.
      destruct (reads_fresh_calls driver (disk w) node size Hbs Hnn Hsr' Hcov
                  (S N) g w1)
        as (l2 & f2 & w3 & j2 & E2 & Hd2 & Hj2 & L2);
        try lia; try assumption.
      destruct (reads_fresh driver (disk w) node size Hbs Hnn Hsr' Hcov
                  (S N) g w1)
        as (f3 & w4 & E3 & Hat3 & _); try lia; try assumption.
      rewrite E3 in E2. injection E2 as <- <- <-.
      assert (j2 = j1)
        by (apply (block_index_unique (u32 (IFsDriver.BlockSize driver))
                     j2 j1 (Z.of_nat (S N))); assumption).
      subst j2.
      assert (f3 = f1) by (eapply at_position_unique; eassumption).
      subst f3.
      assert (w4 = w2) by (apply same_world; congruence). subst w4.
      rewrite Nat2Z.id in E1.
      exists (file_bytes driver (disk w) node 0 (S N)), f1, w2.
      split; [exact E|]. split; [exact E1|exact E3].
  - (* from a cursor inside the file *)
    assert (Hat' := Hat).
    destruct Hat' as (j & nd & bic & Hj & Hk & _).
    destruct (Read_bulk_calls driver (disk w) node size Hbs Hnn Hsr Hcov
                fuel (Z.of_nat N) (Z.of_nat p) j f w1 Hat Hk)
      as (f1 & w2 & j1 & E1 & Hat1 & Hd1 & Hj1 & L1);
      try lia; try assumption.
    destruct (reads_calls driver (disk w) node size Hbs Hnn Hsr' Hcov
                N (Z.of_nat p) j f w1 Hat Hk)
      as (l2 & f2 & w3 & j2 & E2 & Hd2 & Hj2 & L2);
      try lia; try assumption.
    destruct (reads_seq driver (disk w) node size Hbs Hnn Hsr' Hcov
                N (Z.of_nat p) f w1 Hat)
      as (f3 & w4 & E3 & Hat3 & _); try lia; try assumption.
    rewrite E3 in E2. injection E2 as <- <- <-.
    assert (j2 = j1)
      by (apply (block_index_unique (u32 (IFsDriver.BlockSize driver))
                   j2 j1 (Z.of_nat p + Z.of_nat N)); assumption).
    subst j2.
    assert (f3 = f1) by (eapply at_position_unique; eassumption).
    subst f3.
    assert (w4 = w2) by (apply same_world; congruence). subst w4.
    rewrite Nat2Z.id in E1.
    exists (file_bytes driver (disk w) node (Z.of_nat p) N), f1, w2.
    split; [exact E|]. split; [exact E1|exact E3].
Qed.

Lemma bulk_read_talks_like_reads_witness :
  exists l f w1 bytes f' w2,
    and_then (File_node Demo.driver 10 20 (Some Demo.garbage) Demo.world)
             (reads Demo.driver 3)
    = Done l f w1
    /\ Read_bulk Demo.driver 11 (Z.of_nat 11) f w1
       = Done (Z.of_nat 11, bytes) f' w2
    /\ reads Demo.driver 11 f w1 = Done bytes f' w2.
Proof.
  apply (bulk_read_talks_like_reads Demo.driver 10 20 Demo.garbage
           Demo.world 3 11 11).
  - reflexivity.
  - lia.
  - lia.
  - apply Demo_covers. lia.
  - lia.
  - discriminate.
  - lia.
Defined.

(** *** [Open] and the constructors *)

Lemma has_flag_lor_mono x k j :
  has_flag x j = true -> has_flag (Z.lor x k) j = true.
Proof.
  unfold has_flag. rewrite Z.land_lor_distr_l.
  rewrite !negb_true_iff, !Z.eqb_neq, Z.lor_eq_0_iff. tauto.
Qed.

(** X10.  [Open] always returns.  It answers [true] exactly when the object
    has a buffer afterwards and the resolved node is not null.  It never
    clears a flag: every flag set before is set after, and a successful
    [Open] leaves the flags as they were and stores the resolved node and
    size.  A failed one leaves EndOfFile set, with NotExists when the path
    did not resolve and OutOfMemory when there is no buffer.  [Open] sets
    [_positionInBuffer] to the block size but leaves [_current],
    [_positionInFile] and [_blockInChunk] where they were, and it keeps a
    buffer the object already has. *)
Theorem Open_keeps_flags_and_cursor (driver : IFsDriver.t)
        (Find : string -> Z * Z) (filePath : string)
        (alloc : option (Z -> Z)) (f : File.t) (w : World) :
  exists r f' w',
    Open driver Find filePath alloc f w = Done r f' w'
    /\ r = match _blockBuffer f' with
           | Some _ => negb (u32 (fst (Find filePath)) =? 0)
           | None => false
           end
    /\ (forall k, has_flag (_flags f) k = true ->
                  has_flag (_flags f') k = true)
    /\ (if r
        then _flags f' = _flags f
             /\ _firstNode f' = u32 (fst (Find filePath))
             /\ _size f' = u64 (snd (Find filePath))
        else EndOfFile f' = true
             /\ match _blockBuffer f' with
                | Some _ => has_flag (_flags f') FileNotExists = true
                | None => has_flag (_flags f') FileOutOufMem = true
                end)
    /\ (_current f', _positionInFile f', _blockInChunk f')
       = (_current f, _positionInFile f, _blockInChunk f)
    /\ _positionInBuffer f' = u32 (IFsDriver.BlockSize driver)
    /\ (forall buf, _blockBuffer f = Some buf -> _blockBuffer f' = Some buf).
Proof.
  assert (Hset : forall x y k, Z.land y k <> 0 ->
                 has_flag (Z.lor x y) k = true)
    by (intros; now apply has_flag_lor_set).
  unfold Open. mred. fsimpl.
  destruct (_blockBuffer f) as [buf|] eqn:Hb; fsimpl; rewrite ?Hb.
  - destruct (u32 (fst (Find filePath)) =? 0) eqn:Hn; fsimpl;
      eexists _, _, _; (split; [reflexivity|]); fsimpl; rewrite ?Hb, ?Hn;
      repeat split; auto using has_flag_lor_mono;
      unfold EndOfFile; fsimpl; now apply Hset.
  - destruct (new_array alloc _) as [buf|] eqn:Ha; fsimpl.
    + destruct (u32 (fst (Find filePath)) =? 0) eqn:Hn; fsimpl;
        eexists _, _, _; (split; [reflexivity|]); fsimpl; rewrite ?Hn;
        repeat split; auto using has_flag_lor_mono; try discriminate;
        unfold EndOfFile; fsimpl; now apply Hset.
    + eexists _, _, _. split; [reflexivity|]. fsimpl.
      repeat split; auto using has_flag_lor_mono; try discriminate;
        unfold EndOfFile; fsimpl; now apply Hset.
Qed.

(** X11.  [File(driver)] and [File(driver, node, size)] with a failed
    allocation query the block size and build an object without a buffer,
    with EndOfFile set (and NotExists, respectively OutOfMemory).  On it
    [Read()] returns 0, and it, the bulk [Read], [Seek], [Write], [Flush] in
    any order and the destructor change neither the object nor the world:
    they make no driver call. *)
Theorem construct_without_buffer_is_inert (driver : IFsDriver.t)
        (Find : string -> Z * Z) (node size : Z) (ops : list Op)
        (w w1 : World) :
  forallb (fun o => negb (is_open o)) ops = true ->
  (exists f0,
     File_unbound driver w = Done tt f0 (log w CallGetParameter)
     /\ _flags f0 = Z.lor FileFlagEof FileNotExists
     /\ run_ops driver Find ops f0 w1 = Done tt f0 w1
     /\ Read driver f0 w1 = Done 0 f0 w1
     /\ destroy driver f0 w1 = Done tt f0 w1)
  /\ (exists f0,
        File_node driver node size None w = Done tt f0 (log w CallGetParameter)
        /\ has_flag (_flags f0) FileOutOufMem = true
        /\ EndOfFile f0 = true
        /\ run_ops driver Find ops f0 w1 = Done tt f0 w1
        /\ Read driver f0 w1 = Done 0 f0 w1
        /\ destroy driver f0 w1 = Done tt f0 w1).
Proof.
  intros Hops. split.
  - unfold File_unbound. mred. fsimpl. eexists. split; [reflexivity|].
    split; [reflexivity|].
    match goal with
    | |- run_ops _ _ _ ?f0 _ = _ /\ _ =>
        assert (D : dead f0) by (split; simpl; [reflexivity|lia])
    end.
    split; [now apply dead_run_ops|]. split; [now apply dead_Read|].
    reflexivity.
  - unfold File_node. mred. unfold new_array, option_map. fsimpl.
    destruct (u32 node =? 0); fsimpl;
      (eexists; split; [reflexivity|]);
      (split; [reflexivity|]); (split; [reflexivity|]);
      match goal with
      | |- run_ops _ _ _ ?f0 _ = _ /\ _ =>
          assert (D : dead f0) by (split; simpl; [reflexivity|lia])
      end;
      (split; [now apply dead_run_ops|]); (split; [now apply dead_Read|]);
      reflexivity.
Qed.

Lemma construct_without_buffer_is_inert_witness :
  (exists f0,
     File_unbound Demo.driver Demo.world
     = Done tt f0 (log Demo.world CallGetParameter)
     /\ _flags f0 = Z.lor FileFlagEof FileNotExists
     /\ run_ops Demo.driver Demo.Find
          [OpRead; OpSeek 4 9; OpReadBulk 4 6; OpWrite 1; OpFlush] f0 Demo.world
        = Done tt f0 Demo.world
     /\ Read Demo.driver f0 Demo.world = Done 0 f0 Demo.world
     /\ destroy Demo.driver f0 Demo.world = Done tt f0 Demo.world)
  /\ (exists f0,
        File_node Demo.driver 10 20 None Demo.world
        = Done tt f0 (log Demo.world CallGetParameter)
        /\ has_flag (_flags f0) FileOutOufMem = true
        /\ EndOfFile f0 = true
        /\ run_ops Demo.driver Demo.Find
             [OpRead; OpSeek 4 9; OpReadBulk 4 6; OpWrite 1; OpFlush] f0
             Demo.world
           = Done tt f0 Demo.world
        /\ Read Demo.driver f0 Demo.world = Done 0 f0 Demo.world
        /\ destroy Demo.driver f0 Demo.world = Done tt f0 Demo.world).
Proof.
  apply (construct_without_buffer_is_inert Demo.driver Demo.Find 10 20
           [OpRead; OpSeek 4 9; OpReadBulk 4 6; OpWrite 1; OpFlush]
           Demo.world Demo.world).
  reflexivity.
Defined.

(** X12.  [File(driver, path)] leaves its buffer pointer uninitialised.
    On a path that resolves, where the memory of the object reads as a null
    pointer and the allocation succeeds, it builds the object
    [File(driver, node, size)] builds for the resolved node and size, except
    for one flag: its initializer list sets NotExists and [Open] never
    clears it.  Whatever the path, the allocator and that memory, an object
    built by the path constructor has NotExists set.  Where the memory does
    not read as a null pointer, [Open] allocates nothing and the object
    keeps the pointer it found, whatever the allocator would have done; if
    less than a block can be accessed through it, the first [Read] goes out
    of bounds. *)
Theorem File_path_like_File_node (driver : IFsDriver.t)
        (Find : string -> Z * Z) (filePath : string) (g : Z -> Z)
        (junk : Z) (w : World) :
  u32 (fst (Find filePath)) <> 0 ->
  exists f w1 w2,
    File_node driver (fst (Find filePath)) (snd (Find filePath)) (Some g) w
    = Done tt f w1
    /\ File_path driver Find filePath (Some g) junk None w
       = Done tt (or_flags FileNotExists f) w2
    /\ _flags f = FileFlagsNone
    /\ (forall alloc junk' wild w',
          match File_path driver Find filePath alloc junk' wild w' with
          | Done _ f' _ => has_flag (_flags f') FileNotExists = true
          | _ => True
          end)
    /\ (forall alloc junk' mem w',
          exists f' w'',
            File_path driver Find filePath alloc junk' (Some mem) w'
            = Done tt f' w''
            /\ _blockBuffer f' = Some mem
            /\ has_flag (_flags f') FileOutOufMem = false
            /\ if zlength mem <? u32 (IFsDriver.BlockSize driver)
               then Read driver f' w'' = OutOfBounds
               else True).
Proof.
  intros Hn.
  rewrite File_node_fresh by assumption.
  eexists _, _, _. split; [reflexivity|].
  split; [|split; [reflexivity|split]].
  - unfold File_path, Open. mred. fsimpl.
    destruct (Z.eqb_spec (u32 (fst (Find filePath))) 0); [congruence|].
    reflexivity.
  - intros alloc junk' wild w'. unfold File_path, Open. mred. fsimpl.
    destruct wild as [mem|]; fsimpl.
    + destruct (_ =? 0); fsimpl; try reflexivity;
        now apply has_flag_lor_mono.
    + destruct (new_array alloc _); fsimpl; [destruct (_ =? 0)|]; fsimpl;
        try reflexivity; now apply has_flag_lor_mono.
  - intros alloc junk' mem w'. unfold File_path, Open. mred. fsimpl.
    destruct (Z.eqb_spec (u32 (fst (Find filePath))) 0) as [|_];
      [congruence|].
    eexists _, _. split; [reflexivity|]. fsimpl.
    split; [reflexivity|]. split; [reflexivity|].
    destruct (Z.ltb_spec (zlength mem) (u32 (IFsDriver.BlockSize driver)))
      as [Hl|_]; [|exact I].
    unfold Read, load_block, drv_ReadBlock. mred. fsimpl.
    rewrite Z.geb_leb, Z.leb_refl. fsimpl.
    change (0 =? 0) with true. cbv beta iota. mred. fsimpl.
    destruct (Z.leb_spec (u32 (IFsDriver.BlockSize driver)) (zlength mem));
      [lia|reflexivity].
Qed.

Lemma File_path_like_File_node_witness :
  exists f w1 w2,
    File_node Demo.driver (fst (Demo.Find "data.bin"))
      (snd (Demo.Find "data.bin")) (Some Demo.garbage) Demo.world
    = Done tt f w1
    /\ File_path Demo.driver Demo.Find "data.bin" (Some Demo.garbage) 0 None
         Demo.world
       = Done tt (or_flags FileNotExists f) w2
    /\ _flags f = FileFlagsNone
    /\ (forall alloc junk' wild w',
          match
            File_path Demo.driver Demo.Find "data.bin" alloc junk' wild w'
          with
          | Done _ f' _ => has_flag (_flags f') FileNotExists = true
          | _ => True
          end)
    /\ (forall alloc junk' mem w',
          exists f' w'',
            File_path Demo.driver Demo.Find "data.bin" alloc junk' (Some mem)
              w'
            = Done tt f' w''
            /\ _blockBuffer f' = Some mem
            /\ has_flag (_flags f') FileOutOufMem = false
            /\ if zlength mem <? u32 (IFsDriver.BlockSize Demo.driver)
               then Read Demo.driver f' w'' = OutOfBounds
               else True).
Proof.
  apply (File_path_like_File_node Demo.driver Demo.Find "data.bin"
           Demo.garbage 0 Demo.world).
  vm_compute. discriminate.
Defined.

(** *** The end of the chain *)

(** X13.  The chain ends although the buffered block is used up
    ([_positionInBuffer = _blockSize]): the current node is not the end of the
    chain, its blocks are exhausted and the driver reports the next chunk as
    the end.  Then [Read()] returns 0, sets EndOfFile and resets
    [_blockInChunk] to 0, after asking the driver five questions and loading
    nothing; the bulk [Read] of at least one byte, where the position is
    below [_size], returns 0 bytes in the same way, and otherwise returns 0
    bytes without a driver call. *)
Theorem Read_at_chain_end (driver : IFsDriver.t) (f : File.t) (w : World)
        (buf : list Z) (fuel : nat) (N : Z) :
  sound driver f ->
  _blockBuffer f = Some buf ->
  _positionInBuffer f = _blockSize f ->
  _current f <> 0 ->
  IFsDriver.EndOfFile driver (_current f) = false ->
  IFsDriver.GetBlocksPerNode driver (_current f) <= u32 (_blockInChunk f + 1) ->
  IFsDriver.EndOfFile driver (IFsDriver.GetNextChunk driver (_current f))
  = true ->
  let f' := or_flags FileFlagEof (set_blockInChunk 0 f) in
  let seen := [CallEndOfFile (_current f); CallEndOfFile (_current f);
               CallGetBlocksPerNode (_current f);
               CallGetNextChunk (_current f);
               CallEndOfFile (IFsDriver.GetNextChunk driver (_current f))] in
  Read driver f w = Done 0 f' (more w seen)
  /\ EndOfFile f' = true
  /\ Read_bulk driver (S fuel) N f w
     = (if (0 <? u32 N)
           && (u64 (_positionInBuffer f + _positionInFile f) <? _size f)
        then Done (0, []) f' (more w seen)
        else Done (0, [])
               (if _size f <=? u64 (_positionInBuffer f + _positionInFile f)
                then or_flags FileFlagEof f else f) w).
Proof.
  intros H Hb Hp Hc He Hbpn Hnext f' seen.
  assert (Hs := H). destruct Hs as (H1 & H2 & H3 & H4 & H5).
  rewrite Hb in H5.
  assert (Hhop : hop driver f = (false, f')).
  { unfold hop. cbv zeta. fsimpl. rewrite Z.geb_leb.
    destruct (Z.leb_spec (IFsDriver.GetBlocksPerNode driver (_current f))
                (u32 (_blockInChunk f + 1))); [|lia].
    rewrite Hnext. reflexivity. }
  assert (Hcalls : CallEndOfFile (_current f) :: hop_calls driver f = seen).
  { unfold hop_calls, seen. rewrite Z.geb_leb.
    destruct (Z.leb_spec (IFsDriver.GetBlocksPerNode driver (_current f))
                (u32 (_blockInChunk f + 1))); [|lia].
    reflexivity. }
  split; [|split].
  - rewrite (Read_next driver f w buf) by (assumption || lia).
    cbv zeta. rewrite Hhop, Hcalls. reflexivity.
  - unfold EndOfFile, f'. fsimpl. now apply has_flag_lor_set.
  - unfold Read_bulk. cbv zeta. rewrite bind_get. cbv beta. rewrite Hb.
    rewrite Hp, Z.sub_diag, (u32_small 0) by lia.
    pose proof (u32_range N) as HN.
    rewrite (Z.min_r (u32 N) 0) by lia.
    set (pos := u64 (_blockSize f + _positionInFile f)).
    replace (if 0 >? (if pos <? _size f then u32 (_size f - pos) else 0)
             then if pos <? _size f then u32 (_size f - pos) else 0
             else 0) with 0.
    2:{ rewrite Z.gtb_ltb. destruct (pos <? _size f);
          [pose proof (u32_range (_size f - pos));
           destruct (Z.ltb_spec (u32 (_size f - pos)) 0); lia|reflexivity]. }
    erewrite bind_Done; cycle 1.
    { apply (buffer_copy_eq (_blockSize f) 0 f w buf); [assumption|lia|lia|lia]. }
    rewrite bind_modify, Z.add_0_r, (u32_small (_blockSize f)).
    2:{ rewrite H1. apply u32_range. }
    replace (set_positionInBuffer (_blockSize f) f) with f
      by (rewrite <- Hp; destruct f; reflexivity).
    destruct ((0 <? u32 N) && (pos <? _size f)) eqn:Hcond.
    + erewrite bind_Done; cycle 1.
      { apply (Read_loop_chain_end driver fuel (u32 N) 0 [] f w);
          try assumption; [|congruence|now rewrite Hhop].
        now rewrite Hp. }
      rewrite Hhop, Hcalls. cbn [snd]. rewrite bind_get. cbv beta.
      unfold f' at 1 2 3. fsimpl. rewrite Hp, Z.geb_leb. fold pos.
      apply andb_true_iff in Hcond. destruct Hcond as [_ Hlt].
      apply Z.ltb_lt in Hlt.
      destruct (Z.leb_spec (_size f) pos); [lia|]. reflexivity.
    + erewrite bind_Done; cycle 1.
      { apply Read_loop_stop. now rewrite Hp. }
      rewrite bind_get. cbv beta. rewrite Hp, Z.geb_leb. fold pos.
      destruct (_size f <=? pos); reflexivity.
Qed.

Lemma Read_at_chain_end_witness :
  let f := File.mk 10 30 (Some [21; 22; 23; 24]) 0 20 30 1 4 4 in
  let f' := or_flags FileFlagEof (set_blockInChunk 0 f) in
  let seen := [CallEndOfFile 30; CallEndOfFile 30; CallGetBlocksPerNode 30;
               CallGetNextChunk 30; CallEndOfFile Demo.EndOfChain] in
  Read Demo.driver f Demo.world = Done 0 f' (more Demo.world seen)
  /\ EndOfFile f' = true
  /\ Read_bulk Demo.driver 1 8 f Demo.world
     = (if (0 <? u32 8)
           && (u64 (_positionInBuffer f + _positionInFile f) <? _size f)
        then Done (0, []) f' (more Demo.world seen)
        else Done (0, [])
               (if _size f <=? u64 (_positionInBuffer f + _positionInFile f)
                then or_flags FileFlagEof f else f) Demo.world).
Proof.
  apply (Read_at_chain_end Demo.driver
           (File.mk 10 30 (Some [21; 22; 23; 24]) 0 20 30 1 4 4)
           Demo.world [21; 22; 23; 24] 0 8).
  - unfold sound. repeat split; try reflexivity; vm_compute; discriminate.
  - reflexivity.
  - reflexivity.
  - discriminate.
  - reflexivity.
  - vm_compute. discriminate.
  - reflexivity.
Defined.

(** *** The loops end *)

Lemma zlength_firstn_read_block d node n c :
  0 <= c <= n -> zlength (firstn (Z.to_nat c) (read_block d node n)) = c.
Proof.
  intros H. unfold zlength, read_block.
  rewrite length_firstn, length_map, length_seq. lia.
Qed.

Section Returns.
Variable driver : IFsDriver.t.
Hypothesis block_size_positive : 0 < u32 (IFsDriver.BlockSize driver).
Local Abbreviation bs := (u32 (IFsDriver.BlockSize driver)).

Lemma chunk_size_le N br f1 :
  br < N -> 0 < _blockSize f1 -> chunk_size N br f1 <= N - br.
Proof.
  intros Hlt Hbs. unfold chunk_size. cbv zeta. rewrite Z.gtb_ltb.
  match goal with |- context [Z.ltb ?a ?b] => destruct (Z.ltb_spec a b) end;
    lia.
Qed.

(** A turn of the loop that delivers nothing found the block past [size]. *)
Lemma chunk_size_zero N br f1 :
  br < N -> 0 < _blockSize f1 -> _size f1 < 2 ^ 32 ->
  0 <= _positionInFile f1 ->
  chunk_size N br f1 = 0 -> _size f1 <= _positionInFile f1.
Proof.
  intros Hlt Hbs Hsz Hp. unfold chunk_size. cbv zeta. rewrite Z.gtb_ltb.
  destruct (Z.ltb_spec (_positionInFile f1) (_size f1)); [|lia].
  rewrite u32_small by lia.
  match goal with |- context [Z.ltb ?a ?b] => destruct (Z.ltb_spec a b) end;
    lia.
Qed.

Lemma chunk_flags_size N br f1 :
  _size (chunk_flags N br f1) = _size f1
  /\ _positionInFile (chunk_flags N br f1) = _positionInFile f1.
Proof.
  unfold chunk_flags. cbv zeta. destruct (_ >? _); split; reflexivity.
Qed.

Lemma Read_loop_returns fuel : forall N br dest f w,
  sound driver f -> _blockBuffer f <> None -> _size f < 2 ^ 32 ->
  0 <= br <= N -> N < 2 ^ 32 -> zlength dest = br ->
  (Z.to_nat (N - br) <= fuel)%nat ->
  exists n bytes f' w',
    Read_loop driver fuel N br dest f w = Done (n, bytes) f' w'
    /\ br <= n <= N /\ zlength bytes = n.
Proof.
  induction fuel as [|fuel IH]; intros N br dest f w H Hb Hsz Hbr HN Hlen Hfuel;
    destruct ((br <? N)
              && (u64 (_positionInBuffer f + _positionInFile f) <? _size f))
      eqn:Hcond;
    try (rewrite Read_loop_stop by assumption;
         exists br, dest, f, w; split; [reflexivity|split; [lia|assumption]]).
  - apply andb_true_iff in Hcond. destruct Hcond as [Hc _].
    apply Z.ltb_lt in Hc. lia.
  - assert (Hs := H). destruct Hs as (H1 & H2 & H3 & H4 & H5).
    destruct (_blockBuffer f) as [buf|] eqn:Hbuf; [|congruence].
    assert (Hlt : br < N).
    { apply andb_true_iff in Hcond. destruct Hcond as [Hc _].
      now apply Z.ltb_lt. }
    (* one turn that loads the block [f1] points at *)
    assert (Hturn : forall f1 w1,
      sound driver f1 -> _blockBuffer f1 <> None -> _size f1 = _size f ->
      let n := chunk_size N br f1 in
      let node := u32 (_current f1 + _blockInChunk f1) in
      exists n' bytes f' w',
        Read_loop driver fuel N (u32 (br + n))
          (dest ++ firstn (Z.to_nat n)
                     (read_block (disk w) node (_blockSize f1)))
          (set_positionInBuffer n (after_load (disk w) (chunk_flags N br f1)))
          w1
        = Done (n', bytes) f' w'
        /\ br <= n' <= N /\ zlength bytes = n').
    { intros f1 w1 Hf1 Hb1 Hs1 n node.
      assert (Hf1' := Hf1). destruct Hf1' as (G1 & G2 & G3 & G4 & G5).
      destruct (chunk_flags_frame driver N br f1 Hf1)
        as (Hcf & Hcb & Hcs).
      destruct (chunk_flags_size N br f1) as [Hcz Hcp].
      pose proof (chunk_size_range N br f1 Hlt G2) as Hrange.
      pose proof (chunk_size_le N br f1 Hlt G2) as Hle.
      fold n in Hrange, Hle.
      assert (Hg : sound driver
                     (set_positionInBuffer n
                        (after_load (disk w) (chunk_flags N br f1)))).
      { apply sound_set_positionInBuffer.
        - apply sound_after_load; [assumption|congruence].
        - discriminate.
        - unfold after_load. fsimpl. rewrite Hcs. exact Hrange. }
      rewrite (u32_small (br + n)) by lia.
      destruct (Z.eq_dec n 0) as [Hz|Hnz].
      - (* nothing delivered: the loop stops *)
        rewrite Read_loop_stop.
        + eexists _, _, _, _. split; [reflexivity|]. split; [lia|].
          rewrite Hz. simpl. rewrite app_nil_r. lia.
        + unfold after_load. fsimpl. rewrite Hcz, Hcp, Hz.
          pose proof (chunk_size_zero N br f1 Hlt G2 ltac:(lia) ltac:(lia) Hz).
          rewrite (u64_small (0 + _positionInFile f1)) by lia.
          destruct (Z.ltb_spec (0 + _positionInFile f1) (_size f1)); [lia|].
          apply andb_false_r.
      - match goal with
        | |- context [Read_loop driver fuel N ?b ?l ?g ?v] =>
            destruct (IH N b l g v) as (n' & bytes & f' & w' & E & Hn' & Hl')
        end; try lia.
        + exact Hg.
        + discriminate.
        + unfold after_load. fsimpl. rewrite Hcz. lia.
        + rewrite zlength_app, zlength_firstn_read_block; lia.
        + exists n', bytes, f', w'. split; [exact E|]. split; [lia|exact Hl']. }
    destruct (Z.eq_dec (_current f) 0) as [Hc|Hc].
    + set (f1 := set_positionInFile 0 (set_current (_firstNode f) f)).
      assert (Hf1 : sound driver f1).
      { apply sound_set_positionInFile; [|lia].
        eapply sound_ext; [exact H|reflexivity..]. }
      rewrite (Read_loop_first driver fuel N br dest f w buf);
        try assumption; fold f1.
      * apply Hturn; [assumption| |reflexivity].
        unfold f1. fsimpl. congruence.
      * apply chunk_size_range; [assumption|]. unfold f1. fsimpl. lia.
    + destruct (IFsDriver.EndOfFile driver (_current f)) eqn:He.
      * rewrite (Read_loop_at_end driver) by assumption.
        eexists _, _, _, _. split; [reflexivity|]. split; [lia|assumption].
      * pose proof (sound_hop driver f H) as Hh.
        destruct (hop_frame driver f) as (Fb & Fs & Fz & Fp & _).
        destruct (fst (hop driver f)) eqn:Hgo.
        -- rewrite (Read_loop_next driver fuel N br dest f w buf);
             try assumption.
           ++ apply Hturn; [assumption|congruence|assumption].
           ++ apply chunk_size_range; [assumption|]. lia.
        -- rewrite (Read_loop_chain_end driver); try assumption;
             [|congruence].
           eexists _, _, _, _. split; [reflexivity|].
           split; [lia|assumption].
Qed.

End Returns.

Lemma zlength_firstn_skipn (buf : list Z) off n :
  0 <= off -> 0 <= n -> off + n <= zlength buf ->
  zlength (firstn (Z.to_nat n) (skipn (Z.to_nat off) buf)) = n.
Proof.
  unfold zlength. intros Ho Hn Hl. rewrite length_firstn, length_skipn. lia.
Qed.

(** X14.  The bulk [Read] returns.  On an object that satisfies the cursor
    invariant, with [_size < 2^32] (the width of [totalBytesAvailable]) and
    a non-zero block size, fuel for [bytesToRead] turns is enough for the
    loop to end; the count returned is at most [bytesToRead] and is the
    number of bytes stored at the destination. *)
Theorem Read_bulk_returns (driver : IFsDriver.t) (fuel : nat) (N : Z)
        (f : File.t) (w : World) :
  0 < u32 (IFsDriver.BlockSize driver) ->
  sound driver f ->
  _size f < 2 ^ 32 ->
  (Z.to_nat (u32 N) <= fuel)%nat ->
  exists n bytes f' w',
    Read_bulk driver fuel N f w = Done (n, bytes) f' w'
    /\ 0 <= n <= u32 N
    /\ zlength bytes = n.
Proof.
  intros Hbs H Hsz Hfuel.
  assert (Hs := H). destruct Hs as (H1 & H2 & H3 & H4 & H5).
  pose proof (u32_range (IFsDriver.BlockSize driver)) as Hr.
  pose proof (u32_range N) as HN.
  unfold Read_bulk. cbv zeta. rewrite bind_get. cbv beta.
  destruct (_blockBuffer f) as [buf|] eqn:Hb.
  2:{ eexists _, _, _, _. split; [reflexivity|]. split; [lia|reflexivity]. }
  match goal with
  | |- context [buffer_copy _ ?n] => remember n as n0 eqn:En0
  end.
  assert (Hn0 : 0 <= n0 <= _blockSize f - _positionInBuffer f /\ n0 <= u32 N).
  { subst n0.
    rewrite (u32_small (_blockSize f - _positionInBuffer f)) by lia.
    set (a := if u64 (_positionInBuffer f + _positionInFile f) <? _size f
              then u32 (_size f
                        - u64 (_positionInBuffer f + _positionInFile f))
              else 0).
    assert (Ha : 0 <= a).
    { unfold a. destruct (_ <? _); [apply u32_range|lia]. }
    rewrite Z.gtb_ltb.
    destruct (Z.ltb_spec a
                (Z.min (u32 N) (_blockSize f - _positionInBuffer f))); lia. }
  erewrite bind_Done; cycle 1.
  { apply (buffer_copy_eq _ n0 f w buf); [assumption|lia|lia|lia]. }
  rewrite bind_modify.
  rewrite (u32_small (_positionInBuffer f + n0)) by lia.
  unfold bind at 1.
  match goal with
  | |- context [Read_loop driver fuel ?a ?b ?c ?g ?v] =>
      destruct (Read_loop_returns driver fuel a b c g v)
        as (n & bytes & f' & w' & E & Hn & Hl)
  end; try lia.
  - apply sound_set_positionInBuffer; [assumption|congruence|lia].
  - fsimpl. congruence.
  - fsimpl. exact Hsz.
  - apply zlength_firstn_skipn; lia.
  - rewrite E. rewrite bind_get. cbv beta.
    destruct (_ >=? _); mstep; unfold ret;
      eexists _, _, _, _; (split; [reflexivity|]); (split; [lia|exact Hl]).
Qed.

Lemma Read_bulk_returns_witness :
  exists n bytes f' w',
    Read_bulk Demo.driver 9 9 Demo.mid_block Demo.world
    = Done (n, bytes) f' w'
    /\ 0 <= n <= u32 9
    /\ zlength bytes = n.
Proof.
  apply (Read_bulk_returns Demo.driver 9 9 Demo.mid_block Demo.world).
  - reflexivity.
  - unfold sound. repeat split; try reflexivity; vm_compute; discriminate.
  - reflexivity.
  - vm_compute. lia.
Defined.

Section SeekReturns.
Variable driver : IFsDriver.t.
Hypothesis block_size_positive : 0 < u32 (IFsDriver.BlockSize driver).
Local Abbreviation bs := (u32 (IFsDriver.BlockSize driver)).

(** The loop of [Seek] advances [_positionInFile] by one block a turn and so
    needs no more turns than there are blocks below the target. *)
Lemma Seek_loop_fuel fuel : forall pos f w,
  sound driver f ->
  _positionInFile f <= pos -> pos + bs < 2 ^ 64 ->
  (Z.to_nat ((pos - _positionInFile f) / bs) <= fuel)%nat ->
  Seek_loop driver fuel pos f w <> OutOfFuel.
Proof.
  induction fuel as [|fuel IH]; intros pos f w H Hle Hmax Hfuel;
    assert (Hs := H); destruct Hs as (H1 & H2 & H3 & H4 & H5);
    cbn [Seek_loop]; rewrite bind_get; cbv beta; rewrite Z.gtb_ltb;
    rewrite H1, (u64_small (_positionInFile f + bs)) by lia;
    destruct (Z.ltb_spec (_positionInFile f + bs) pos) as [Hgt|Hnear];
    try discriminate.
  - (* a further turn is due, so at least one block lies below the target *)
    assert (1 <= (pos - _positionInFile f) / bs)
      by (apply Z.div_le_lower_bound; lia).
    lia.
  - unfold drv_EndOfFile, drv_GetBlocksPerNode, drv_GetNextChunk. mstep.
    destruct (IFsDriver.EndOfFile driver (_current f)); [discriminate|].
    mstep.
    assert (Hstep : forall g v,
      sound driver g -> _positionInFile g = _positionInFile f ->
      (e <- (call (CallEndOfFile (_current g)) ;;
             ret (IFsDriver.EndOfFile driver (_current g))) ;;
       if e : bool then ret false
       else modify (fun f0 => set_positionInFile
                        (u64 (_positionInFile f0 + _blockSize f0)) f0) ;;
            Seek_loop driver fuel pos)%file g v <> OutOfFuel).
    { intros g v Hg Gf. mstep.
      destruct (IFsDriver.EndOfFile driver (_current g)); [discriminate|].
      mstep.
      assert (Gs : _blockSize g = bs) by apply Hg.
      rewrite Gf, Gs, (u64_small (_positionInFile f + bs)) by lia.
      apply IH.
      - apply sound_set_positionInFile; [assumption|lia].
      - fsimpl. lia.
      - exact Hmax.
      - fsimpl.
        replace (pos - _positionInFile f)
          with (pos - (_positionInFile f + bs) + 1 * bs) in Hfuel by lia.
        rewrite Z.div_add in Hfuel by lia.
        assert (0 <= (pos - (_positionInFile f + bs)) / bs)
          by (apply Z.div_pos; lia).
        lia. }
    destruct (_ >=? _); mstep; apply Hstep; try reflexivity; exact H.
Qed.

End SeekReturns.

(** X15.  [Seek] returns.  On an object that satisfies the cursor invariant,
    for a target [pos] with [pos + _blockSize < 2^64] and a non-zero block
    size, the loop of [Seek] ends within [pos / _blockSize] turns, [Seek]
    returns (with [false]) and the cursor invariant holds afterwards. *)
Theorem Seek_returns (driver : IFsDriver.t) (fuel : nat) (pos : Z)
        (f : File.t) (w : World) :
  0 < u32 (IFsDriver.BlockSize driver) ->
  sound driver f ->
  0 <= pos -> pos + u32 (IFsDriver.BlockSize driver) < 2 ^ 64 ->
  (Z.to_nat (pos / u32 (IFsDriver.BlockSize driver)) <= fuel)%nat ->
  exists f' w',
    Seek driver fuel pos f w = Done false f' w'
    /\ sound driver f'.
Proof.
  intros Hbs H Hpos Hmax Hfuel.
  pose proof (u32_range (IFsDriver.BlockSize driver)) as Hr.
  assert (Hfuel' : forall g, sound driver g ->
            0 <= _positionInFile g <= pos ->
            forall v, Seek_loop driver fuel pos g v <> OutOfFuel).
  { intros g Hg Hle v. apply Seek_loop_fuel; try assumption; try lia.
    assert ((pos - _positionInFile g) / u32 (IFsDriver.BlockSize driver)
            <= pos / u32 (IFsDriver.BlockSize driver))
      by (apply Z.div_le_mono; lia).
    lia. }
  pose proof (Seek_safe driver fuel pos f w H) as Hsafe.
  assert (Hnf : Seek driver fuel pos f w <> OutOfFuel).
  { assert (Hs := H). destruct Hs as (H1 & H2 & H3 & H4 & H5).
    unfold Seek. cbv zeta. rewrite bind_get. cbv beta.
    rewrite (u64_small pos) by lia.
    destruct (_blockBuffer f) as [buf|] eqn:Hb; [|discriminate].
    rewrite Z.geb_leb.
    destruct (Z.leb_spec (u64 (_positionInFile f + _blockSize f)) pos)
      as [Hfar|Hnear];
      destruct (Z.ltb_spec pos (_positionInFile f)) as [Hback|Hfwd];
      cbn [orb]; mstep; try discriminate.
    all: match goal with
         | |- context [bind (Flush _) _ ?g ?v] =>
             assert (Hg : sound driver g)
               by (first [ exact H
                         | apply sound_set_positionInFile; [|lia];
                           eapply sound_ext; [exact H|reflexivity..] ]);
             destruct (Flush_sound driver g v Hg) as [v' Ef];
             rewrite (bind_Done _ _ _ _ _ _ _ Ef); mstep;
             unfold bind at 1;
             pose proof (Hfuel' g Hg) as HL;
             destruct (Seek_loop driver fuel pos g v') as [go f' w'| |] eqn:El
         end.
    all: try discriminate.
    all: try (exfalso; eapply HL; [|exact El]; fsimpl; lia).
    all: destruct go; cbv beta iota; mstep; try discriminate.
    all: mred; repeat case_if; discriminate. }
  destruct (Seek driver fuel pos f w) as [r f' w'| |] eqn:E;
    [|contradiction|congruence].
  exists f', w'. split; [|exact Hsafe].
  f_equal.
  (* every path of [Seek] ends in [return false] *)
  revert E. unfold Seek. mred.
  destruct (_blockBuffer f); [|intros E; injection E; auto].
  match goal with
  | |- context [match ?X with
                | Done _ _ _ => _
                | OutOfBounds => OutOfBounds
                | OutOfFuel => OutOfFuel
                end] => destruct X as [[] ? ?| |]
  end; intros E; try discriminate; injection E; auto.
Qed.

Lemma Seek_returns_witness :
  exists f' w',
    Seek Demo.driver 4 17 Demo.mid_block Demo.world = Done false f' w'
    /\ sound Demo.driver f'.
Proof.
  apply (Seek_returns Demo.driver 4 17 Demo.mid_block Demo.world).
  - reflexivity.
  - unfold sound. repeat split; try reflexivity; vm_compute; discriminate.
  - lia.
  - change (u32 (IFsDriver.BlockSize Demo.driver)) with 4. lia.
  - change (u32 (IFsDriver.BlockSize Demo.driver)) with 4.
    change (17 / 4) with 4. lia.
Defined.

(** *** What reading leaves alone *)

Section Binding.
Variable driver : IFsDriver.t.
Variable Find : string -> Z * Z.
Variable f0 : File.t.

Lemma keeps_modify_bound g :
  (forall f, _firstNode (g f) = _firstNode f /\ _size (g f) = _size f
             /\ _blockSize (g f) = _blockSize f
             /\ _blockBuffer (g f) = _blockBuffer f) ->
  keeps (bound_like f0) (modify g).
Proof.
  intros Hg f w (B1 & B2 & B3 & B4). destruct (Hg f) as (G1 & G2 & G3 & G4).
  unfold modify, bound_like. rewrite G1, G2, G3, G4. auto.
Qed.

Lemma keeps_call_bound c : keeps (bound_like f0) (call c).
Proof. intros f w B. exact B. Qed.

Lemma keeps_ReadBlock_bound node :
  keeps (bound_like f0) (drv_ReadBlock driver node).
Proof.
  intros f w (B1 & B2 & B3 & B4). unfold drv_ReadBlock. cbv zeta.
  destruct (_blockBuffer f) eqn:Hb; trivial.
  destruct (_ <=? _); trivial.
  unfold bound_like. fsimpl. repeat split; try assumption.
  - discriminate.
  - intros E. apply B4 in E. discriminate.
Qed.

Lemma keeps_WriteBlock_bound node :
  keeps (bound_like f0) (drv_WriteBlock driver node).
Proof.
  intros f w B. unfold drv_WriteBlock. repeat case_if; trivial.
Qed.

Ltac bound_step :=
  match goal with
  | |- keeps _ (bind _ _) => apply keeps_bind; [|intros ?]
  | |- keeps _ (ret _) => apply keeps_ret
  | |- keeps _ get => apply keeps_get
  | |- keeps _ (drv_ReadBlock _ _) => apply keeps_ReadBlock_bound
  | |- keeps _ (drv_WriteBlock _ _) => apply keeps_WriteBlock_bound
  | |- keeps _ (call _) => apply keeps_call_bound
  | |- keeps _ (modify _) =>
      apply keeps_modify_bound; intros ?; repeat split
  | |- keeps _ out_of_bounds => intros ? ? ?; exact I
  | |- keeps _ (fun _ _ => OutOfFuel) => intros ? ? ?; exact I
  | |- keeps _ (if ?c then _ else _) => destruct c
  | |- keeps _ (match ?o with Some _ => _ | None => _ end) => destruct o
  end.

Lemma Flush_bound : keeps (bound_like f0) (Flush driver).
Proof. unfold Flush, drv_EndOfFile. repeat bound_step. Qed.

Lemma next_block_bound : keeps (bound_like f0) (next_block driver).
Proof.
  unfold next_block, drv_GetBlocksPerNode, drv_GetNextChunk, drv_EndOfFile.
  repeat (bound_step || apply Flush_bound).
Qed.

Lemma Read_bound : keeps (bound_like f0) (Read driver).
Proof.
  unfold Read, take_byte, load_block, buffer_at, drv_EndOfFile.
  repeat (bound_step || apply next_block_bound).
Qed.

Lemma Read_loop_bound fuel n k dest :
  keeps (bound_like f0) (Read_loop driver fuel n k dest).
Proof.
  revert k dest. induction fuel as [|fuel IH]; intros k dest; simpl;
    unfold load_block, buffer_copy, drv_EndOfFile; cbv zeta;
    repeat (bound_step || apply next_block_bound).
  apply IH.
Qed.

Lemma Read_bulk_bound fuel n : keeps (bound_like f0) (Read_bulk driver fuel n).
Proof.
  unfold Read_bulk, buffer_copy; cbv zeta.
  repeat (bound_step || apply Read_loop_bound).
Qed.

Lemma Seek_loop_bound fuel pos :
  keeps (bound_like f0) (Seek_loop driver fuel pos).
Proof.
  induction fuel as [|fuel IH]; simpl;
    unfold drv_EndOfFile, drv_GetBlocksPerNode, drv_GetNextChunk;
    repeat bound_step.
  apply IH.
Qed.

Lemma Seek_bound fuel pos : keeps (bound_like f0) (Seek driver fuel pos).
Proof.
  unfold Seek, load_block; cbv zeta.
  repeat (bound_step || apply Seek_loop_bound || apply Flush_bound).
Qed.

Lemma Write_bound v : keeps (bound_like f0) (Write v).
Proof. unfold Write. repeat bound_step. Qed.

Lemma run_ops_bound ops :
  forallb (fun o => negb (is_open o)) ops = true ->
  keeps (bound_like f0) (run_ops driver Find ops).
Proof.
  induction ops as [|o ops IH]; simpl; intros H; [apply keeps_ret|].
  apply andb_true_iff in H. destruct H as [Ho H].
  apply keeps_bind; [|intros _; now apply IH].
  destruct o; try discriminate; simpl; repeat bound_step;
    auto using Read_bound, Read_bulk_bound, Write_bound, Seek_bound,
      Flush_bound.
Qed.

End Binding.

(** X16.  No operation other than [Open] rebinds the file: whatever
    sequence of [Read], bulk [Read], [Write], [Seek] and [Flush] runs on an
    object, [_firstNode], [_size] and [_blockSize] are afterwards what they
    were, and the object has a buffer exactly if it had one. *)
Theorem binding_is_fixed (driver : IFsDriver.t) (Find : string -> Z * Z)
        (ops : list Op) (f : File.t) (w : World) :
  forallb (fun o => negb (is_open o)) ops = true ->
  match run_ops driver Find ops f w with
  | Done _ f' _ =>
      _firstNode f' = _firstNode f /\ _size f' = _size f
      /\ _blockSize f' = _blockSize f
      /\ (_blockBuffer f' = None <-> _blockBuffer f = None)
  | _ => True
  end.
Proof.
  intros H.
  apply (run_ops_bound driver Find f ops H f w).
  repeat split; auto.
Qed.

Lemma binding_is_fixed_witness :
  match run_ops Demo.driver Demo.Find
          [OpRead; OpSeek 8 17; OpReadBulk 8 8; OpWrite 1; OpFlush; OpSeek 8 0]
          Demo.mid_block Demo.world
  with
  | Done _ f' _ =>
      _firstNode f' = _firstNode Demo.mid_block
      /\ _size f' = _size Demo.mid_block
      /\ _blockSize f' = _blockSize Demo.mid_block
      /\ (_blockBuffer f' = None <-> _blockBuffer Demo.mid_block = None)
  | _ => True
  end.
Proof.
  apply (binding_is_fixed Demo.driver Demo.Find
           [OpRead; OpSeek 8 17; OpReadBulk 8 8; OpWrite 1; OpFlush; OpSeek 8 0]
           Demo.mid_block Demo.world).
  reflexivity.
Defined.

(** *** Flags and reading *)

Lemma flagless_fields f g :
  flagless f = flagless g -> f = set_flags (_flags f) g.
Proof.
  destruct f, g. unfold flagless, set_flags. simpl. intros H.
  injection H as -> -> -> -> -> -> -> ->. reflexivity.
Qed.

Lemma forget_flags_Done {A} (o1 o2 : Outcome A) :
  forget_flags o1 = forget_flags o2 ->
  match o1, o2 with
  | Done a f w, Done b g v => a = b /\ w = v /\ flagless f = flagless g
  | OutOfBounds, OutOfBounds => True
  | OutOfFuel, OutOfFuel => True
  | _, _ => False
  end.
Proof.
  destruct o1 as [a f w| |], o2 as [b g v| |]; intros H;
    try discriminate H; auto.
  pose proof (f_equal result H) as Ha.
  pose proof (f_equal final_file H) as Hf.
  pose proof (f_equal (fun o => match o with
                                | Done _ _ w => Some w
                                | _ => None
                                end) H) as Hw.
  cbv beta iota delta [forget_flags result final_file] in *.
  repeat split; congruence.
Qed.

Lemma sim_ret {A} (a : A) : sim (ret a) (ret a).
Proof. intros f fl w. reflexivity. Qed.

Lemma bind_flags {A B} (m1 m2 : M A) (k1 k2 : A -> M B) f fl w :
  forget_flags (m1 (set_flags fl f) w) = forget_flags (m2 f w) ->
  (forall a, sim (k1 a) (k2 a)) ->
  forget_flags (bind m1 k1 (set_flags fl f) w)
  = forget_flags (bind m2 k2 f w).
Proof.
  intros Hm Hk. unfold bind.
  pose proof (forget_flags_Done _ _ Hm) as H.
  destruct (m1 (set_flags fl f) w) as [a g v| |],
           (m2 f w) as [a' g' v'| |]; try contradiction; try reflexivity.
  destruct H as (-> & -> & Hg).
  rewrite (flagless_fields g g' Hg). apply Hk.
Qed.

Lemma sim_bind {A B} (m1 m2 : M A) (k1 k2 : A -> M B) :
  sim m1 m2 -> (forall a, sim (k1 a) (k2 a)) ->
  sim (bind m1 k1) (bind m2 k2).
Proof. intros Hm Hk f fl w. apply bind_flags; [apply Hm|exact Hk]. Qed.

Lemma sim_get {B} (k1 k2 : File.t -> M B) :
  (forall f fl, sim (k1 (set_flags fl f)) (k2 f)) ->
  sim (bind get k1) (bind get k2).
Proof.
  intros H f fl w. rewrite !bind_get.
  rewrite <- (H f fl f fl w). reflexivity.
Qed.

Lemma sim_modify g :
  (forall f fl, flagless (g (set_flags fl f)) = flagless (g f)) ->
  sim (modify g) (modify g).
Proof. intros H f fl w. unfold modify, forget_flags. now rewrite H. Qed.

Lemma sim_call c : sim (call c) (call c).
Proof. intros f fl w. reflexivity. Qed.

Lemma sim_fail {A} (o : Outcome A) :
  forget_flags o = o -> sim (fun _ _ => o) (fun _ _ => o).
Proof. intros H f fl w. reflexivity. Qed.

Section Flags.
Variable driver : IFsDriver.t.

Lemma sim_ReadBlock node :
  sim (drv_ReadBlock driver node) (drv_ReadBlock driver node).
Proof.
  intros f fl w. unfold drv_ReadBlock. cbv zeta.
  cbn [set_flags _blockBuffer].
  destruct (_blockBuffer f); [|reflexivity].
  destruct (_ <=? _); reflexivity.
Qed.

Ltac sim_step :=
  match goal with
  | |- sim (bind get _) (bind get _) =>
      apply sim_get; intros ? ?;
      cbn [set_flags _firstNode _current _blockBuffer _positionInFile _size
           _blockInChunk _blockSize _positionInBuffer]
  | |- sim (bind _ _) (bind _ _) => apply sim_bind; [|intros ?]
  | |- sim (ret _) (ret _) => apply sim_ret
  | |- sim (drv_ReadBlock _ _) (drv_ReadBlock _ _) => apply sim_ReadBlock
  | |- sim (call _) (call _) => apply sim_call
  | |- sim (modify _) (modify _) => apply sim_modify; intros ? ?; reflexivity
  | |- sim out_of_bounds out_of_bounds => intros ? ? ?; reflexivity
  | |- sim (fun _ _ => OutOfFuel) (fun _ _ => OutOfFuel) =>
      intros ? ? ?; reflexivity
  | |- sim (if ?c then _ else _) (if ?c then _ else _) => destruct c
  | |- sim (match ?o with Some _ => _ | None => _ end)
           (match ?o with Some _ => _ | None => _ end) => destruct o
  end.

Lemma take_byte_sim : sim take_byte take_byte.
Proof. unfold take_byte, buffer_at. repeat sim_step. Qed.

Lemma load_block_sim : sim (load_block driver) (load_block driver).
Proof. unfold load_block. repeat sim_step. Qed.

(** After the driver denied that the current node ends the chain, [Flush]
    does not look at the flags. *)
Lemma next_block_flags f fl w :
  IFsDriver.EndOfFile driver (_current f) = false ->
  forget_flags (next_block driver (set_flags fl f) w)
  = forget_flags (next_block driver f w).
Proof.
  intros He. unfold next_block.
  assert (EF : forall g, _current g = _current f ->
               _blockBuffer g = _blockBuffer f ->
               Flush driver g w
               = Done tt g
                   (match _blockBuffer f with
                    | Some _ =>
                        if _current f =? 0 then w
                        else log w (CallEndOfFile (_current f))
                    | None => w
                    end)).
  { intros g Hc Hb. unfold Flush. mred. rewrite Hb, Hc, He.
    destruct (_blockBuffer f); [|reflexivity].
    destruct (_current f =? 0); reflexivity. }
  match goal with
  | |- forget_flags (bind _ ?k _ _) = _ => set (rest := k)
  end.
  rewrite (bind_Done _ _ _ _ _ _ _ (EF (set_flags fl f) eq_refl eq_refl)).
  rewrite (bind_Done _ _ _ _ _ _ _ (EF f eq_refl eq_refl)).
  apply (fun H : sim (rest tt) (rest tt) => H f fl _).
  unfold rest, drv_GetBlocksPerNode, drv_GetNextChunk, drv_EndOfFile.
  repeat sim_step.
Qed.

Lemma Read_flags f fl w :
  forget_flags (Read driver (set_flags fl f) w)
  = forget_flags (Read driver f w).
Proof.
  unfold Read. rewrite !bind_get.
  cbn [set_flags _firstNode _current _blockBuffer _positionInFile _size
       _blockInChunk _blockSize _positionInBuffer].
  destruct (_ >=? _); [|apply take_byte_sim].
  destruct (_blockBuffer f); [|reflexivity].
  apply bind_flags.
  - destruct (_current f =? 0).
    + apply (fun H : sim _ _ => H f fl w). repeat sim_step.
    + unfold drv_EndOfFile. mstep.
      destruct (IFsDriver.EndOfFile driver (_current f)) eqn:He.
      * reflexivity.
      * now apply next_block_flags.
  - intros go.
    destruct go; repeat (sim_step || apply load_block_sim || apply take_byte_sim).
Qed.

Lemma Read_sim : sim (Read driver) (Read driver).
Proof. intros f fl w. apply Read_flags. Qed.

Lemma Read_loop_sim fuel : forall N br dest,
  sim (Read_loop driver fuel N br dest) (Read_loop driver fuel N br dest).
Proof.
  induction fuel as [|fuel IH]; intros N br dest f fl w;
    cbn [Read_loop]; rewrite !bind_get;
    cbn [set_flags _firstNode _current _blockBuffer _positionInFile _size
         _blockInChunk _blockSize _positionInBuffer];
    destruct (_ && _); try reflexivity.
  apply bind_flags.
  - destruct (_current f =? 0).
    + apply (fun H : sim _ _ => H f fl w). repeat sim_step.
    + unfold drv_EndOfFile. mstep.
      destruct (IFsDriver.EndOfFile driver (_current f)) eqn:He.
      * reflexivity.
      * now apply next_block_flags.
  - intros go. unfold buffer_copy. cbv zeta.
    destruct go; repeat (sim_step || apply load_block_sim || apply IH).
Qed.

Lemma Read_bulk_sim fuel N :
  sim (Read_bulk driver fuel N) (Read_bulk driver fuel N).
Proof.
  unfold Read_bulk, buffer_copy. cbv zeta.
  repeat (sim_step || apply Read_loop_sim).
Qed.

Lemma reads_sim n : sim (reads driver n) (reads driver n).
Proof.
  induction n as [|n IH]; simpl; repeat (sim_step || apply Read_sim).
  exact IH.
Qed.

Lemma serve_sim fuel rs : sim (serve driver fuel rs) (serve driver fuel rs).
Proof.
  induction rs as [|[|n] rs IH]; cbn [serve];
    repeat (sim_step || apply Read_sim || apply Read_bulk_sim); exact IH.
Qed.

End Flags.

(** X17.  The flags do not steer reading.  Whatever flags an object
    carries, a single-byte and a bulk [Read] return the same value, make the
    same driver calls and leave every field but the flags the same; so
    EndOfFile, NotExists and the others are reports, not gates. *)
Theorem flags_do_not_steer_reads (driver : IFsDriver.t) (fuel : nat) (N : Z)
        (fl : Z) (f : File.t) (w : World) :
  forget_flags (Read driver (set_flags fl f) w)
  = forget_flags (Read driver f w)
  /\ forget_flags (Read_bulk driver fuel N (set_flags fl f) w)
     = forget_flags (Read_bulk driver fuel N f w).
Proof.
  split; [apply Read_flags|apply Read_bulk_sim].
Qed.

Lemma serve_flags_Done driver fuel rs fl f w l f1 w1 :
  serve driver fuel rs f w = Done l f1 w1 ->
  exists f2, serve driver fuel rs (set_flags fl f) w = Done l f2 w1
             /\ flagless f2 = flagless f1.
Proof.
  intros E. pose proof (serve_sim driver fuel rs f fl w) as H.
  rewrite E in H. apply forget_flags_Done in H.
  destruct (serve driver fuel rs (set_flags fl f) w) as [l2 f2 w2| |];
    try contradiction.
  destruct H as (-> & -> & Hf). exists f2. auto.
Qed.

(** X18.  A file opened by path reads as the file bound directly.  For a
    path that resolves to ([node], [size]) (a file of at least one block,
    [size < 2^32], the chain covering it), any sequence of [Read()] and bulk
    [Read] requests for at most [size] bytes in all, served by the object
    [File(driver, path)] builds where its uninitialised buffer pointer
    reads as null, delivers the first bytes of the file in order; and so
    does the object [File(driver)] followed by a successful [Open(path)]
    leaves, on which [EndOfFile()] is nevertheless true from the start. *)
Theorem opened_by_path_reads_the_file (driver : IFsDriver.t)
        (Find : string -> Z * Z) (filePath : string) (node size : Z)
        (g : Z -> Z) (junk : Z) (w : World) (rs : list Req) (fuel : nat) :
  Find filePath = (node, size) ->
  0 < u32 (IFsDriver.BlockSize driver) ->
  0 < node < 2 ^ 32 ->
  u32 (IFsDriver.BlockSize driver) <= size < 2 ^ 32 ->
  covers driver node size ->
  Z.of_nat (total rs) <= size ->
  (total rs <= fuel)%nat ->
  (exists f w1,
     and_then (File_path driver Find filePath (Some g) junk None w)
              (serve driver fuel rs)
     = Done (file_bytes driver (disk w) node 0 (total rs)) f w1)
  /\ (exists f0 w0 f w1,
        and_then (File_unbound driver w)
                 (Open driver Find filePath (Some g))
        = Done true f0 w0
        /\ EndOfFile f0 = true
        /\ serve driver fuel rs f0 w0
           = Done (file_bytes driver (disk w) node 0 (total rs)) f w1).
Proof.
  intros HF Hbs Hnode Hsize Hcov Hle Hfuel.
  assert (Hnn : node <> 0) by lia.
  assert (Hsr : 0 <= size < 2 ^ 32) by lia.
  assert (Hu : u32 node = node) by (apply u32_small; lia).
  assert (Hz : u64 size = size) by (apply u64_small; lia).
  assert (Hserve : forall w0, disk w0 = disk w ->
            exists f1 w1,
              serve driver fuel rs (fresh driver node size g) w0
              = Done (file_bytes driver (disk w) node 0 (total rs)) f1 w1).
  { intros w0 Hd.
    destruct (serve_from driver (disk w) node size g fuel rs 0
                (fresh driver node size g) w0
                Hbs Hnn Hsr Hcov ltac:(lia) eq_refl)
      as (f1 & w1 & E1 & _); try lia; try assumption.
    eauto. }
  split.
  - destruct (Hserve (more w [CallGetParameter]) eq_refl) as (f1 & w1 & E1).
    destruct (serve_flags_Done driver fuel rs FileNotExists _ _ _ _ _ E1)
      as (f2 & E2 & _).
    exists f2, w1. rewrite <- E2.
    unfold File_path, Open. mred. fsimpl. rewrite HF. cbn [fst snd].
    rewrite Hu, Hz.
    destruct (Z.eqb_spec node 0); [contradiction|]. reflexivity.
  - destruct (Hserve (log (log w CallGetParameter) CallGetParameter) eq_refl)
      as (f1 & w1 & E1).
    destruct (serve_flags_Done driver fuel rs
                (Z.lor FileFlagEof FileNotExists) _ _ _ _ _ E1)
      as (f2 & E2 & _).
    eexists _, _, f2, w1. split; [|split; [|exact E2]].
    + unfold File_unbound, Open. mred. fsimpl. rewrite HF. cbn [fst snd].
      rewrite Hu, Hz.
      destruct (Z.eqb_spec node 0); [contradiction|]. reflexivity.
    + reflexivity.
Qed.

Lemma opened_by_path_reads_the_file_witness :
  (exists f w1,
     and_then (File_path Demo.driver Demo.Find "data.bin"
                 (Some Demo.garbage) 0 None Demo.world)
              (serve Demo.driver 12 [One; Many 6; One; Many 4])
     = Done (file_bytes Demo.driver (disk Demo.world) 10 0
               (total [One; Many 6; One; Many 4])) f w1)
  /\ (exists f0 w0 f w1,
        and_then (File_unbound Demo.driver Demo.world)
                 (Open Demo.driver Demo.Find "data.bin" (Some Demo.garbage))
        = Done true f0 w0
        /\ EndOfFile f0 = true
        /\ serve Demo.driver 12 [One; Many 6; One; Many 4] f0 w0
           = Done (file_bytes Demo.driver (disk Demo.world) 10 0
                     (total [One; Many 6; One; Many 4])) f w1).
Proof.
  apply (opened_by_path_reads_the_file Demo.driver Demo.Find "data.bin"
           10 20 Demo.garbage 0 Demo.world [One; Many 6; One; Many 4] 12).
  - reflexivity.
  - reflexivity.
  - lia.
  - change (u32 (IFsDriver.BlockSize Demo.driver)) with 4. lia.
  - apply Demo_covers. lia.
  - change (total [One; Many 6; One; Many 4]) with 12%nat. lia.
  - change (total [One; Many 6; One; Many 4]) with 12%nat. lia.
Defined.
